(** * journal-tui: the persistence and encryption layer

    A shallow embedding of [internal/storage/storage.go], of the data
    model in package [model], and of the two front-end workflows that
    decide when history is written ([App.Update], editor branch, and
    [AttachmentModel.addAttachment]).

    Conventions.
    - Go's [(T, error)] results are values of [result T]; every error
      return of the embedded functions returns the zero value of [T]
      next to the error, so [Err e] loses nothing.
    - Code that touches the file system, the random source or the
      database runs in the monad [M], a state-and-error monad over
      [World].  Effects made before an error stay in the world, as they
      do on disk.
    - [time.Time] is an integer count ([Time := Z]); the SQLite driver
      is taken to store and return the same instant.
    - The Go standard library's SHA-256 and AES-GCM are an interface
      ([GoCrypto]) with their contracts ([GoCryptoSpec]).
    - SQLite is modelled at the level of the three tables of
      [initSchema]; foreign keys are not enforced (the code never
      turns the pragma on), so cascades happen only where the code
      deletes explicitly.  The bytes of a database file are an
      interface too ([SqliteFormat], [SqliteFormatSpec]).
    - The environment can refuse a write: every statement that
      changes a database, every commit and every [os.WriteFile] asks
      [tick], which fails when the next entry of [w_faults] says so. *)

From Stdlib Require Import ZArith Strings.Byte String Ascii Sorted.
From stdpp Require Import gmap strings list sorting.

Open Scope string_scope.
Open Scope Z_scope.
Open Scope list_scope.

(** ** Package model *)

Definition Time := Z.

Record Attachment := mkAttachment {
  att_ID : string;
  att_EntryID : string;
  att_Filename : string;
  att_MimeType : string;
  att_Size : Z;
  att_Data : list byte;
  att_CreatedAt : Time
}.

Record SaveRecord := mkSaveRecord {
  rec_Content : string;
  rec_SavedAt : Time;
  rec_Attachments : list string
}.

Record Entry := mkEntry {
  ent_ID : string;
  ent_Date : string;
  ent_Content : string;
  ent_CreatedAt : Time;
  ent_UpdatedAt : Time;
  ent_History : list SaveRecord;
  ent_Attachments : list Attachment
}.

Record Journal := mkJournal { Entries : list Entry }.

Record JournalDB := mkJournalDB {
  jdb_Name : string;
  jdb_Path : string;
  jdb_Encrypted : bool;
  jdb_LastOpened : Time
}.

Record Config := mkConfig {
  cfg_DatabasePath : string;
  cfg_Encrypted : bool;
  cfg_Journals : list JournalDB;
  cfg_ActiveJournal : string;
  cfg_Theme : string
}.

(** [Entry.AttachmentFilenames] *)
Definition AttachmentFilenames (e : Entry) : list string :=
  map att_Filename (ent_Attachments e).

(** ** Errors and results *)

Inductive error :=
| ErrInvalidPassword      (* storage.ErrInvalidPassword *)
| ErrNoRows               (* sql.ErrNoRows *)
| ErrNotExist             (* os.ErrNotExist *)
| ErrHomeDir              (* os.UserHomeDir failed *)
| ErrUnexpectedEOF        (* io.ReadFull got too few bytes *)
| ErrKeySize              (* aes.KeySizeError *)
| ErrNoSuchTable          (* SQLite: no such table *)
| ErrNotADatabase         (* SQLite: file is not a database *)
| ErrConstraint           (* SQLite: constraint failed *)
| ErrIO.                  (* a write that the operating system refused *)

Inductive result (A : Type) :=
| Ok (a : A)
| Err (e : error).
Arguments Ok {A} a.
Arguments Err {A} e.

#[global] Instance error_eq_dec : EqDecision error.
Proof. solve_decision. Defined.

#[global] Instance byte_eq_dec : EqDecision byte := Byte.byte_eq_dec.

(** ** The database file: three tables *)

Record EntryRow := mkEntryRow {
  er_id : string;
  er_date : string;
  er_content : string;
  er_created_at : Time;
  er_updated_at : Time
}.

(** The AUTOINCREMENT key of [history] is the position in the list. *)
Record HistoryRow := mkHistoryRow {
  hr_entry_id : string;
  hr_content : string;
  hr_saved_at : Time;
  hr_attachment_names : string
}.

Record AttachmentRow := mkAttachmentRow {
  ar_id : string;
  ar_entry_id : string;
  ar_filename : string;
  ar_mime_type : string;
  ar_size : Z;
  ar_data : list byte;
  ar_created_at : Time
}.

Record Tables := mkTables {
  entries : list EntryRow;
  history : list HistoryRow;
  attachments : list AttachmentRow
}.

(** A database file without the schema is [None]. *)
Abbreviation DB := (option Tables).

Definition emptyTables : Tables := mkTables [] [] [].

(** A path holds a SQLite database, plain bytes (an encrypted blob, a
    file to attach) or a directory. *)
Inductive File :=
| SqliteFile (d : DB)
| RawFile (b : list byte)
| Directory.

(** ** The world and the monad *)

Record World := mkWorld {
  w_fs : gmap string File;      (* files by expanded path *)
  w_home : option string;       (* os.UserHomeDir *)
  w_rand : list byte;           (* what crypto/rand.Reader will yield *)
  w_faults : list bool          (* true: the next store write fails *)
}.

Definition M (A : Type) : Type := World -> result A * World.

Definition ret {A} (a : A) : M A := fun w => (Ok a, w).
Definition fail {A} (e : error) : M A := fun w => (Err e, w).
Definition bind {A B} (m : M A) (k : A -> M B) : M B :=
  fun w => match m w with
           | (Ok a, w') => k a w'
           | (Err e, w') => (Err e, w')
           end.
Definition lift {A} (r : result A) : M A := fun w => (r, w).

Declare Scope go_scope.
Delimit Scope go_scope with go.
Notation "x <- m ;; k" := (bind m (fun x => k))
  (at level 100, m at next level, right associativity) : go_scope.
Notation "m ;;; k" := (bind m (fun _ => k))
  (at level 100, right associativity) : go_scope.
Open Scope go_scope.

Definition get_fs : M (gmap string File) := fun w => (Ok (w_fs w), w).
Definition put_file (p : string) (f : File) : M unit :=
  fun w => (Ok tt, mkWorld (<[p := f]> (w_fs w)) (w_home w) (w_rand w) (w_faults w)).

(** A write to the store: fails when the environment says so. *)
Definition tick : M unit :=
  fun w => match w_faults w with
           | true :: fs => (Err ErrIO, mkWorld (w_fs w) (w_home w) (w_rand w) fs)
           | false :: fs => (Ok tt, mkWorld (w_fs w) (w_home w) (w_rand w) fs)
           | [] => (Ok tt, w)
           end.

(** [io.ReadFull(rand.Reader, buf)] with [len(buf) = n]. *)
Definition rand_ReadFull (n : nat) : M (list byte) :=
  fun w => if decide (n <= length (w_rand w))%nat
           then (Ok (take n (w_rand w)),
                 mkWorld (w_fs w) (w_home w) (drop n (w_rand w)) (w_faults w))
           else (Err ErrUnexpectedEOF, w).

(** ** Encryption envelope *)

(** What the code uses of [crypto/sha256], [crypto/aes] and
    [crypto/cipher]: the hash, and GCM with no additional data. *)
Class GoCrypto := {
  sha256_Sum256 : list byte -> list byte;
  gcm_Seal : list byte -> list byte -> list byte -> list byte;
  gcm_Open : list byte -> list byte -> list byte -> option (list byte)
}.

(** Their contracts: a 32-byte digest, and opening what was sealed
    under the same key and nonce gives the plaintext back. *)
Class GoCryptoSpec (C : GoCrypto) := {
  Sum256_length : forall m, length (sha256_Sum256 m) = 32%nat;
  Open_Seal : forall key nonce plaintext,
    gcm_Open key nonce (gcm_Seal key nonce plaintext) = Some plaintext
}.

(** [gcm.NonceSize()] of the standard GCM. *)
Definition NonceSize : nat := 12.

(** [aes.NewCipher]: keys of 16, 24 or 32 bytes only. *)
Definition aes_NewCipher (key : list byte) : result unit :=
  if decide (length key = 16 \/ length key = 24 \/ length key = 32)%nat
  then Ok tt else Err ErrKeySize.

Section Envelope.
Context {C : GoCrypto}.

Definition deriveKey (password : string) : list byte :=
  sha256_Sum256 (list_byte_of_string password).

(** [gcm.Seal(nonce, nonce, data, nil)] appends to its first argument. *)
Definition encrypt (data : list byte) (password : string) : M (list byte) :=
  let key := deriveKey password in
  _ <- lift (aes_NewCipher key) ;;
  nonce <- rand_ReadFull NonceSize ;;
  ret (nonce ++ gcm_Seal key nonce data).

Definition decrypt (data : list byte) (password : string) : result (list byte) :=
  let key := deriveKey password in
  match aes_NewCipher key with
  | Err e => Err e
  | Ok _ =>
    if decide (length data < NonceSize)%nat then Err ErrInvalidPassword
    else
      let nonce := take NonceSize data in
      let ciphertext := drop NonceSize data in
      match gcm_Open key nonce ciphertext with
      | None => Err ErrInvalidPassword
      | Some plaintext => Ok plaintext
      end
  end.

End Envelope.

(** ** Strings and paths of the Go library, as far as the code uses them *)

Definition strings_HasPrefix (s prefix : string) : bool := String.prefix prefix s.

(** [strings.Join(elems, sep)] *)
Fixpoint strings_Join (elems : list string) (sep : string) : string :=
  match elems with
  | [] => ""
  | [x] => x
  | x :: rest => (x ++ sep ++ strings_Join rest sep)%string
  end.

(** [strings.Split(s, sep)] for a separator of one byte, the only use. *)
Fixpoint strings_Split (s : string) (sep : ascii) : list string :=
  match s with
  | EmptyString => [""]
  | String c r =>
    if decide (c = sep) then "" :: strings_Split r sep
    else match strings_Split r sep with
         | x :: xs => String c x :: xs
         | [] => [String c ""]
         end
  end.

(** [strings.ToLower] on ASCII letters. *)
Definition lower_ascii (c : ascii) : ascii :=
  let n := nat_of_ascii c in
  if decide (65 <= n /\ n <= 90)%nat then ascii_of_nat (n + 32) else c.

Fixpoint strings_ToLower (s : string) : string :=
  match s with
  | EmptyString => EmptyString
  | String c r => String (lower_ascii c) (strings_ToLower r)
  end.

(** [filepath.Join] of two elements, without the normalisation done by
    [filepath.Clean]: paths are compared as written. *)
Definition filepath_Join (dir name : string) : string :=
  if decide (name = "") then dir else (dir ++ "/" ++ name)%string.

(** [filepath.Base]: the last element of the path, for a path that
    does not end in a separator. *)
Definition filepath_Base (path : string) : string :=
  if decide (path = "") then "."
  else match last (strings_Split path "/") with
       | Some b => b
       | None => path
       end.

(** [filepath.Ext]: the suffix from the last dot of the last element. *)
Fixpoint filepath_Ext (path : string) : string :=
  match path with
  | EmptyString => ""
  | String c r =>
    let e := filepath_Ext r in
    if decide (c = "/"%char) then e
    else if decide (e = "") then
           (if decide (c = "."%char)
            then (if existsb (fun x => bool_decide (x = "/"%char)) (list_ascii_of_string r)
                  then "" else String c r)
            else "")
         else e
  end.

Definition mimeTypes : list (string * string) :=
  [ (".pdf", "application/pdf");
    (".png", "image/png");
    (".jpg", "image/jpeg");
    (".jpeg", "image/jpeg");
    (".gif", "image/gif");
    (".webp", "image/webp");
    (".svg", "image/svg+xml");
    (".mp3", "audio/mpeg");
    (".wav", "audio/wav");
    (".mp4", "video/mp4");
    (".webm", "video/webm");
    (".txt", "text/plain");
    (".md", "text/markdown");
    (".json", "application/json");
    (".xml", "application/xml");
    (".zip", "application/zip");
    (".doc", "application/msword");
    (".docx", "application/vnd.openxmlformats-officedocument.wordprocessingml.document");
    (".xls", "application/vnd.ms-excel");
    (".xlsx", "application/vnd.openxmlformats-officedocument.spreadsheetml.sheet") ].

Definition DetectMimeType (filename : string) : string :=
  let ext := strings_ToLower (filepath_Ext filename) in
  match find (fun kv => bool_decide (fst kv = ext)) mimeTypes with
  | Some kv => snd kv
  | None => "application/octet-stream"
  end.

(** [ExpandPath] *)
Definition ExpandPath (path : string) : M string :=
  if strings_HasPrefix path "~/" then
    fun w => match w_home w with
             | None => (Err ErrHomeDir, w)
             | Some home =>
               (Ok (filepath_Join home (substring 2 (String.length path - 2) path)), w)
             end
  else ret path.

(** ** Journal registry *)

Definition AddJournal (config : Config) (name path : string) (encrypted : bool) : Config :=
  mkConfig (cfg_DatabasePath config) (cfg_Encrypted config)
    (cfg_Journals config ++ [mkJournalDB name path encrypted 0])
    (cfg_ActiveJournal config) (cfg_Theme config).

(** The loop of [FindJournal] and of [UpdateJournalLastOpened]: the
    index of the first descriptor with the path, counting from [i]. *)
Fixpoint findFrom (i : nat) (journals : list JournalDB) (path : string) : option nat :=
  match journals with
  | [] => None
  | j :: rest =>
    if decide (jdb_Path j = path) then Some i else findFrom (S i) rest path
  end.

(** [FindJournal]: the pointer [&config.Journals[i]] is the index [i],
    [nil] is [None]. *)
Definition FindJournal (config : Config) (path : string) : option nat :=
  findFrom 0 (cfg_Journals config) path.

Definition setLastOpened (t : Time) (j : JournalDB) : JournalDB :=
  mkJournalDB (jdb_Name j) (jdb_Path j) (jdb_Encrypted j) t.

Fixpoint updateFirst (journals : list JournalDB) (path : string) (t : Time) : list JournalDB :=
  match journals with
  | [] => []
  | j :: rest =>
    if decide (jdb_Path j = path) then setLastOpened t j :: rest
    else j :: updateFirst rest path t
  end.

Definition UpdateJournalLastOpened (config : Config) (path : string) (t : Time) : Config :=
  mkConfig (cfg_DatabasePath config) (cfg_Encrypted config)
    (updateFirst (cfg_Journals config) path t)
    (cfg_ActiveJournal config) (cfg_Theme config).

(** ** SQLite, as far as the statements of the code need it *)

(** [ORDER BY key DESC]: rows with a larger key first.  Rows with
    equal keys keep their table order. *)
Fixpoint insert_desc {A} (before : A -> A -> bool) (x : A) (l : list A) : list A :=
  match l with
  | [] => [x]
  | y :: l' => if before x y then x :: y :: l' else y :: insert_desc before x l'
  end.

Definition sort_desc {A} (before : A -> A -> bool) (l : list A) : list A :=
  foldr (insert_desc before) [] l.

Definition date_before (a b : EntryRow) : bool := String.leb (er_date b) (er_date a).
Definition saved_before (a b : HistoryRow) : bool := Z.leb (hr_saved_at b) (hr_saved_at a).

(** What a connection finds in its file: a database with or without
    the schema, or something SQLite refuses. *)
Definition Conn := result DB.

(** The bytes of a database file and what SQLite makes of bytes. *)
Class SqliteFormat := {
  sqlite_image : DB -> list byte;
  sqlite_parse : list byte -> option DB
}.

Class SqliteFormatSpec (F : SqliteFormat) := {
  parse_image : forall d, sqlite_parse (sqlite_image d) = Some d
}.

(** A statement that changes the database. *)
Definition Stmt := DB -> result DB.

Definition onTables (f : Tables -> result Tables) : Stmt :=
  fun d => match d with
           | None => Err ErrNoSuchTable
           | Some t => match f t with
                       | Ok t' => Ok (Some t')
                       | Err e => Err e
                       end
           end.

(** [CREATE TABLE IF NOT EXISTS] for the three tables.  The
    [ALTER TABLE] that follows it in [initSchema] fails on a schema
    that has the column, and its error is dropped. *)
Definition initSchema : Stmt :=
  fun d => match d with
           | None => Ok (Some emptyTables)
           | Some t => Ok (Some t)
           end.

(** [INSERT OR REPLACE INTO entries]: rows that clash with the new one
    on the primary key [id] or on the unique [date] are deleted, then
    the row is inserted. *)
Definition insert_or_replace_entry (r : EntryRow) : Stmt :=
  onTables (fun t =>
    Ok (mkTables
          (filter (fun x => er_id x <> er_id r /\ er_date x <> er_date r) (entries t) ++ [r])
          (history t) (attachments t))).

(** [SELECT COUNT( * ) FROM history WHERE entry_id = ? AND saved_at = ?] *)
Definition count_history (entryID : string) (savedAt : Time) (d : DB) : nat :=
  match d with
  | None => 0%nat
  | Some t =>
    length (filter (fun h => hr_entry_id h = entryID /\ hr_saved_at h = savedAt) (history t))
  end.

(** The row that [INSERT INTO history] writes for a record. *)
Definition history_row (entryID : string) (record : SaveRecord) : HistoryRow :=
  mkHistoryRow entryID (rec_Content record) (rec_SavedAt record)
    (strings_Join (rec_Attachments record) "|").

(** The row that [INSERT INTO attachments] writes. *)
Definition attachment_row (a : Attachment) : AttachmentRow :=
  mkAttachmentRow (att_ID a) (att_EntryID a) (att_Filename a) (att_MimeType a) (att_Size a)
    (att_Data a) (att_CreatedAt a).

(** [INSERT INTO history (entry_id, content, saved_at, attachment_names)] *)
Definition insert_history (entryID : string) (record : SaveRecord) : Stmt :=
  onTables (fun t =>
    Ok (mkTables (entries t) (history t ++ [history_row entryID record]) (attachments t))).

(** [INSERT INTO attachments]: the primary key [id] must be new. *)
Definition insert_attachment (a : Attachment) : Stmt :=
  onTables (fun t =>
    if existsb (fun x => bool_decide (ar_id x = att_ID a)) (attachments t)
    then Err ErrConstraint
    else Ok (mkTables (entries t) (history t) (attachments t ++ [attachment_row a]))).

Definition delete_history_of (entryID : string) : Stmt :=
  onTables (fun t =>
    Ok (mkTables (entries t) (filter (fun h => hr_entry_id h <> entryID) (history t))
          (attachments t))).

Definition delete_attachments_of (entryID : string) : Stmt :=
  onTables (fun t =>
    Ok (mkTables (entries t) (history t)
          (filter (fun a => ar_entry_id a <> entryID) (attachments t)))).

Definition delete_entry (entryID : string) : Stmt :=
  onTables (fun t =>
    Ok (mkTables (filter (fun e => er_id e <> entryID) (entries t)) (history t)
          (attachments t))).

Definition delete_attachment (attachmentID : string) : Stmt :=
  onTables (fun t =>
    Ok (mkTables (entries t) (history t)
          (filter (fun a => ar_id a <> attachmentID) (attachments t)))).

Section Storage.
Context {C : GoCrypto} {F : SqliteFormat}.

(** [os.ReadFile] *)
Definition os_ReadFile (p : string) : M (list byte) :=
  fun w => match w_fs w !! p with
           | None => (Err ErrNotExist, w)
           | Some (SqliteFile d) => (Ok (sqlite_image d), w)
           | Some (RawFile b) => (Ok b, w)
           | Some Directory => (Err ErrIO, w)
           end.

(** [os.WriteFile] *)
Definition os_WriteFile (p : string) (data : list byte) : M unit :=
  _ <- tick ;;
  fs <- get_fs ;;
  match fs !! p with
  | Some Directory => fail ErrIO
  | _ => put_file p (RawFile data)
  end.

(** What [sql.Open] on a file leads to at the first statement. *)
Definition conn_of (f : option File) : Conn :=
  match f with
  | None => Ok None
  | Some (SqliteFile d) => Ok d
  | Some (RawFile b) =>
    match sqlite_parse b with
    | Some d => Ok d
    | None => Err ErrNotADatabase
    end
  | Some Directory => Err ErrIO
  end.

(** One statement on a connection: [db.Exec], [tx.Exec]. *)
Definition exec (stmt : Stmt) (c : Conn) : M DB :=
  _ <- tick ;;
  d <- lift c ;;
  lift (stmt d).

(** The connection to the database at path [p], as its first statement
    finds it; SQLite creates an empty file when there is none. *)
Definition db_conn (p : string) : M Conn :=
  fs <- get_fs ;;
  _ <- (match fs !! p with
        | None => put_file p (SqliteFile None)
        | Some _ => ret tt
        end) ;;
  ret (conn_of (fs !! p)).

(** [db.Exec] on the database at path [p], committed at once. *)
Definition db_Exec (p : string) (stmt : Stmt) : M unit :=
  c <- db_conn p ;;
  d <- exec stmt c ;;
  put_file p (SqliteFile d).

(** A query on the database at path [p]. *)
Definition db_Query {A} (p : string) (q : Conn -> result A) : M A :=
  c <- db_conn p ;;
  lift (q c).

(** [openDB]: the handle is the expanded path; [sql.Open] touches
    nothing yet. *)
Definition openDB (path : string) : M string := ExpandPath path.

(** *** Load *)

Definition history_of (t : Tables) (entryID : string) : list SaveRecord :=
  map (fun h =>
         mkSaveRecord (hr_content h) (hr_saved_at h)
           (if decide (hr_attachment_names h = "") then []
            else strings_Split (hr_attachment_names h) "|"))
      (sort_desc saved_before (filter (fun h => hr_entry_id h = entryID) (history t))).

Definition attachments_of (t : Tables) (entryID : string) : list Attachment :=
  map (fun a =>
         mkAttachment (ar_id a) entryID (ar_filename a) (ar_mime_type a) (ar_size a) []
           (ar_created_at a))
      (filter (fun a => ar_entry_id a = entryID) (attachments t)).

(** [loadJournalFromDB]: when the first query fails (no table yet, or
    not a database) the empty journal comes back with no error.  Rows
    always scan, as the columns are typed here; the payload column
    [data] is not selected. *)
Definition loadJournalFromDB (c : Conn) : result Journal :=
  match c with
  | Ok (Some t) =>
    Ok (mkJournal
          (map (fun e =>
                  mkEntry (er_id e) (er_date e) (er_content e) (er_created_at e)
                    (er_updated_at e) (history_of t (er_id e)) (attachments_of t (er_id e)))
               (sort_desc date_before (entries t))))
  | _ => Ok (mkJournal [])
  end.

Definition LoadJournal (path : string) : M Journal :=
  expandedPath <- ExpandPath path ;;
  fs <- get_fs ;;
  match fs !! expandedPath with
  | None => ret (mkJournal [])
  | Some f =>
    p <- openDB path ;;
    db_Query p loadJournalFromDB
  end.

(** *** Save *)

Fixpoint saveHistory (entryID : string) (records : list SaveRecord) (d : DB) : M DB :=
  match records with
  | [] => ret d
  | record :: rest =>
    if decide (count_history entryID (rec_SavedAt record) d = 0%nat)
    then d' <- exec (insert_history entryID record) (Ok d) ;;
         saveHistory entryID rest d'
    else saveHistory entryID rest d
  end.

Fixpoint saveEntries (es : list Entry) (d : DB) : M DB :=
  match es with
  | [] => ret d
  | entry :: rest =>
    d1 <- exec (insert_or_replace_entry
                  (mkEntryRow (ent_ID entry) (ent_Date entry) (ent_Content entry)
                     (ent_CreatedAt entry) (ent_UpdatedAt entry))) (Ok d) ;;
    d2 <- saveHistory (ent_ID entry) (ent_History entry) d1 ;;
    saveEntries rest d2
  end.

(** [saveJournalToDB]: one transaction.  The result is the committed
    state; on an error the deferred [tx.Rollback] leaves the database
    as it was, which is what the callers below keep. *)
Definition saveJournalToDB (c : Conn) (journal : Journal) : M DB :=
  d <- lift c ;;
  d' <- saveEntries (Entries journal) d ;;
  _ <- tick ;;
  ret d'.

Definition SaveJournal (journal : Journal) (path : string) : M unit :=
  p <- openDB path ;;
  _ <- db_Exec p initSchema ;;
  c <- db_conn p ;;
  d <- saveJournalToDB c journal ;;
  put_file p (SqliteFile d).

(** *** Entries, history rows and attachments, one at a time *)

(** [DeleteEntry]: three statements and the commit in one transaction. *)
Definition DeleteEntry (path entryID : string) : M unit :=
  p <- openDB path ;;
  c <- db_conn p ;;
  d1 <- exec (delete_history_of entryID) c ;;
  d2 <- exec (delete_attachments_of entryID) (Ok d1) ;;
  d3 <- exec (delete_entry entryID) (Ok d2) ;;
  _ <- tick ;;
  put_file p (SqliteFile d3).

Definition addHistoryRecordEncrypted (path entryID : string) (record : SaveRecord)
    (password : string) : M unit :=
  expandedPath <- ExpandPath path ;;
  encryptedData <- os_ReadFile expandedPath ;;
  decryptedData <- lift (decrypt encryptedData password) ;;
  let tmp := conn_of (Some (RawFile decryptedData)) in
  d1 <- exec initSchema tmp ;;
  d2 <- exec (insert_history entryID record) (Ok d1) ;;
  let sqliteData := sqlite_image d2 in
  encryptedData' <- encrypt sqliteData password ;;
  os_WriteFile expandedPath encryptedData'.

Definition AddHistoryRecord (path entryID : string) (record : SaveRecord)
    (password : string) : M unit :=
  if decide (password <> "") then addHistoryRecordEncrypted path entryID record password
  else
    p <- openDB path ;;
    _ <- db_Exec p initSchema ;;
    db_Exec p (insert_history entryID record).

Definition AddAttachment (path : string) (attachment : Attachment) : M unit :=
  p <- openDB path ;;
  _ <- db_Exec p initSchema ;;
  db_Exec p (insert_attachment attachment).

(** [SELECT ... FROM attachments WHERE id = ?] scanned into one
    attachment: [sql.ErrNoRows] when there is no such row. *)
Definition select_attachment (attachmentID : string) (c : Conn) : result Attachment :=
  match c with
  | Err e => Err e
  | Ok None => Err ErrNoSuchTable
  | Ok (Some t) =>
    match find (fun a => bool_decide (ar_id a = attachmentID)) (attachments t) with
    | Some a =>
      Ok (mkAttachment (ar_id a) (ar_entry_id a) (ar_filename a) (ar_mime_type a)
            (ar_size a) (ar_data a) (ar_created_at a))
    | None => Err ErrNoRows
    end
  end.

Definition GetAttachment (path attachmentID : string) : M Attachment :=
  p <- openDB path ;;
  db_Query p (select_attachment attachmentID).

Definition DeleteAttachment (path attachmentID : string) : M unit :=
  p <- openDB path ;;
  db_Exec p (delete_attachment attachmentID).

Definition ExportAttachment (dbPath attachmentID destPath : string) : M unit :=
  att <- GetAttachment dbPath attachmentID ;;
  expandedDest <- ExpandPath destPath ;;
  fs <- get_fs ;;
  let dest := match fs !! expandedDest with
              | Some Directory => filepath_Join expandedDest (att_Filename att)
              | _ => expandedDest
              end in
  os_WriteFile dest (att_Data att).

(** *** Encrypted stores: the whole database file is one blob.  The
    temporary file of each function lives only inside it (it is
    removed by a deferred [os.Remove]), so it is a local value here. *)

Definition LoadJournalEncrypted (path password : string) : M Journal :=
  expandedPath <- ExpandPath path ;;
  fs <- get_fs ;;
  match fs !! expandedPath with
  | None => ret (mkJournal [])
  | Some _ =>
    encryptedData <- os_ReadFile expandedPath ;;
    if decide (length encryptedData = 0%nat) then ret (mkJournal [])
    else
      decryptedData <- lift (decrypt encryptedData password) ;;
      lift (loadJournalFromDB (conn_of (Some (RawFile decryptedData))))
  end.

Definition SaveJournalEncrypted (journal : Journal) (path password : string) : M unit :=
  expandedPath <- ExpandPath path ;;
  let tmp : Conn := Ok None in
  d1 <- exec initSchema tmp ;;
  d2 <- saveJournalToDB (Ok d1) journal ;;
  let sqliteData := sqlite_image d2 in
  encryptedData <- encrypt sqliteData password ;;
  os_WriteFile expandedPath encryptedData.

Definition AddAttachmentEncrypted (path password : string) (attachment : Attachment) : M unit :=
  _ <- LoadJournalEncrypted path password ;;
  expandedPath <- ExpandPath path ;;
  fs <- get_fs ;;
  tmp <- (match fs !! expandedPath with
          | Some _ =>
            encryptedData <- os_ReadFile expandedPath ;;
            if decide (0 < length encryptedData)%nat then
              decryptedData <- lift (decrypt encryptedData password) ;;
              ret (conn_of (Some (RawFile decryptedData)))
            else ret (Ok None)
          | None => ret (Ok None)
          end) ;;
  d1 <- exec initSchema tmp ;;
  d2 <- exec (insert_attachment attachment) (Ok d1) ;;
  let sqliteData := sqlite_image d2 in
  encryptedData <- encrypt sqliteData password ;;
  os_WriteFile expandedPath encryptedData.

Definition CreateEmptyJournal (path : string) : M unit :=
  p <- openDB path ;;
  db_Exec p initSchema.

Definition CreateEmptyJournalEncrypted (path password : string) : M unit :=
  SaveJournalEncrypted (mkJournal []) path password.

Definition MigrateJournal (oldPath newPath : string) : M unit :=
  journal <- LoadJournal oldPath ;;
  SaveJournal journal newPath.

Definition MigrateJournalEncrypted (oldPath newPath password : string) : M unit :=
  journal <- LoadJournalEncrypted oldPath password ;;
  SaveJournalEncrypted journal newPath password.

End Storage.

(** ** The workflows that write history *)

Section Workflows.
Context {C : GoCrypto} {F : SqliteFormat}.

(** *** Adding an attachment ([AttachmentModel.addAttachment]) *)

(** The fields of [AttachmentModel] that [addAttachment] reads or
    writes; [am_entry] is the entry behind the pointer [m.entry]. *)
Record AttachmentModel := mkAttachmentModel {
  am_entry : Entry;
  am_dbPath : string;
  am_encrypted : bool;
  am_password : string;
  am_HistoryAdded : bool
}.

Definition withHistory (e : Entry) (h : list SaveRecord) (updatedAt : Time) : Entry :=
  mkEntry (ent_ID e) (ent_Date e) (ent_Content e) (ent_CreatedAt e) updatedAt h
    (ent_Attachments e).

Definition withAttachments (e : Entry) (a : list Attachment) : Entry :=
  mkEntry (ent_ID e) (ent_Date e) (ent_Content e) (ent_CreatedAt e) (ent_UpdatedAt e)
    (ent_History e) a.

Definition setEntry (m : AttachmentModel) (e : Entry) (historyAdded : bool) : AttachmentModel :=
  mkAttachmentModel e (am_dbPath m) (am_encrypted m) (am_password m) historyAdded.

(** [now] is [time.Now()], [newID] is [uuid.New().String()].  The
    method has a pointer receiver: the model comes back changed also
    when it returns an error. *)
Definition addAttachment (m : AttachmentModel) (path : string) (now : Time) (newID : string)
    : World -> (option error * AttachmentModel) * World :=
  fun w =>
  match ExpandPath path w with
  | (Err e, w1) => ((Some e, m), w1)
  | (Ok expandedPath, w1) =>
    match os_ReadFile expandedPath w1 with
    | (Err e, w2) => ((Some e, m), w2)
    | (Ok data, w2) =>
      let filename := filepath_Base expandedPath in
      let mimeType := DetectMimeType filename in
      let entry := am_entry m in
      let historyRecord :=
        mkSaveRecord (ent_Content entry) now (AttachmentFilenames entry) in
      let entry1 := withHistory entry (ent_History entry ++ [historyRecord]) now in
      let attachment :=
        mkAttachment newID (ent_ID entry) filename mimeType (Z.of_nat (length data)) data now in
      let write :=
        if am_encrypted m
        then AddAttachmentEncrypted (am_dbPath m) (am_password m) attachment
        else AddAttachment (am_dbPath m) attachment in
      match write w2 with
      | (Err e, w3) =>
        let h := ent_History entry1 in
        let entry2 := withHistory entry1 (take (length h - 1) h) (ent_UpdatedAt entry1) in
        ((Some e, setEntry m entry2 false), w3)
      | (Ok _, w3) =>
        let stored :=
          mkAttachment newID (ent_ID entry) filename mimeType (Z.of_nat (length data)) [] now in
        let entry2 := withAttachments entry1 (ent_Attachments entry1 ++ [stored]) in
        let m2 := setEntry m entry2 true in
        let save :=
          if am_encrypted m
          then AddHistoryRecord (am_dbPath m) (ent_ID entry) historyRecord (am_password m)
          else AddHistoryRecord (am_dbPath m) (ent_ID entry) historyRecord "" in
        match save w3 with
        | (Err e, w4) => ((Some e, m2), w4)
        | (Ok _, w4) => ((None, m2), w4)
        end
      end
    end
  end.

(** *** Saving from the editor ([App.Update], view [ViewEditor]) *)

Record EditorModel := mkEditorModel {
  ed_dateInput : string;           (* dateInput.Value() *)
  ed_contentArea : string;         (* contentArea.Value() *)
  ed_EditingEntry : option Entry;  (* nil for a new entry *)
  ed_Saved : bool;
  ed_Cancelled : bool;
  ed_Error : string
}.

Inductive ViewState :=
| ViewSelector | ViewSetup | ViewPassword | ViewList | ViewEditor | ViewSettings
| ViewDeleteConfirm | ViewHistory | ViewAttachments | ViewExport.

Record App := mkApp {
  app_config : Config;
  app_journal : Journal;
  app_activeJournal : option JournalDB;
  app_currentView : ViewState;
  app_password : string;
  app_editorModel : EditorModel;
  app_err : option error
}.

Definition GetDate (m : EditorModel) : string := ed_dateInput m.

Definition GetEntry (m : EditorModel) (now : Time) (newID : string) : Entry :=
  match ed_EditingEntry m with
  | Some editing =>
    mkEntry (ent_ID editing) (ed_dateInput m) (ed_contentArea m) (ent_CreatedAt editing) now [] []
  | None =>
    mkEntry newID (ed_dateInput m) (ed_contentArea m) now now [] []
  end.

(** The loop that looks for another entry with the new date. *)
Fixpoint duplicateDate (es : list Entry) (newDate : string) (editing : option Entry) : bool :=
  match es with
  | [] => false
  | e :: rest =>
    if decide (ent_Date e = newDate) then
      match editing with
      | Some ed =>
        if decide (ent_ID e = ent_ID ed) then duplicateDate rest newDate editing else true
      | None => true
      end
    else duplicateDate rest newDate editing
  end.

(** The history the saved entry gets from the stored entry [e]. *)
Definition historyOnSave (e entry : Entry) : list SaveRecord :=
  if decide (ent_Content e <> ent_Content entry)
  then ent_History e ++ [mkSaveRecord (ent_Content e) (ent_UpdatedAt e) (AttachmentFilenames e)]
  else ent_History e.

(** The loop that replaces the first entry with the id of [entry]. *)
Fixpoint replaceEntry (es : list Entry) (entry : Entry) : list Entry :=
  match es with
  | [] => []
  | e :: rest =>
    if decide (ent_ID e = ent_ID entry)
    then mkEntry (ent_ID entry) (ent_Date entry) (ent_Content entry) (ent_CreatedAt entry)
           (ent_UpdatedAt entry) (historyOnSave e entry) (ent_Attachments e) :: rest
    else e :: replaceEntry rest entry
  end.

(** [sortEntriesNewestFirst]; [sort.Slice] does not promise an order
    among entries of one date, this model keeps theirs. *)
Definition entry_before (a b : Entry) : bool := String.leb (ent_Date b) (ent_Date a).

Definition sortEntriesNewestFirst (journal : Journal) : Journal :=
  mkJournal (sort_desc entry_before (Entries journal)).

Definition saveJournal (a : App) : M unit :=
  let path := match app_activeJournal a with
              | Some j => jdb_Path j
              | None => cfg_ActiveJournal (app_config a)
              end in
  match app_activeJournal a with
  | Some j =>
    if jdb_Encrypted j then SaveJournalEncrypted (app_journal a) path (app_password a)
    else SaveJournal (app_journal a) path
  | None => SaveJournal (app_journal a) path
  end.

Definition setEditor (a : App) (ed : EditorModel) : App :=
  mkApp (app_config a) (app_journal a) (app_activeJournal a) (app_currentView a)
    (app_password a) ed (app_err a).

Definition setJournal (a : App) (j : Journal) : App :=
  mkApp (app_config a) j (app_activeJournal a) (app_currentView a)
    (app_password a) (app_editorModel a) (app_err a).

Definition setErr (a : App) (e : error) : App :=
  mkApp (app_config a) (app_journal a) (app_activeJournal a) (app_currentView a)
    (app_password a) (app_editorModel a) (Some e).

Definition setSaved (ed : EditorModel) (saved : bool) (err : string) : EditorModel :=
  mkEditorModel (ed_dateInput ed) (ed_contentArea ed) (ed_EditingEntry ed) saved
    (ed_Cancelled ed) err.

(** The journal after the editor's entry has been put into it. *)
Definition applyEdit (journal : Journal) (m : EditorModel) (now : Time) (newID : string)
    : Journal :=
  let entry := GetEntry m now newID in
  match ed_EditingEntry m with
  | Some _ => mkJournal (replaceEntry (Entries journal) entry)
  | None => mkJournal (Entries journal ++ [entry])
  end.

(** The branch of [App.Update] taken in [ViewEditor] once the editor
    reports [Saved]. *)
Definition updateEditorSaved (a : App) (now : Time) (newID : string) : World -> App * World :=
  fun w =>
  let m := app_editorModel a in
  let newDate := GetDate m in
  if duplicateDate (Entries (app_journal a)) newDate (ed_EditingEntry m) then
    (setEditor a (setSaved m false ("An entry for " ++ newDate ++ " already exists")%string), w)
  else
    let a1 := setJournal a (sortEntriesNewestFirst (applyEdit (app_journal a) m now newID)) in
    match saveJournal a1 w with
    | (Err e, w') => (setErr a1 e, w')
    | (Ok _, w') =>
      (mkApp (app_config a1) (app_journal a1) (app_activeJournal a1) ViewList
         (app_password a1) (setSaved m false (ed_Error m)) (app_err a1), w')
    end.

End Workflows.

(** ** A small instance of the two library interfaces

    It shows that the contracts [GoCryptoSpec] and [SqliteFormatSpec]
    can be met, and lets the encrypted paths run on concrete stores.
    The cipher keeps the plaintext and appends key and nonce as its
    tag; the file format is the bits of a number that encodes the
    tables. *)

#[global] Instance byte_countable : Countable byte :=
  inj_countable Byte.to_N Byte.of_N Byte.of_to_N.

#[global] Instance EntryRow_eq_dec : EqDecision EntryRow.
Proof. solve_decision. Defined.
#[global] Instance HistoryRow_eq_dec : EqDecision HistoryRow.
Proof. solve_decision. Defined.
#[global] Instance AttachmentRow_eq_dec : EqDecision AttachmentRow.
Proof. solve_decision. Defined.
#[global] Instance Tables_eq_dec : EqDecision Tables.
Proof. solve_decision. Defined.

#[global] Instance EntryRow_countable : Countable EntryRow.
Proof.
  refine (inj_countable'
    (fun r => (er_id r, er_date r, er_content r, er_created_at r, er_updated_at r))
    (fun '(a, b, c, d, e) => mkEntryRow a b c d e) _).
  by intros [].
Defined.

#[global] Instance HistoryRow_countable : Countable HistoryRow.
Proof.
  refine (inj_countable'
    (fun r => (hr_entry_id r, hr_content r, hr_saved_at r, hr_attachment_names r))
    (fun '(a, b, c, d) => mkHistoryRow a b c d) _).
  by intros [].
Defined.

#[global] Instance AttachmentRow_countable : Countable AttachmentRow.
Proof.
  refine (inj_countable'
    (fun r => (ar_id r, ar_entry_id r, ar_filename r, ar_mime_type r, ar_size r, ar_data r,
               ar_created_at r))
    (fun '(a, b, c, d, e, f, g) => mkAttachmentRow a b c d e f g) _).
  by intros [].
Defined.

#[global] Instance Tables_countable : Countable Tables.
Proof.
  refine (inj_countable'
    (fun t => (entries t, history t, attachments t))
    (fun '(a, b, c) => mkTables a b c) _).
  by intros [].
Defined.

Module Toy.

Definition pad32 (m : list byte) : list byte := take 32 (m ++ replicate 32 x00).

Definition seal (key nonce plaintext : list byte) : list byte :=
  plaintext ++ key ++ nonce.

Definition open (key nonce ciphertext : list byte) : option (list byte) :=
  let n := (length ciphertext - length (key ++ nonce))%nat in
  if decide (drop n ciphertext = key ++ nonce) then Some (take n ciphertext) else None.

Definition crypto : GoCrypto := Build_GoCrypto pad32 seal open.

Fixpoint bits (p : positive) : list byte :=
  match p with
  | xH => []
  | xO q => x00 :: bits q
  | xI q => x01 :: bits q
  end.

Fixpoint unbits (b : list byte) : positive :=
  match b with
  | [] => xH
  | c :: r => if decide (c = x00) then xO (unbits r) else xI (unbits r)
  end.

Definition format : SqliteFormat :=
  Build_SqliteFormat (fun d => bits (encode d)) (fun b => decode (unbits b)).

End Toy.

(** ** Orders in which a loaded journal is listed *)

(** [a] is listed before [b]: the date of [a] is not the smaller one
    in the byte order of strings. *)
Definition date_desc (a b : Entry) : Prop := String.leb (ent_Date b) (ent_Date a) = true.

Definition saved_desc (a b : SaveRecord) : Prop := rec_SavedAt b <= rec_SavedAt a.

(** ** The keys of the history table *)

(** The pairs (entry id, saved-at) of the history table. *)
Definition history_keys (t : Tables) : list (string * Time) :=
  map (fun h => (hr_entry_id h, hr_saved_at h)) (history t).

(** ** What a store file holds *)

Section StoreHolds.
Context {C : GoCrypto} {F : SqliteFormat}.

(** The file [f] is a store with tables [t]: a database file with
    the schema, or, encrypted, a blob that [password] opens to the
    bytes of such a file. *)
Definition store_holds (encrypted : bool) (password : string) (f : option File)
    (t : Tables) : Prop :=
  if encrypted then
    exists blob, f = Some (RawFile blob) /\ (0 < length blob)%nat /\
      decrypt blob password = Ok (sqlite_image (Some t))
  else f = Some (SqliteFile (Some t)).

(** The two writes of an unencrypted store in [AddAttachment] and
    [AddHistoryRecord], and of an encrypted one in
    [AddAttachmentEncrypted] and [addHistoryRecordEncrypted], from
    the temporary copy on: the shape they share. *)
Definition plain_write (p : string) (stmt : Stmt) : M unit :=
  _ <- db_Exec p initSchema ;;
  db_Exec p stmt.

Definition sealed_write (p password : string) (stmt : Stmt) (tmp : Conn) : M unit :=
  d1 <- exec initSchema tmp ;;
  d2 <- exec stmt (Ok d1) ;;
  let sqliteData := sqlite_image d2 in
  encryptedData <- encrypt sqliteData password ;;
  os_WriteFile p encryptedData.

End StoreHolds.

(** The world with file [f] at path [p]. *)
Definition with_file (w : World) (p : string) (f : File) : World :=
  mkWorld (<[p := f]> (w_fs w)) (w_home w) (w_rand w) (w_faults w).

(** ** A small store to run the operations on *)

Module Sample.

Definition path : string := "/journal.db".

Definition tables : Tables :=
  mkTables [mkEntryRow "X" "2024-01-01" "first" 1 1] [] [].

Definition world : World :=
  mkWorld {[ path := SqliteFile (Some tables) ]} None [] [].

Definition record : SaveRecord := mkSaveRecord "first" 7 ["a.txt"].

(** A second entry for the date of entry X. *)
Definition journalY : Journal :=
  mkJournal [mkEntry "Y" "2024-01-01" "second" 5 5 [] []].

(** Entry X as the front end holds it, and the application in the
    editor: editing X to a new content, and writing a new entry for
    the date of X. *)
Definition entryX : Entry := mkEntry "X" "2024-01-01" "first" 1 1 [] [].

Definition app (ed : EditorModel) : App :=
  mkApp (mkConfig "" false [mkJournalDB "journal" path false 0] path "default")
    (mkJournal [entryX]) (Some (mkJournalDB "journal" path false 0)) ViewEditor ""
    ed None.

Definition editX : EditorModel :=
  mkEditorModel "2024-01-01" "rewritten" (Some entryX) true false "".

Definition newSameDate : EditorModel :=
  mkEditorModel "2024-01-01" "second" None true false "".

(** A file to attach, and the attachment screen on entry X.  In
    [worldHistoryFails] the fourth write to the store fails: the two
    statements of [AddAttachment] and the schema statement of
    [AddHistoryRecord] go through, its insert does not. *)
Definition photo : string := "/photo.png".

Definition worldPhoto (faults : list bool) : World :=
  mkWorld {[ path := SqliteFile (Some tables); photo := RawFile [x89; x50; x4e; x47] ]}
    None [] faults.

Definition worldHistoryFails : World := worldPhoto [false; false; false; true].

Definition attachmentModel : AttachmentModel :=
  mkAttachmentModel entryX path false "" false.

Definition photoAttachment : Attachment :=
  mkAttachment "att-1" "X" "photo.png" "image/png" 4 [x89; x50; x4e; x47] 9.

(** An encrypted store with an attachment on its entry, sealed by the
    small cipher under the password "pw". *)
Definition pathA : string := "/a.enc".
Definition pathB : string := "/b.enc".

Definition tablesA : Tables :=
  mkTables [mkEntryRow "X" "2024-01-01" "first" 1 1]
    [mkHistoryRow "X" "draft" 1 ""]
    [mkAttachmentRow "att-0" "X" "note.txt" "text/plain" 2 [x68; x69] 3].

Definition nonceA : list byte := replicate 12 x2a.

Definition blobA : list byte :=
  nonceA ++ @gcm_Seal Toy.crypto (@deriveKey Toy.crypto "pw") nonceA
              (@sqlite_image Toy.format (Some tablesA)).

Definition worldA : World :=
  mkWorld {[ pathA := RawFile blobA ]} None (replicate 12 x07) [].

End Sample.

(** ** More of package storage *)

Section MoreStorage.
Context {C : GoCrypto} {F : SqliteFormat}.

(** The attachment a row of [attachments] scans into, payload included. *)
Definition attachment_of_row (a : AttachmentRow) : Attachment :=
  mkAttachment (ar_id a) (ar_entry_id a) (ar_filename a) (ar_mime_type a) (ar_size a)
    (ar_data a) (ar_created_at a).

(** [SELECT ... FROM attachments WHERE entry_id = ?], with the payload. *)
Definition select_entry_attachments (entryID : string) (c : Conn)
    : result (list Attachment) :=
  match c with
  | Err e => Err e
  | Ok None => Err ErrNoSuchTable
  | Ok (Some t) =>
    Ok (map attachment_of_row (filter (fun a => ar_entry_id a = entryID) (attachments t)))
  end.

Definition GetEntryAttachments (path entryID : string) : M (list Attachment) :=
  p <- openDB path ;;
  db_Query p (select_entry_attachments entryID).

Definition GetAttachmentEncrypted (path password attachmentID : string) : M Attachment :=
  expandedPath <- ExpandPath path ;;
  encryptedData <- os_ReadFile expandedPath ;;
  decryptedData <- lift (decrypt encryptedData password) ;;
  lift (select_attachment attachmentID (conn_of (Some (RawFile decryptedData)))).

Definition ExportAttachmentEncrypted (dbPath password attachmentID destPath : string)
    : M unit :=
  att <- GetAttachmentEncrypted dbPath password attachmentID ;;
  expandedDest <- ExpandPath destPath ;;
  fs <- get_fs ;;
  let dest := match fs !! expandedDest with
              | Some Directory => filepath_Join expandedDest (att_Filename att)
              | _ => expandedDest
              end in
  os_WriteFile dest (att_Data att).

Definition DeleteAttachmentEncrypted (path password attachmentID : string) : M unit :=
  expandedPath <- ExpandPath path ;;
  encryptedData <- os_ReadFile expandedPath ;;
  decryptedData <- lift (decrypt encryptedData password) ;;
  let tmp := conn_of (Some (RawFile decryptedData)) in
  d <- exec (delete_attachment attachmentID) tmp ;;
  let sqliteData := sqlite_image d in
  encryptedData' <- encrypt sqliteData password ;;
  os_WriteFile expandedPath encryptedData'.

End MoreStorage.

(** [MigrateConfigToNewFormat]: the config after the call and the
    value returned. *)
Definition MigrateConfigToNewFormat (config : Config) : Config * bool :=
  if decide (cfg_DatabasePath config <> "" /\ length (cfg_Journals config) = 0%nat)
  then (mkConfig "" false
          [mkJournalDB "Default Journal" (cfg_DatabasePath config) (cfg_Encrypted config) 0]
          (cfg_DatabasePath config) (cfg_Theme config), true)
  else (config, false).

(** [GetSortedJournals]: the two loops over a copy of the slice.
    [journals[j].LastOpened.After(journals[i].LastOpened)] is strict. *)
Definition swapIfAfter (journals : list JournalDB) (i j : nat) : list JournalDB :=
  match journals !! i, journals !! j with
  | Some a, Some b =>
    if decide (jdb_LastOpened a < jdb_LastOpened b)
    then <[i := b]> (<[j := a]> journals)
    else journals
  | _, _ => journals
  end.

(** The inner loop from [j], with [n] rounds left. *)
Fixpoint sortInner (n i j : nat) (journals : list JournalDB) : list JournalDB :=
  match n with
  | O => journals
  | S n' => sortInner n' i (S j) (swapIfAfter journals i j)
  end.

(** The outer loop from [i], with [n] rounds left. *)
Fixpoint sortOuter (n i : nat) (journals : list JournalDB) : list JournalDB :=
  match n with
  | O => journals
  | S n' => sortOuter n' (S i) (sortInner (length journals - S i) i (S i) journals)
  end.

Definition GetSortedJournals (config : Config) : list JournalDB :=
  sortOuter (length (cfg_Journals config) - 1) 0 (cfg_Journals config).

(** [Entry.Preview]; [None] is the panic of [content[:maxLen]] for a
    negative [maxLen].  Lengths are byte counts. *)
Definition Preview (e : Entry) (maxLen : Z) : option string :=
  let content := ent_Content e in
  if decide (maxLen < Z.of_nat (String.length content)) then
    if decide (maxLen < 0) then None
    else Some (substring 0 (Z.to_nat maxLen) content ++ "...")%string
  else Some content.

Definition AttachmentCount (e : Entry) : nat := length (ent_Attachments e).

(** ** More of the front end *)

Section MoreWorkflows.
Context {C : GoCrypto} {F : SqliteFormat}.

(** [AttachmentModel.deleteAttachment], with the [selectedIndex] of
    the model. *)
Definition deleteAttachment (m : AttachmentModel) (selectedIndex : nat)
    : World -> (option error * AttachmentModel) * World :=
  fun w =>
  match ent_Attachments (am_entry m) !! selectedIndex with
  | None => ((None, m), w)
  | Some att =>
    let delete :=
      if am_encrypted m
      then DeleteAttachmentEncrypted (am_dbPath m) (am_password m) (att_ID att)
      else DeleteAttachment (am_dbPath m) (att_ID att) in
    match delete w with
    | (Err e, w') => ((Some e, m), w')
    | (Ok _, w') =>
      let l := ent_Attachments (am_entry m) in
      ((None,
        setEntry m (withAttachments (am_entry m)
                      (take selectedIndex l ++ drop (S selectedIndex) l))
          (am_HistoryAdded m)), w')
    end
  end.

End MoreWorkflows.

(** [ListModel]: the list of entries and its cursor.  Go's [int]
    fields are integers here; the arithmetic of [Update] and
    [adjustScroll] stays far from the bounds of [int]. *)
Inductive ListAction :=
| ActionNone | ActionNewEntry | ActionEditEntry | ActionDeleteEntry | ActionViewHistory
| ActionViewAttachments | ActionSettings | ActionQuit.

Record ListModel := mkListModel {
  lm_journal : Journal;
  lm_SelectedIndex : Z;
  lm_Action : ListAction;
  lm_width : Z;
  lm_height : Z;
  lm_offset : Z
}.

Definition NewListModel (journal : Journal) : ListModel :=
  mkListModel journal 0 ActionNone 0 0 0.

(** [today] is [time.Now().Format("2006-01-02")]. *)
Definition hasTodayEntry (m : ListModel) (today : string) : bool :=
  existsb (fun e => bool_decide (ent_Date e = today)) (Entries (lm_journal m)).

Definition visibleLines (m : ListModel) : Z :=
  if decide (lm_height m - 8 < 1) then 10 else lm_height m - 8.

Definition adjustScroll (m : ListModel) : ListModel :=
  let offset :=
    if decide (lm_SelectedIndex m < lm_offset m) then lm_SelectedIndex m
    else if decide (lm_offset m + visibleLines m <= lm_SelectedIndex m)
         then lm_SelectedIndex m - visibleLines m + 1
         else lm_offset m in
  mkListModel (lm_journal m) (lm_SelectedIndex m) (lm_Action m) (lm_width m) (lm_height m)
    offset.

Definition setSelected (m : ListModel) (i : Z) : ListModel :=
  mkListModel (lm_journal m) i (lm_Action m) (lm_width m) (lm_height m) (lm_offset m).

Definition setAction (m : ListModel) (a : ListAction) : ListModel :=
  mkListModel (lm_journal m) (lm_SelectedIndex m) a (lm_width m) (lm_height m) (lm_offset m).

(** [ListModel.Update] on a key message; [key] is [msg.String()]. *)
Definition ListModel_Update (m : ListModel) (key today : string) : ListModel :=
  let n := Z.of_nat (length (Entries (lm_journal m))) in
  if decide (key = "up" \/ key = "k") then
    if decide (0 < lm_SelectedIndex m)
    then adjustScroll (setSelected m (lm_SelectedIndex m - 1)) else m
  else if decide (key = "down" \/ key = "j") then
    if decide (lm_SelectedIndex m < n - 1)
    then adjustScroll (setSelected m (lm_SelectedIndex m + 1)) else m
  else if decide (key = "enter") then
    if decide (0 < n) then setAction m ActionEditEntry else m
  else if decide (key = "n") then
    if hasTodayEntry m today then m else setAction m ActionNewEntry
  else if decide (key = "d") then
    if decide (0 < n) then setAction m ActionDeleteEntry else m
  else if decide (key = "h") then
    if decide (0 < n) then setAction m ActionViewHistory else m
  else if decide (key = "a") then
    if decide (0 < n) then setAction m ActionViewAttachments else m
  else if decide (key = "s") then setAction m ActionSettings
  else if decide (key = "q") then setAction m ActionQuit
  else m.

(** ** What the properties below speak of *)

(** The row [saveJournalToDB] writes for an entry. *)
Definition entry_row (e : Entry) : EntryRow :=
  mkEntryRow (ent_ID e) (ent_Date e) (ent_Content e) (ent_CreatedAt e) (ent_UpdatedAt e).

Definition record_before (a b : SaveRecord) : bool := Z.leb (rec_SavedAt b) (rec_SavedAt a).

(** An entry as a load gives it back: its history newest first, and
    no attachment list (attachments are stored on their own). *)
Definition as_loaded (e : Entry) : Entry :=
  mkEntry (ent_ID e) (ent_Date e) (ent_Content e) (ent_CreatedAt e) (ent_UpdatedAt e)
    (sort_desc record_before (ent_History e)) [].

(** File names that the [|]-joined column gives back as they were:
    none holds a bar, and the list is not the one empty name. *)
Definition names_ok (names : list string) : Prop :=
  (forall n, n ∈ names -> "|"%char ∉ list_ascii_of_string n) /\ names <> [""].

(** A journal whose save and load is a round trip: ids and dates are
    each unique, the records of an entry have different save times
    and file names that survive the join. *)
Definition journal_ok (journal : Journal) : Prop :=
  NoDup (map ent_ID (Entries journal)) /\
  NoDup (map ent_Date (Entries journal)) /\
  forall e, e ∈ Entries journal ->
    NoDup (map rec_SavedAt (ent_History e)) /\
    forall r, r ∈ ent_History e -> names_ok (rec_Attachments r).

(** The tables a save into an empty database leaves. *)
Definition saved_tables (journal : Journal) : Tables :=
  mkTables (map entry_row (Entries journal))
    (concat (map (fun e => map (history_row (ent_ID e)) (ent_History e)) (Entries journal)))
    [].

(** An attachment as a listing shows it: without the payload. *)
Definition metadata (a : Attachment) : Attachment :=
  mkAttachment (att_ID a) (att_EntryID a) (att_Filename a) (att_MimeType a) (att_Size a) []
    (att_CreatedAt a).

(** While the inner loop of [GetSortedJournals] runs for the slot
    [0], that slot holds a journal opened no earlier than those in
    the slots already passed. *)
Definition head_latest (j : nat) (journals : list JournalDB) : Prop :=
  forall k x y, (0 < k < j)%nat -> journals !! 0%nat = Some x -> journals !! k = Some y ->
    jdb_LastOpened y <= jdb_LastOpened x.

Definition opened_before (a b : JournalDB) : Prop := jdb_LastOpened b <= jdb_LastOpened a.

(** The cursor of the list is on an entry (or at 0 in an empty list)
    and inside the window of visible lines. *)
Definition cursor_ok (m : ListModel) : Prop :=
  0 <= lm_SelectedIndex m /\
  lm_SelectedIndex m <= Z.max 0 (Z.of_nat (length (Entries (lm_journal m))) - 1) /\
  lm_offset m <= lm_SelectedIndex m < lm_offset m + visibleLines m.


Section DeleteConfirm.
Context {C : GoCrypto} {F : SqliteFormat}.

Definition setView (a : App) (v : ViewState) : App :=
  mkApp (app_config a) (app_journal a) (app_activeJournal a) v
    (app_password a) (app_editorModel a) (app_err a).

(** The branch of [App.Update] taken in [ViewDeleteConfirm] on a key;
    [selectedIndex] is [a.listModel.SelectedIndex].  [None] is the
    nil-pointer panic of [a.activeJournal.Encrypted] when no journal
    is active.  What the store answers is dropped, as in the code. *)
Definition updateDeleteConfirm (a : App) (key : string) (selectedIndex : Z)
    : World -> option (App * World) :=
  fun w =>
  if decide (key = "y" \/ key = "Y") then
    let es := Entries (app_journal a) in
    if decide (0 <= selectedIndex /\ selectedIndex < Z.of_nat (length es)) then
      let i := Z.to_nat selectedIndex in
      match es !! i with
      | None => Some (setView a ViewList, w)
      | Some e =>
        let entryID := ent_ID e in
        let a1 := setJournal a (mkJournal (take i es ++ drop (S i) es)) in
        match app_activeJournal a1 with
        | None => None
        | Some j =>
          let w' := if jdb_Encrypted j then (saveJournal a1 w).2
                    else (DeleteEntry (jdb_Path j) entryID w).2 in
          Some (setView a1 ViewList, w')
        end
      end
    else Some (setView a ViewList, w)
  else if decide (key = "n" \/ key = "N" \/ key = "esc") then Some (setView a ViewList, w)
  else Some (a, w).

End DeleteConfirm.

(** ** More sample data *)

Module Fixture.

(** A world with no file, and one with twelve random bytes at hand. *)
Definition empty : World := mkWorld ∅ None [] [].
Definition emptyR : World := mkWorld ∅ None (replicate 12 x07) [].

(** A journal of two entries, the older one with a record. *)
Definition entryY : Entry := mkEntry "Y" "2024-02-01" "second" 2 2 [] [].

Definition journal : Journal :=
  mkJournal [mkEntry "X" "2024-01-01" "first" 1 1 [mkSaveRecord "draft" 1 ["a.txt"]] [];
             entryY].

(** The tables of [Sample.tablesA] in a database file. *)
Definition pathP : string := "/p.db".

Definition worldP : World :=
  mkWorld {[ pathP := SqliteFile (Some Sample.tablesA) ]} None [] [].

Definition note : Attachment :=
  mkAttachment "att-0" "X" "note.txt" "text/plain" 2 [] 3.

(** The attachment screen on entry X with its note. *)
Definition screen : AttachmentModel :=
  mkAttachmentModel (mkEntry "X" "2024-01-01" "first" 1 1 [] [note]) pathP false "" false.

(** A blob too short to hold a nonce. *)
Definition pathS : string := "/short.enc".

Definition worldS : World := mkWorld {[ pathS := RawFile [x01; x02] ]} None [] [].

(** Two registered journals, the second opened earlier. *)
Definition config : Config :=
  mkConfig "" false
    [mkJournalDB "a" "/a.db" false 5; mkJournalDB "b" "/b.db" false 3] "/a.db" "default".

(** The list on [journal], and the application on the encrypted
    store of [Sample.worldA]. *)
Definition list : ListModel := NewListModel (mkJournal [entryY; Sample.entryX]).

Definition appA : App :=
  mkApp (mkConfig "" false [mkJournalDB "a" Sample.pathA true 0] Sample.pathA "default")
    (mkJournal [entryY; Sample.entryX]) (Some (mkJournalDB "a" Sample.pathA true 0))
    ViewDeleteConfirm "pw" Sample.editX None.

End Fixture.

(** * Properties *)

Lemma toy_crypto_spec : GoCryptoSpec Toy.crypto.
Proof.
  split.
  - intros m. cbn. unfold Toy.pad32.
    rewrite length_take, length_app, length_replicate. lia.
  - intros key nonce plaintext. cbn. unfold Toy.open, Toy.seal.
    rewrite !length_app.
    replace (length plaintext + (length key + length nonce) - (length key + length nonce))%nat
      with (length plaintext) by lia.
    rewrite drop_app_length, take_app_length.
    by rewrite decide_True.
Qed.

Lemma toy_unbits_bits p : Toy.unbits (Toy.bits p) = p.
Proof. induction p; cbn; by rewrite ?IHp. Qed.

Lemma toy_format_spec : SqliteFormatSpec Toy.format.
Proof.
  split. intros d. cbn. rewrite toy_unbits_bits. apply decode_encode.
Qed.

(** ** Encryption envelope *)

Section EnvelopeFacts.
Context {C : GoCrypto} {CS : GoCryptoSpec C}.

Lemma NewCipher_deriveKey password : aes_NewCipher (deriveKey password) = Ok tt.
Proof.
  unfold aes_NewCipher, deriveKey. rewrite Sum256_length.
  by rewrite decide_True by (right; right; reflexivity).
Qed.

(** With twelve random bytes at hand [encrypt] returns nonce and
    sealed data, and consumes the bytes. *)
Lemma encrypt_ok data password w :
  (NonceSize <= length (w_rand w))%nat ->
  encrypt data password w =
    (Ok (take NonceSize (w_rand w)
         ++ gcm_Seal (deriveKey password) (take NonceSize (w_rand w)) data),
     mkWorld (w_fs w) (w_home w) (drop NonceSize (w_rand w)) (w_faults w)).
Proof.
  intros Hr. unfold encrypt, bind, lift, ret, rand_ReadFull.
  rewrite NewCipher_deriveKey. by rewrite decide_True.
Qed.

(** Whatever [encrypt] returns starts with a nonce of full length. *)
Lemma encrypt_inv data password w blob w' :
  encrypt data password w = (Ok blob, w') ->
  exists nonce, length nonce = NonceSize /\
    blob = nonce ++ gcm_Seal (deriveKey password) nonce data /\
    w_fs w' = w_fs w /\ w_faults w' = w_faults w /\ w_home w' = w_home w.
Proof.
  unfold encrypt, bind, lift, ret, rand_ReadFull.
  rewrite NewCipher_deriveKey. case_decide; [|discriminate].
  intros [= <- <-]. eexists; split; [|done].
  rewrite length_take. lia.
Qed.

Lemma decrypt_sealed nonce data password :
  length nonce = NonceSize ->
  decrypt (nonce ++ gcm_Seal (deriveKey password) nonce data) password = Ok data.
Proof.
  intros Hn. unfold decrypt. rewrite NewCipher_deriveKey.
  rewrite decide_False by (rewrite length_app; lia).
  rewrite <- Hn, take_app_length, drop_app_length.
  by rewrite Open_Seal.
Qed.

(** C1. Decrypting what [encrypt] returned for plaintext [P] under
    password [K], with the same password, gives exactly [P]; and
    [encrypt] does return a blob whenever the random source yields the
    twelve bytes of a nonce. *)
Theorem decrypt_encrypt_roundtrip (P : list byte) (K : string) (w : World) :
  (forall blob w', encrypt P K w = (Ok blob, w') -> decrypt blob K = Ok P) /\
  ((NonceSize <= length (w_rand w))%nat ->
   exists blob w', encrypt P K w = (Ok blob, w') /\ decrypt blob K = Ok P).
Proof.
  split.
  - intros blob w' He. apply encrypt_inv in He as (nonce & Hn & -> & _).
    by apply decrypt_sealed.
  - intros Hr. eexists _, _. split; [by apply encrypt_ok|].
    apply decrypt_sealed. rewrite length_take. lia.
Qed.


End EnvelopeFacts.

Lemma decrypt_encrypt_roundtrip_witness :
  exists blob w',
    @encrypt Toy.crypto [x01; x02; x03] "secret"
      (mkWorld ∅ None (replicate 12 x07) []) = (Ok blob, w') /\
    @decrypt Toy.crypto blob "secret" = Ok [x01; x02; x03].
Proof.
  apply (@decrypt_encrypt_roundtrip Toy.crypto toy_crypto_spec
           [x01; x02; x03] "secret" (mkWorld ∅ None (replicate 12 x07) [])).
  cbn. unfold NonceSize. lia.
Defined.


(** ** Journal registry *)

Lemma findFrom_spec path journals : forall i,
  match findFrom i journals path with
  | Some k =>
    exists n j, k = (i + n)%nat /\ journals !! n = Some j /\ jdb_Path j = path /\
      forall m j', (m < n)%nat -> journals !! m = Some j' -> jdb_Path j' <> path
  | None => forall j, j ∈ journals -> jdb_Path j <> path
  end.
Proof.
  induction journals as [|j0 rest IH]; intros i; cbn.
  - intros j Hj. by apply elem_of_nil in Hj.
  - case_decide as Hp.
    + exists 0%nat, j0. repeat split; [lia|done|]. intros m j' Hm. lia.
    + specialize (IH (S i)). destruct (findFrom (S i) rest path) as [k|].
      * destruct IH as (n & j & -> & Hl & Hj & Hmin).
        exists (S n), j. repeat split; [lia|done|done|].
        intros [|m] j' Hm; cbn; [by intros [= <-]|]. apply Hmin. lia.
      * intros j [->|Hj]%elem_of_cons; [done|by apply IH].
Qed.

Lemma updateFirst_spec path t journals : forall i,
  updateFirst journals path t =
    match findFrom i journals path with
    | Some k => alter (setLastOpened t) (k - i)%nat journals
    | None => journals
    end.
Proof.
  induction journals as [|j0 rest IH]; intros i; cbn; [done|].
  case_decide as Hp.
  - by rewrite Nat.sub_diag.
  - rewrite (IH (S i)).
    pose proof (findFrom_spec path rest (S i)) as Hs.
    destruct (findFrom (S i) rest path) as [k|]; [|done].
    destruct Hs as (n & _ & -> & _).
    replace (S i + n - i)%nat with (S n) by lia.
    replace (S i + n - S i)%nat with n by lia. done.
Qed.

(** C10. [FindJournal] returns the first descriptor, in list order,
    whose path is [P], and nil when there is none.  [AddJournal]
    appends without looking at the paths already there, so two
    descriptors can share a path; [FindJournal] and
    [UpdateJournalLastOpened] then act on the earlier one only. *)
Theorem FindJournal_first_match (config : Config) (P : string) :
  match FindJournal config P with
  | Some i =>
    exists j, cfg_Journals config !! i = Some j /\ jdb_Path j = P /\
      forall k j', (k < i)%nat -> cfg_Journals config !! k = Some j' -> jdb_Path j' <> P
  | None => forall j, j ∈ cfg_Journals config -> jdb_Path j <> P
  end /\
  (forall name encrypted,
     cfg_Journals (AddJournal config name P encrypted) =
       cfg_Journals config ++ [mkJournalDB name P encrypted 0]) /\
  (forall t,
     cfg_Journals (UpdateJournalLastOpened config P t) =
       match FindJournal config P with
       | Some i => alter (setLastOpened t) i (cfg_Journals config)
       | None => cfg_Journals config
       end) /\
  (forall name1 enc1 name2 enc2 t,
     (forall j, j ∈ cfg_Journals config -> jdb_Path j <> P) ->
     let config2 := AddJournal (AddJournal config name1 P enc1) name2 P enc2 in
     FindJournal config2 P = Some (length (cfg_Journals config)) /\
     cfg_Journals (UpdateJournalLastOpened config2 P t) =
       cfg_Journals config ++ [mkJournalDB name1 P enc1 t; mkJournalDB name2 P enc2 0]).
Proof.
  split; [|split; [|split]].
  - unfold FindJournal. pose proof (findFrom_spec P (cfg_Journals config) 0%nat) as Hs.
    destruct (findFrom _ _ _) as [k|]; [|done].
    destruct Hs as (n & j & -> & ? & ? & ?). by exists j.
  - done.
  - intros t. unfold UpdateJournalLastOpened, FindJournal. cbn.
    rewrite (updateFirst_spec P t _ 0%nat).
    destruct (findFrom _ _ _); [|done]. by rewrite Nat.sub_0_r.
  - intros name1 enc1 name2 enc2 t Hno config2.
    assert (Hfind : forall l i, (forall j, j ∈ l -> jdb_Path j <> P) ->
              forall rest j, jdb_Path j = P ->
              findFrom i (l ++ j :: rest) P = Some (i + length l)%nat).
    { induction l as [|a l IH]; intros i Hl rest j Hj; cbn.
      - rewrite decide_True by done. f_equal. lia.
      - rewrite decide_False by (apply Hl; left).
        rewrite IH; [f_equal; lia| |done]. intros j' Hj'. apply Hl. by right. }
    assert (Hf : FindJournal config2 P = Some (length (cfg_Journals config))).
    { unfold FindJournal, config2. cbn. rewrite <- app_assoc. cbn.
      by rewrite Hfind. }
    split; [done|].
    unfold UpdateJournalLastOpened. cbn.
    rewrite (updateFirst_spec P t _ 0%nat).
    unfold FindJournal in Hf. cbn in Hf. rewrite Hf.
    rewrite Nat.sub_0_r, <- app_assoc. cbn.
    rewrite alter_app_r_alt by lia. by rewrite Nat.sub_diag.
Qed.

(** ** Sorting *)

Section Sorting.
Context {A : Type} (before : A -> A -> bool).
Hypothesis before_total : forall a b, before a b = true \/ before b a = true.
Hypothesis before_trans : forall a b c,
  before a b = true -> before b c = true -> before a c = true.

Lemma insert_desc_perm x l : insert_desc before x l ≡ₚ x :: l.
Proof.
  induction l as [|y l IH]; cbn; [done|].
  destruct (before x y); [done|]. rewrite IH. apply Permutation_swap.
Qed.

Lemma sort_desc_perm l : sort_desc before l ≡ₚ l.
Proof.
  induction l as [|x l IH]; cbn; [done|].
  rewrite insert_desc_perm. by constructor.
Qed.

Lemma insert_desc_sorted x l :
  StronglySorted (fun a b => before a b = true) l ->
  StronglySorted (fun a b => before a b = true) (insert_desc before x l).
Proof.
  induction l as [|y l IH]; cbn; intros Hs.
  - repeat constructor.
  - apply StronglySorted_cons in Hs as [Hy Hl].
    destruct (before x y) eqn:Hxy.
    + apply StronglySorted_cons. split; [|by apply StronglySorted_cons].
      constructor; [done|]. eapply Forall_impl; [exact Hy|].
      intros z Hz. by eapply before_trans.
    + apply StronglySorted_cons. split; [|by apply IH].
      rewrite insert_desc_perm. constructor; [|done].
      destruct (before_total x y); congruence.
Qed.

Lemma sort_desc_sorted l :
  StronglySorted (fun a b => before a b = true) (sort_desc before l).
Proof.
  induction l as [|x l IH]; cbn; [constructor|]. by apply insert_desc_sorted.
Qed.

End Sorting.

Lemma StronglySorted_map {A B} (R : B -> B -> Prop) (f : A -> B) l :
  StronglySorted (fun a b => R (f a) (f b)) l -> StronglySorted R (map f l).
Proof.
  induction 1 as [|x l Hl IH Hx]; cbn; constructor; [done|].
  by apply Forall_fmap.
Qed.

Lemma StronglySorted_weaken {A} (R1 R2 : A -> A -> Prop) l :
  (forall a b, R1 a b -> R2 a b) -> StronglySorted R1 l -> StronglySorted R2 l.
Proof.
  intros HR. induction 1 as [|x l Hl IH Hx]; constructor; [done|].
  eapply Forall_impl; [exact Hx|]. intros b. apply HR.
Qed.

Lemma ascii_compare_N (a b : ascii) :
  Ascii.compare a b = N.compare (N_of_ascii a) (N_of_ascii b).
Proof. reflexivity. Qed.


(** The byte order of strings is transitive. *)
Lemma string_leb_trans (a b c : string) :
  String.leb a b = true -> String.leb b c = true -> String.leb a c = true.
Proof.
  unfold String.leb. revert b c.
  induction a as [|x a IH]; intros [|y b] [|z c]; cbn; try done.
  rewrite !ascii_compare_N.
  destruct (N.compare_spec (N_of_ascii x) (N_of_ascii y)) as [Hxy|Hxy|Hxy];
    destruct (N.compare_spec (N_of_ascii y) (N_of_ascii z)) as [Hyz|Hyz|Hyz];
    try done; intros H1 H2.
  - rewrite Hxy, Hyz, N.compare_refl. by apply (IH b c).
  - rewrite Hxy. by apply N.compare_lt_iff in Hyz as ->.
  - rewrite <- Hyz. by apply N.compare_lt_iff in Hxy as ->.
  - assert (N_of_ascii x < N_of_ascii z)%N as Hxz by lia.
    by apply N.compare_lt_iff in Hxz as ->.
Qed.

Lemma string_leb_total (a b : string) : String.leb a b = true \/ String.leb b a = true.
Proof. apply String.leb_total. Qed.

(** ** Load *)


Section LoadFacts.
Context {F : SqliteFormat}.

Lemma history_of_sorted t entryID : StronglySorted saved_desc (history_of t entryID).
Proof.
  unfold history_of. apply StronglySorted_map. cbn.
  eapply (StronglySorted_weaken (fun a b => saved_before a b = true)).
  - intros a b. unfold saved_before, saved_desc. by rewrite Z.leb_le.
  - apply sort_desc_sorted.
    + intros a b. unfold saved_before. rewrite !Z.leb_le. lia.
    + intros a b c. unfold saved_before. rewrite !Z.leb_le. lia.
Qed.

Lemma attachments_of_no_data t entryID a :
  a ∈ attachments_of t entryID -> att_Data a = [].
Proof.
  unfold attachments_of. intros (r & -> & _)%list_elem_of_fmap. done.
Qed.

Lemma loadJournalFromDB_ordered (c : Conn) :
  exists journal,
    loadJournalFromDB c = Ok journal /\
    StronglySorted date_desc (Entries journal) /\
    forall e, e ∈ Entries journal ->
      StronglySorted saved_desc (ent_History e) /\
      forall a, a ∈ ent_Attachments e -> att_Data a = [].
Proof.
  destruct c as [[t|]|err]; cbn.
  2,3: eexists; split; [done|]; cbn; split; [constructor|];
       intros e He; by apply elem_of_nil in He.
  eexists; split; [done|]. cbn. split.
  - apply StronglySorted_map. cbn.
    eapply (StronglySorted_weaken (fun a b => date_before a b = true)); [done|].
    apply sort_desc_sorted.
    + intros a b. apply string_leb_total.
    + intros a b c' H1 H2. unfold date_before in *. by eapply string_leb_trans.
  - intros e (r & -> & _)%list_elem_of_fmap. cbn. split.
    + apply history_of_sorted.
    + apply attachments_of_no_data.
Qed.



End LoadFacts.


(** ** Saving from the editor *)

Lemma replaceEntry_spec entry es : forall i e,
  es !! i = Some e ->
  ent_ID e = ent_ID entry ->
  (forall k e', (k < i)%nat -> es !! k = Some e' -> ent_ID e' <> ent_ID entry) ->
  replaceEntry es entry =
    <[i := mkEntry (ent_ID entry) (ent_Date entry) (ent_Content entry) (ent_CreatedAt entry)
             (ent_UpdatedAt entry) (historyOnSave e entry) (ent_Attachments e)]> es.
Proof.
  induction es as [|e0 es IH]; intros i e Hi Hid Hmin; [done|].
  destruct i as [|i]; cbn in *.
  - injection Hi as ->. by rewrite decide_True.
  - rewrite decide_False by (apply (Hmin 0%nat); [lia|done]).
    f_equal. apply IH; [done|done|].
    intros k e' Hk. apply (Hmin (S k)). lia.
Qed.

Lemma duplicateDate_true es newDate editing e :
  e ∈ es ->
  ent_Date e = newDate ->
  (forall ed, editing = Some ed -> ent_ID ed <> ent_ID e) ->
  duplicateDate es newDate editing = true.
Proof.
  intros Hin Hd Hed. induction es as [|e0 es IH]; [by apply elem_of_nil in Hin|].
  cbn. apply elem_of_cons in Hin as [<-|Hin].
  - rewrite decide_True by done. destruct editing as [ed|]; [|done].
    rewrite decide_False; [done|]. intros Heq. by apply (Hed ed).
  - case_decide; [|by apply IH]. destruct editing as [ed|]; [|done].
    case_decide; [by apply IH|done].
Qed.

Section EditorFacts.
Context {C : GoCrypto} {F : SqliteFormat}.

Lemma updateEditorSaved_journal a now newID w :
  duplicateDate (Entries (app_journal a)) (GetDate (app_editorModel a))
    (ed_EditingEntry (app_editorModel a)) = false ->
  app_journal (updateEditorSaved a now newID w).1 =
    sortEntriesNewestFirst (applyEdit (app_journal a) (app_editorModel a) now newID).
Proof.
  intros Hd. unfold updateEditorSaved. rewrite Hd.
  by destruct (saveJournal _ w) as [[[]|err] w'].
Qed.

(** C7. Saving an existing entry from the editor: when the new
    content differs from the stored one, the entry gets exactly one
    more [SaveRecord], holding the previous content, the previous
    [UpdatedAt] and the previous attachment file names; when the
    content is the same, its history is the one it had.  The other
    entries of the journal are the ones it had. *)
Theorem editor_save_history (a : App) (now : Time) (newID : string) (w : World)
    (i : nat) (e : Entry) :
  Entries (app_journal a) !! i = Some e ->
  ed_EditingEntry (app_editorModel a) = Some e ->
  (forall k e', (k < i)%nat -> Entries (app_journal a) !! k = Some e' ->
     ent_ID e' <> ent_ID e) ->
  duplicateDate (Entries (app_journal a)) (GetDate (app_editorModel a))
    (ed_EditingEntry (app_editorModel a)) = false ->
  exists e',
    Entries (app_journal (updateEditorSaved a now newID w).1)
      ≡ₚ <[i := e']> (Entries (app_journal a)) /\
    ent_ID e' = ent_ID e /\
    ent_Content e' = ed_contentArea (app_editorModel a) /\
    ent_Attachments e' = ent_Attachments e /\
    (ent_Content e <> ed_contentArea (app_editorModel a) ->
     ent_History e' =
       ent_History e ++
       [mkSaveRecord (ent_Content e) (ent_UpdatedAt e) (AttachmentFilenames e)]) /\
    (ent_Content e = ed_contentArea (app_editorModel a) ->
     ent_History e' = ent_History e).
Proof.
  intros Hi Hed Hmin Hdup.
  rewrite updateEditorSaved_journal by done.
  unfold sortEntriesNewestFirst, applyEdit, GetEntry. rewrite Hed. cbn [Entries].
  eexists. split.
  - rewrite sort_desc_perm. erewrite replaceEntry_spec; [reflexivity|done|done|done].
  - cbn. unfold historyOnSave. cbn. repeat split.
    + intros Hne. by rewrite decide_True.
    + intros Heq. by rewrite decide_False by (intros Hne; by apply Hne).
Qed.

(** C5, as the code has it. Saving from the editor an entry whose
    date is the date of an entry of the journal with another id (a
    new entry, or an edited entry with a different id) is rejected:
    the editor gets the error text and is no longer [Saved], and
    neither the journal nor the world changes. *)
Theorem editor_save_rejects_duplicate_date (a : App) (now : Time) (newID : string)
    (w : World) (e : Entry) :
  e ∈ Entries (app_journal a) ->
  ent_Date e = GetDate (app_editorModel a) ->
  (forall ed, ed_EditingEntry (app_editorModel a) = Some ed -> ent_ID ed <> ent_ID e) ->
  updateEditorSaved a now newID w =
    (setEditor a
       (setSaved (app_editorModel a) false
          ("An entry for " ++ GetDate (app_editorModel a) ++ " already exists")%string),
     w).
Proof.
  intros Hin Hd Hed. unfold updateEditorSaved.
  by erewrite duplicateDate_true.
Qed.

End EditorFacts.

(** ** Statements and transactions *)

Lemma tick_no_fault w : w_faults w = [] -> tick w = (Ok tt, w).
Proof. unfold tick. by intros ->. Qed.

Lemma tick_fs r w w' : tick w = (r, w') -> w_fs w' = w_fs w /\ w_home w' = w_home w.
Proof.
  unfold tick. destruct (w_faults w) as [|[] fs]; by intros [= <- <-].
Qed.

Lemma exec_inv stmt c w d' w' :
  exec stmt c w = (Ok d', w') ->
  exists d, c = Ok d /\ stmt d = Ok d' /\ tick w = (Ok tt, w').
Proof.
  unfold exec, bind, lift. destruct (tick w) as [[[]|e] w1]; [|discriminate].
  destruct c as [d|e]; [|discriminate].
  destruct (stmt d) eqn:Hs; [|discriminate]. intros [= <- <-]. by exists d.
Qed.

Lemma exec_fs stmt c w r w' :
  exec stmt c w = (r, w') -> w_fs w' = w_fs w /\ w_home w' = w_home w.
Proof.
  unfold exec, bind, lift. destruct (tick w) as [[[]|e] w1] eqn:Ht.
  - apply tick_fs in Ht. destruct c as [d|e]; [destruct (stmt d)|]; by intros [= <- <-].
  - apply tick_fs in Ht. by intros [= <- <-].
Qed.

Lemma exec_no_fault stmt d w : w_faults w = [] -> exec stmt (Ok d) w = (stmt d, w).
Proof.
  intros Hf. unfold exec, bind, lift. rewrite tick_no_fault by done.
  by destruct (stmt d).
Qed.

#[global] Arguments count_history : simpl never.

Lemma count_history_zero entryID savedAt t :
  count_history entryID savedAt (Some t) = 0%nat <-> (entryID, savedAt) ∉ history_keys t.
Proof.
  unfold count_history, history_keys. induction (history t) as [|h l IH]; cbn.
  - split; [intros _; apply not_elem_of_nil|done].
  - rewrite not_elem_of_cons. case_decide as Hk; cbn.
    + split; [done|]. intros [Hne _]. destruct Hk as [H1 H2]. exfalso. apply Hne. by rewrite H1, H2.
    + rewrite IH. split; [|tauto]. intros Hn. split; [|done].
      intros [= H1 H2]. apply Hk. by rewrite H1, H2.
Qed.


(** What the history loop of [saveJournalToDB] leaves behind. *)
Lemma saveHistory_inv entryID records : forall t w d' w',
  saveHistory entryID records (Some t) w = (Ok d', w') ->
  exists t',
    d' = Some t' /\ entries t' = entries t /\ attachments t' = attachments t /\
    (exists added, history t' = history t ++ added) /\
    (NoDup (history_keys t) -> NoDup (history_keys t')) /\
    (forall r, r ∈ records -> (entryID, rec_SavedAt r) ∈ history_keys t').
Proof.
  induction records as [|r rest IH]; intros t w d' w'; cbn.
  - unfold ret. intros [= <- <-]. exists t. repeat split; try done.
    + exists []. by rewrite app_nil_r.
    + intros r Hr. by apply elem_of_nil in Hr.
  - case_decide as Hc.
    + unfold bind. destruct (exec _ _ w) as [[d1|e] w1] eqn:He; [|discriminate].
      apply exec_inv in He as (d & [= <-] & Hs & _). cbn in Hs. injection Hs as <-.
      intros Hrest. apply IH in Hrest as (t' & -> & He' & Ha & [added Hh] & Hnd & Hin).
      cbn in *. exists t'. repeat split; try done.
      * eexists. rewrite Hh, <- app_assoc. reflexivity.
      * intros Hn. apply Hnd. unfold history_keys. cbn. rewrite map_app. cbn.
        apply NoDup_app. repeat split; [done| |apply NoDup_singleton].
        intros k Hk ->%list_elem_of_singleton. by apply count_history_zero in Hc.
      * intros r' [->|Hr']%elem_of_cons; [|by apply Hin].
        unfold history_keys. rewrite Hh. rewrite !map_app. cbn.
        apply elem_of_app. left. apply elem_of_app. right. by left.
    + intros Hrest. apply IH in Hrest as (t' & -> & He' & Ha & [added Hh] & Hnd & Hin).
      exists t'. repeat split; try done; [by exists added|].
      intros r' [->|Hr']%elem_of_cons; [|by apply Hin].
      unfold history_keys. rewrite Hh, map_app. apply elem_of_app. left.
      destruct (decide ((entryID, rec_SavedAt r) ∈ history_keys t)) as [|Hn]; [done|].
      by apply count_history_zero in Hn.
Qed.

Lemma saveEntries_inv es : forall t w d' w',
  saveEntries es (Some t) w = (Ok d', w') ->
  exists t',
    d' = Some t' /\ attachments t' = attachments t /\
    (exists added, history t' = history t ++ added) /\
    (NoDup (history_keys t) -> NoDup (history_keys t')) /\
    (forall e r, e ∈ es -> r ∈ ent_History e -> (ent_ID e, rec_SavedAt r) ∈ history_keys t').
Proof.
  induction es as [|e rest IH]; intros t w d' w'; cbn.
  - unfold ret. intros [= <- <-]. exists t. repeat split; try done.
    + exists []. by rewrite app_nil_r.
    + intros e r He. by apply elem_of_nil in He.
  - unfold bind. destruct (exec _ _ w) as [[d1|err] w1] eqn:He; [|discriminate].
    apply exec_inv in He as (d & [= <-] & Hs & _). cbn in Hs. injection Hs as <-.
    destruct (saveHistory _ _ _ w1) as [[d2|err] w2] eqn:Hh; [|discriminate].
    apply saveHistory_inv in Hh as (t2 & -> & _ & Ha2 & [add2 Hh2] & Hnd2 & Hin2).
    cbn in *. intros Hrest.
    apply IH in Hrest as (t' & -> & Ha & [added Hh] & Hnd & Hin).
    exists t'. repeat split; try congruence.
    + eexists. rewrite Hh, Hh2, <- app_assoc. reflexivity.
    + intros Hn. by apply Hnd, Hnd2.
    + intros e' r [->|He']%elem_of_cons Hr; [|by eapply Hin].
      unfold history_keys. rewrite Hh, map_app. apply elem_of_app. left.
      by apply Hin2.
Qed.

(** Records whose keys are all in the table add nothing. *)
Lemma saveHistory_present entryID records t w :
  (forall r, r ∈ records -> (entryID, rec_SavedAt r) ∈ history_keys t) ->
  saveHistory entryID records (Some t) w = (Ok (Some t), w).
Proof.
  induction records as [|r rest IH]; intros Hin; cbn; [done|].
  rewrite decide_False.
  - apply IH. intros r' Hr'. apply Hin. by right.
  - rewrite count_history_zero. intros Hn. apply Hn, Hin. by left.
Qed.

Lemma saveEntries_present es : forall t w d' w',
  (forall e r, e ∈ es -> r ∈ ent_History e -> (ent_ID e, rec_SavedAt r) ∈ history_keys t) ->
  saveEntries es (Some t) w = (Ok d', w') ->
  exists t', d' = Some t' /\ history t' = history t.
Proof.
  induction es as [|e rest IH]; intros t w d' w' Hin; cbn.
  - unfold ret. intros [= <- <-]. by exists t.
  - unfold bind. destruct (exec _ _ w) as [[d1|err] w1] eqn:He; [|discriminate].
    apply exec_inv in He as (d & [= <-] & Hs & _). cbn in Hs. injection Hs as <-.
    rewrite saveHistory_present.
    + intros Hrest. apply IH in Hrest as (t' & -> & Hh); [by exists t'|].
      intros e' r He' Hr. unfold history_keys. cbn. apply Hin; [by right|done].
    + intros r Hr. unfold history_keys. cbn. apply Hin; [by left|done].
Qed.

Lemma saveHistory_no_fault entryID records : forall t w,
  w_faults w = [] ->
  exists t', saveHistory entryID records (Some t) w = (Ok (Some t'), w).
Proof.
  induction records as [|r rest IH]; intros t w Hf; cbn; [by exists t|].
  case_decide; [|by apply IH].
  unfold bind. rewrite exec_no_fault by done. cbn. by apply IH.
Qed.

Lemma saveEntries_no_fault es : forall t w,
  w_faults w = [] ->
  exists t', saveEntries es (Some t) w = (Ok (Some t'), w).
Proof.
  induction es as [|e rest IH]; intros t w Hf; cbn; [by exists t|].
  unfold bind. rewrite exec_no_fault by done. cbn.
  edestruct saveHistory_no_fault as [t2 ->]; [done|]. by apply IH.
Qed.

(** ** History rows *)

Lemma ExpandPath_plain path : strings_HasPrefix path "~/" = false -> ExpandPath path = ret path.
Proof. unfold ExpandPath. by intros ->. Qed.

Section StoreFacts.
Context {C : GoCrypto} {F : SqliteFormat}.

Lemma db_conn_present p f w : w_fs w !! p = Some f -> db_conn p w = (Ok (conn_of (Some f)), w).
Proof. intros Hf. unfold db_conn, bind, get_fs, ret. cbn. by rewrite Hf. Qed.

(** A statement that succeeds, on a store that is there, without a
    fault: the file holds the new state. *)
Lemma db_Exec_ok p stmt d d' w :
  w_fs w !! p = Some (SqliteFile d) ->
  w_faults w = [] ->
  stmt d = Ok d' ->
  db_Exec p stmt w = (Ok tt, with_file w p (SqliteFile d')).
Proof.
  intros Hf Hn Hs. unfold db_Exec, bind. rewrite (db_conn_present p _ w Hf). cbn.
  rewrite exec_no_fault by done. by rewrite Hs.
Qed.

Lemma AddHistoryRecord_plain path entryID record t w :
  strings_HasPrefix path "~/" = false ->
  w_fs w !! path = Some (SqliteFile (Some t)) ->
  w_faults w = [] ->
  exists w',
    AddHistoryRecord path entryID record "" w = (Ok tt, w') /\
    w_faults w' = [] /\
    w_fs w' = <[path := SqliteFile (Some (mkTables (entries t)
                  (history t ++ [history_row entryID record]) (attachments t)))]> (w_fs w).
Proof.
  intros Hp Hf Hn. unfold AddHistoryRecord. rewrite decide_False by (by intros H).
  unfold openDB. rewrite ExpandPath_plain by done. unfold bind at 1, ret at 1.
  unfold bind at 1. erewrite db_Exec_ok; [|done|done|reflexivity].
  erewrite db_Exec_ok; [|apply lookup_insert_eq|done|reflexivity].
  eexists. repeat split; [done|]. cbn. by rewrite insert_insert_eq.
Qed.

(** C6, as the code has it. The history loop of [saveJournalToDB]
    inserts the row of a record only when no row of the table has its
    pair (entry id, saved-at).  So the save keeps these pairs unique
    when they were, and saving the same journal once more adds no
    history row; without faults the save goes through.
    [AddHistoryRecord] itself inserts its row whatever the table
    holds. *)
Theorem saveJournalToDB_history_unique (journal : Journal) (t : Tables) (w : World) :
  (forall E R d' w',
     saveHistory E [R] (Some t) w = (Ok d', w') ->
     exists t', d' = Some t' /\
       history t' = if decide ((E, rec_SavedAt R) ∈ history_keys t)
                    then history t else history t ++ [history_row E R]) /\
  (forall d' w',
     saveJournalToDB (Ok (Some t)) journal w = (Ok d', w') ->
     exists t', d' = Some t' /\
       (NoDup (history_keys t) -> NoDup (history_keys t')) /\
       (forall w1 d'' w2,
          saveJournalToDB (Ok (Some t')) journal w1 = (Ok d'', w2) ->
          exists t'', d'' = Some t'' /\ history t'' = history t')) /\
  (w_faults w = [] ->
   exists t', saveJournalToDB (Ok (Some t)) journal w = (Ok (Some t'), w)) /\
  (forall path E R,
     strings_HasPrefix path "~/" = false ->
     w_fs w !! path = Some (SqliteFile (Some t)) ->
     w_faults w = [] ->
     exists w',
       AddHistoryRecord path E R "" w = (Ok tt, w') /\
       w_fs w' !! path =
         Some (SqliteFile (Some (mkTables (entries t) (history t ++ [history_row E R])
                                   (attachments t))))).
Proof.
  split; [|split; [|split]].
  - intros E R d' w'. cbn. case_decide as Hc.
    + unfold bind. destruct (exec _ _ w) as [[d1|e] w1] eqn:He; [|discriminate].
      apply exec_inv in He as (d & [= <-] & Hs & _). cbn in Hs. injection Hs as <-.
      unfold ret. intros [= <- <-]. eexists; split; [done|]. cbn.
      apply count_history_zero in Hc. by rewrite decide_False.
    + unfold ret. intros [= <- <-]. exists t; split; [done|].
      rewrite decide_True; [done|].
      destruct (decide ((E, rec_SavedAt R) ∈ history_keys t)) as [|Hn]; [done|].
      by apply count_history_zero in Hn.
  - intros d' w'. unfold saveJournalToDB, bind, lift, ret.
    destruct (saveEntries _ _ w) as [[d1|e] w1] eqn:Hs; [|discriminate].
    destruct (tick w1) as [[[]|e] w2]; [|discriminate]. intros [= <- <-].
    apply saveEntries_inv in Hs as (t' & -> & _ & _ & Hnd & Hin).
    exists t'. repeat split; [done|].
    intros w3 d'' w4.
    destruct (saveEntries _ _ w3) as [[d2|e] w5] eqn:Hs2; [|discriminate].
    destruct (tick w5) as [[[]|e] w6]; [|discriminate]. intros [= <- <-].
    by apply saveEntries_present in Hs2.
  - intros Hn. unfold saveJournalToDB, bind, lift, ret.
    destruct (saveEntries_no_fault (Entries journal) t w Hn) as [t' ->].
    rewrite tick_no_fault by done. by exists t'.
  - intros path E R Hp Hf Hn.
    destruct (AddHistoryRecord_plain path E R t w Hp Hf Hn) as (w' & -> & _ & Hfs).
    exists w'. split; [done|]. rewrite Hfs. apply lookup_insert_eq.
Qed.

End StoreFacts.

(** C6, as the spec has it, fails: appending one record twice with
    [AddHistoryRecord] leaves two rows with one pair (entry id,
    saved-at) in a table that had none. *)
Lemma AddHistoryRecord_twice_duplicates :
  exists w1 w2,
    @AddHistoryRecord Toy.crypto Toy.format Sample.path "X" Sample.record "" Sample.world
      = (Ok tt, w1) /\
    @AddHistoryRecord Toy.crypto Toy.format Sample.path "X" Sample.record "" w1
      = (Ok tt, w2) /\
    w_fs w2 !! Sample.path =
      Some (SqliteFile (Some (mkTables (entries Sample.tables)
              [history_row "X" Sample.record; history_row "X" Sample.record] []))) /\
    ~ NoDup (history_keys (mkTables (entries Sample.tables)
              [history_row "X" Sample.record; history_row "X" Sample.record] [])).
Proof.
  eexists _, _. split; [vm_compute; reflexivity|].
  split; [vm_compute; reflexivity|].
  split; [vm_compute; reflexivity|].
  intros Hn. apply NoDup_cons in Hn as [Hn _]. apply Hn. by left.
Qed.

Lemma saveJournalToDB_history_unique_witness :
  exists t',
    saveJournalToDB (Ok (Some Sample.tables))
      (mkJournal [mkEntry "X" "2024-01-01" "first" 1 1 [Sample.record; Sample.record] []])
      Sample.world = (Ok (Some t'), Sample.world).
Proof.
  destruct (@saveJournalToDB_history_unique Toy.crypto Toy.format
           (mkJournal [mkEntry "X" "2024-01-01" "first" 1 1 [Sample.record; Sample.record] []])
           Sample.tables Sample.world) as (_ & _ & H & _).
  apply H. reflexivity.
Defined.

(** ** Ids that are not in the store *)

Lemma filter_all {A} (P : A -> Prop) `{forall x, Decision (P x)} (l : list A) :
  (forall x, x ∈ l -> P x) -> filter P l = l.
Proof.
  induction l as [|x l IH]; intros Hl; [done|]. cbn.
  rewrite decide_True by (apply Hl; by left).
  f_equal. apply IH. intros y Hy. apply Hl. by right.
Qed.

Lemma find_none {A} (f : A -> bool) (l : list A) :
  (forall x, x ∈ l -> f x = false) -> find f l = None.
Proof.
  induction l as [|x l IH]; intros Hl; [done|]. cbn.
  rewrite Hl by (by left). apply IH. intros y Hy. apply Hl. by right.
Qed.

Lemma world_insert_id w p f : w_fs w !! p = Some f -> with_file w p f = w.
Proof.
  intros Hf. unfold with_file. rewrite insert_id by done. by destruct w.
Qed.

Section MissingIds.
Context {F : SqliteFormat}.

(** C9, as the code has it. On a store without attachment [id],
    fetching and exporting the attachment fail with [sql.ErrNoRows]
    and change nothing, while [DeleteAttachment] succeeds and leaves
    the store as it was; on a store without entry [id],
    [DeleteEntry] succeeds as well and keeps every entry. *)
Theorem missing_id_outcomes (path id dest : string) (t : Tables) (w : World) :
  strings_HasPrefix path "~/" = false ->
  w_fs w !! path = Some (SqliteFile (Some t)) ->
  ((forall a, a ∈ attachments t -> ar_id a <> id) ->
   GetAttachment path id w = (Err ErrNoRows, w) /\
   ExportAttachment path id dest w = (Err ErrNoRows, w) /\
   (w_faults w = [] -> DeleteAttachment path id w = (Ok tt, w))) /\
  ((forall e, e ∈ entries t -> er_id e <> id) ->
   w_faults w = [] ->
   exists t',
     DeleteEntry path id w = (Ok tt, with_file w path (SqliteFile (Some t'))) /\
     entries t' = entries t).
Proof.
  intros Hp Hf. split.
  - intros Hno.
    assert (Hget : GetAttachment path id w = (Err ErrNoRows, w)).
    { unfold GetAttachment, openDB. rewrite ExpandPath_plain by done.
      unfold bind at 1, ret at 1. unfold db_Query, bind.
      rewrite (db_conn_present path _ w Hf). cbn.
      rewrite find_none; [done|]. intros a Ha. apply bool_decide_eq_false. by apply Hno. }
    split; [done|]. split.
    + unfold ExportAttachment, bind. by rewrite Hget.
    + intros Hn. unfold DeleteAttachment, openDB. rewrite ExpandPath_plain by done.
      unfold bind at 1, ret at 1.
      erewrite db_Exec_ok; [|done|done|reflexivity]. cbn.
      rewrite filter_all by done. f_equal. apply world_insert_id.
      rewrite Hf. by destruct t.
  - intros Hno Hn. unfold DeleteEntry, openDB. rewrite ExpandPath_plain by done.
    unfold bind at 1, ret at 1. unfold bind at 1.
    rewrite (db_conn_present path _ w Hf). cbn.
    unfold bind. repeat (rewrite exec_no_fault by done; cbn).
    rewrite tick_no_fault by done. eexists. split; [reflexivity|]. cbn.
    by apply filter_all.
Qed.

End MissingIds.

(** C9, as the spec has it, fails: deleting an attachment or an entry
    under an id that the store does not have reports success. *)
Lemma delete_missing_id_succeeds :
  (@DeleteAttachment Toy.format Sample.path "no-such-id" Sample.world).1 = Ok tt /\
  (@DeleteEntry Toy.format Sample.path "no-such-id" Sample.world).1 = Ok tt.
Proof. split; vm_compute; reflexivity. Qed.

Lemma missing_id_outcomes_witness :
  @GetAttachment Toy.format Sample.path "no-such-id" Sample.world
    = (Err ErrNoRows, Sample.world).
Proof.
  destruct (@missing_id_outcomes Toy.format Sample.path "no-such-id" "/tmp/out"
              Sample.tables Sample.world) as [H _].
  - reflexivity.
  - reflexivity.
  - apply H. intros a Ha. by apply elem_of_nil in Ha.
Defined.

(** C5, as the spec has it, fails: saving a second entry for
    2024-01-01 under another id through [SaveJournal] returns no
    error, and the row of the first entry is gone. *)
Lemma upsert_same_date_replaces :
  exists w',
    @SaveJournal Toy.format Sample.journalY Sample.path Sample.world = (Ok tt, w') /\
    w_fs w' !! Sample.path =
      Some (SqliteFile (Some (mkTables [mkEntryRow "Y" "2024-01-01" "second" 5 5] [] []))).
Proof. eexists. split; vm_compute; reflexivity. Qed.

Lemma editor_save_history_witness :
  exists e',
    Entries (app_journal
               (@updateEditorSaved Toy.crypto Toy.format (Sample.app Sample.editX) 9 "N"
                  Sample.world).1)
      ≡ₚ <[0%nat := e']> [Sample.entryX] /\
    ent_History e' = [mkSaveRecord "first" 1 []].
Proof.
  destruct (@editor_save_history Toy.crypto Toy.format (Sample.app Sample.editX) 9 "N"
              Sample.world 0%nat Sample.entryX) as (e' & Hp & _ & _ & _ & Hh & _).
  - reflexivity.
  - reflexivity.
  - intros k e' Hk. lia.
  - reflexivity.
  - exists e'. split; [exact Hp|]. apply Hh. discriminate.
Defined.

Lemma editor_save_rejects_duplicate_date_witness :
  @updateEditorSaved Toy.crypto Toy.format (Sample.app Sample.newSameDate) 9 "Y" Sample.world
    = (setEditor (Sample.app Sample.newSameDate)
         (setSaved Sample.newSameDate false "An entry for 2024-01-01 already exists"),
       Sample.world).
Proof.
  apply (@editor_save_rejects_duplicate_date Toy.crypto Toy.format
           (Sample.app Sample.newSameDate) 9 "Y" Sample.world Sample.entryX).
  - by left.
  - reflexivity.
  - intros ed Hed. discriminate Hed.
Defined.

(** ** Writes to a store, plain and sealed *)

Section WriteFacts.
Context {C : GoCrypto} {CS : GoCryptoSpec C} {F : SqliteFormat} {FS : SqliteFormatSpec F}.

Lemma os_WriteFile_inv p data w r w' :
  os_WriteFile p data w = (r, w') ->
  match r with
  | Ok _ => w_fs w' = <[p := RawFile data]> (w_fs w)
  | Err _ => w_fs w' = w_fs w
  end.
Proof.
  unfold os_WriteFile, bind, get_fs, put_file, fail.
  destruct (tick w) as [[[]|e] w1] eqn:Ht; apply tick_fs in Ht as [Hfs _].
  - destruct (w_fs w1 !! p) as [[]|]; intros [= <- <-]; cbn; congruence.
  - by intros [= <- <-].
Qed.

Lemma os_WriteFile_no_fault p data w :
  w_faults w = [] ->
  w_fs w !! p <> Some Directory ->
  os_WriteFile p data w = (Ok tt, with_file w p (RawFile data)).
Proof.
  intros Hn Hd. unfold os_WriteFile, bind, get_fs, put_file, fail.
  rewrite tick_no_fault by done.
  by destruct (w_fs w !! p) as [[]|].
Qed.

Lemma db_Exec_inv p stmt d w r w' :
  w_fs w !! p = Some (SqliteFile d) ->
  db_Exec p stmt w = (r, w') ->
  match r with
  | Ok _ => exists d', stmt d = Ok d' /\ w_fs w' = <[p := SqliteFile d']> (w_fs w)
  | Err _ => w_fs w' = w_fs w
  end.
Proof.
  intros Hf. unfold db_Exec, bind. rewrite (db_conn_present p _ w Hf). cbn.
  destruct (exec stmt (Ok d) w) as [[d'|e] w1] eqn:He.
  - pose proof (exec_fs _ _ _ _ _ He) as [Hfs _].
    apply exec_inv in He as (d0 & [= <-] & Hs & _).
    unfold put_file. intros [= <- <-]. exists d'. cbn. by rewrite Hfs.
  - apply exec_fs in He as [Hfs _]. by intros [= <- <-].
Qed.

Lemma plain_write_inv p stmt t w r w' :
  w_fs w !! p = Some (SqliteFile (Some t)) ->
  plain_write p stmt w = (r, w') ->
  match r with
  | Ok _ => exists d', stmt (Some t) = Ok d' /\ w_fs w' = <[p := SqliteFile d']> (w_fs w)
  | Err _ => w_fs w' = w_fs w
  end.
Proof.
  intros Hf. unfold plain_write. unfold bind at 1.
  destruct (db_Exec p initSchema w) as [[[]|e] w1] eqn:H1.
  - apply (db_Exec_inv _ _ _ _ _ _ Hf) in H1 as (d1 & [= <-] & Hfs1).
    assert (Hid : w_fs w1 = w_fs w) by (rewrite Hfs1; by apply insert_id).
    intros H2. eapply db_Exec_inv in H2; [|by rewrite Hid].
    destruct r; [|congruence]. destruct H2 as (d' & Hs & Hfs2). exists d'.
    by rewrite Hfs2, Hid.
  - apply (db_Exec_inv _ _ _ _ _ _ Hf) in H1. by intros [= <- <-].
Qed.

Lemma plain_write_no_fault p stmt t d' w :
  w_fs w !! p = Some (SqliteFile (Some t)) ->
  w_faults w = [] ->
  stmt (Some t) = Ok d' ->
  plain_write p stmt w = (Ok tt, with_file w p (SqliteFile d')).
Proof.
  intros Hf Hn Hs. unfold plain_write. unfold bind.
  erewrite db_Exec_ok; [|done|done|reflexivity].
  erewrite db_Exec_ok; [|apply lookup_insert_eq|done|done].
  unfold with_file. cbn. by rewrite insert_insert_eq.
Qed.

Lemma sealed_write_inv p password stmt t w r w' :
  sealed_write p password stmt (Ok (Some t)) w = (r, w') ->
  match r with
  | Ok _ =>
    exists d' blob, stmt (Some t) = Ok d' /\ (0 < length blob)%nat /\
      decrypt blob password = Ok (sqlite_image d') /\
      w_fs w' = <[p := RawFile blob]> (w_fs w)
  | Err _ => w_fs w' = w_fs w
  end.
Proof.
  unfold sealed_write. unfold bind at 1.
  destruct (exec initSchema _ w) as [[d1|e] w1] eqn:H1.
  2: { apply exec_fs in H1 as [? _]. by intros [= <- <-]. }
  pose proof (exec_fs _ _ _ _ _ H1) as [Hfs1 _].
  apply exec_inv in H1 as (d0 & [= <-] & [= <-] & _).
  unfold bind at 1.
  destruct (exec stmt _ w1) as [[d2|e] w2] eqn:H2.
  2: { apply exec_fs in H2 as [? _]. intros [= <- <-]. congruence. }
  pose proof (exec_fs _ _ _ _ _ H2) as [Hfs2 _].
  apply exec_inv in H2 as (d0 & [= <-] & Hs & _).
  unfold bind at 1.
  destruct (encrypt _ password w2) as [[blob|e] w3] eqn:H3.
  2: { unfold encrypt, bind, lift, ret, rand_ReadFull in H3.
       rewrite NewCipher_deriveKey in H3. case_decide; [discriminate|].
       injection H3 as _ <-. intros [= <- <-]. congruence. }
  apply encrypt_inv in H3 as (nonce & Hn & -> & Hfs3 & _).
  intros H4. apply os_WriteFile_inv in H4. destruct r; [|congruence].
  exists d2, (nonce ++ gcm_Seal (deriveKey password) nonce (sqlite_image d2)).
  split; [done|].
  split; [rewrite length_app; unfold NonceSize in Hn; lia|].
  split; [by apply decrypt_sealed|]. congruence.
Qed.

Lemma sealed_write_no_fault p password stmt t d' w :
  w_faults w = [] ->
  (NonceSize <= length (w_rand w))%nat ->
  w_fs w !! p <> Some Directory ->
  stmt (Some t) = Ok d' ->
  exists w',
    sealed_write p password stmt (Ok (Some t)) w = (Ok tt, w') /\
    w_faults w' = [] /\ w_rand w' = drop NonceSize (w_rand w) /\ w_home w' = w_home w /\
    exists blob, w_fs w' = <[p := RawFile blob]> (w_fs w) /\ (0 < length blob)%nat /\
      decrypt blob password = Ok (sqlite_image d').
Proof.
  intros Hn Hr Hd Hs. unfold sealed_write, bind.
  rewrite exec_no_fault by done. cbn [initSchema].
  rewrite exec_no_fault by done. rewrite Hs.
  rewrite encrypt_ok by done.
  rewrite os_WriteFile_no_fault by done.
  eexists. split; [reflexivity|]. unfold with_file. cbn [w_faults w_rand w_home w_fs].
  repeat split; try done.
  eexists. split; [reflexivity|].
  split; [rewrite length_app, length_take; unfold NonceSize in *; lia|].
  apply decrypt_sealed. rewrite length_take. lia.
Qed.

End WriteFacts.

(** ** Adding an attachment *)

Lemma insert_attachment_inv a t d' :
  insert_attachment a (Some t) = Ok d' ->
  d' = Some (mkTables (entries t) (history t) (attachments t ++ [attachment_row a])).
Proof.
  cbn. destruct (existsb _ _); [discriminate|]. by intros [= <-].
Qed.

Lemma insert_attachment_fresh a t :
  (forall x, x ∈ attachments t -> ar_id x <> att_ID a) ->
  insert_attachment a (Some t) =
    Ok (Some (mkTables (entries t) (history t) (attachments t ++ [attachment_row a]))).
Proof.
  intros Hfresh. cbn.
  replace (existsb _ _) with false; [done|]. symmetry.
  apply not_true_is_false. intros (x & Hx & Hb)%existsb_exists.
  apply bool_decide_eq_true in Hb. apply (Hfresh x); [|done].
  by apply list_elem_of_In.
Qed.

Section AttachmentFacts.
Context {C : GoCrypto} {CS : GoCryptoSpec C} {F : SqliteFormat} {FS : SqliteFormatSpec F}.

Lemma conn_of_image t : conn_of (Some (RawFile (sqlite_image (Some t)))) = Ok (Some t).
Proof. cbn. by rewrite parse_image. Qed.

Lemma LoadJournalEncrypted_holds p password t w :
  strings_HasPrefix p "~/" = false ->
  store_holds true password (w_fs w !! p) t ->
  LoadJournalEncrypted p password w = (loadJournalFromDB (Ok (Some t)), w).
Proof.
  intros Hp (blob & Hf & Hlen & Hdec).
  unfold LoadJournalEncrypted. rewrite ExpandPath_plain by done.
  unfold bind, ret, get_fs, os_ReadFile, lift. cbn [fst snd]. rewrite Hf.
  rewrite Hf. rewrite decide_False by lia. rewrite Hdec.
  by rewrite conn_of_image.
Qed.

Lemma AddAttachmentEncrypted_sealed p password a t w :
  strings_HasPrefix p "~/" = false ->
  store_holds true password (w_fs w !! p) t ->
  AddAttachmentEncrypted p password a w =
    sealed_write p password (insert_attachment a) (Ok (Some t)) w.
Proof.
  intros Hp Hh. unfold AddAttachmentEncrypted.
  unfold bind at 1. rewrite (LoadJournalEncrypted_holds p password t w Hp Hh).
  destruct Hh as (blob & Hf & Hlen & Hdec). cbn [loadJournalFromDB].
  rewrite ExpandPath_plain by done.
  unfold bind at 1, ret at 1. unfold bind at 1, get_fs at 1.
  unfold bind at 1. rewrite Hf.
  unfold bind at 1, os_ReadFile at 1. rewrite Hf.
  rewrite decide_True by lia.
  unfold bind at 1, lift at 1. rewrite Hdec. unfold ret at 1.
  by rewrite conn_of_image.
Qed.

Lemma addHistoryRecordEncrypted_sealed p password entryID record t w :
  strings_HasPrefix p "~/" = false ->
  store_holds true password (w_fs w !! p) t ->
  addHistoryRecordEncrypted p entryID record password w =
    sealed_write p password (insert_history entryID record) (Ok (Some t)) w.
Proof.
  intros Hp (blob & Hf & Hlen & Hdec). unfold addHistoryRecordEncrypted.
  rewrite ExpandPath_plain by done.
  unfold bind at 1, ret at 1.
  unfold bind at 1, os_ReadFile at 1. rewrite Hf.
  unfold bind at 1, lift at 1. rewrite Hdec.
  by rewrite conn_of_image.
Qed.

Lemma AddAttachment_plain p a w :
  strings_HasPrefix p "~/" = false ->
  AddAttachment p a w = plain_write p (insert_attachment a) w.
Proof.
  intros Hp. unfold AddAttachment, openDB. by rewrite ExpandPath_plain.
Qed.

Lemma AddHistoryRecord_plain_write p entryID record w :
  strings_HasPrefix p "~/" = false ->
  AddHistoryRecord p entryID record "" w = plain_write p (insert_history entryID record) w.
Proof.
  intros Hp. unfold AddHistoryRecord, openDB. rewrite decide_False by (by intros H).
  by rewrite ExpandPath_plain.
Qed.

(** One write to a store that holds [t], with a statement that turns
    [t] into [t'] when it succeeds. *)
Lemma store_write_outcome (encrypted : bool) password p stmt t t' w r w' :
  store_holds encrypted password (w_fs w !! p) t ->
  (forall d', stmt (Some t) = Ok d' -> d' = Some t') ->
  (if encrypted then sealed_write p password stmt (Ok (Some t)) w
   else plain_write p stmt w) = (r, w') ->
  match r with
  | Ok _ => store_holds encrypted password (w_fs w' !! p) t'
  | Err _ => w_fs w' = w_fs w
  end.
Proof.
  intros Hh Hstmt. destruct encrypted; cbn in Hh |- *.
  - intros Hw. apply sealed_write_inv in Hw. destruct r; [|done].
    destruct Hw as (d' & blob & Hs & Hlen & Hdec & Hfs).
    apply Hstmt in Hs as ->. exists blob. rewrite Hfs, lookup_insert_eq. done.
  - intros Hw. apply (plain_write_inv _ _ _ _ _ _ Hh) in Hw. destruct r; [|done].
    destruct Hw as (d' & Hs & Hfs). apply Hstmt in Hs as ->.
    by rewrite Hfs, lookup_insert_eq.
Qed.

Lemma store_write_no_fault (encrypted : bool) password p stmt t d' w :
  store_holds encrypted password (w_fs w !! p) t ->
  stmt (Some t) = Ok d' ->
  w_faults w = [] ->
  (encrypted = true -> (NonceSize <= length (w_rand w))%nat) ->
  exists w',
    (if encrypted then sealed_write p password stmt (Ok (Some t)) w
     else plain_write p stmt w) = (Ok tt, w') /\
    w_faults w' = [] /\ w_home w' = w_home w /\
    (length (w_rand w) <= length (w_rand w') + NonceSize)%nat.
Proof.
  intros Hh Hs Hn Hr. destruct encrypted; cbn in Hh.
  - specialize (Hr eq_refl). destruct Hh as (blob & Hf & _).
    destruct (sealed_write_no_fault p password stmt t d' w) as (w' & -> & ? & Hrand & ? & _);
      [done|done|by rewrite Hf|done|].
    exists w'. repeat split; try done. rewrite Hrand, length_drop. lia.
  - rewrite (plain_write_no_fault p stmt t d' w) by done.
    eexists. repeat split; try done. cbn. lia.
Qed.

End AttachmentFacts.

Section AddAttachmentFacts.
Context {C : GoCrypto} {CS : GoCryptoSpec C} {F : SqliteFormat} {FS : SqliteFormatSpec F}.

Lemma attachment_write_eq (encrypted : bool) password p a t w :
  strings_HasPrefix p "~/" = false ->
  store_holds encrypted password (w_fs w !! p) t ->
  (if encrypted then AddAttachmentEncrypted p password a else AddAttachment p a) w =
  (if encrypted then sealed_write p password (insert_attachment a) (Ok (Some t)) w
   else plain_write p (insert_attachment a) w).
Proof.
  intros Hp Hh. destruct encrypted.
  - by apply AddAttachmentEncrypted_sealed.
  - by apply AddAttachment_plain.
Qed.

Lemma history_write_eq (encrypted : bool) password p entryID record t w :
  strings_HasPrefix p "~/" = false ->
  (encrypted = true -> password <> "") ->
  store_holds encrypted password (w_fs w !! p) t ->
  (if encrypted then AddHistoryRecord p entryID record password
   else AddHistoryRecord p entryID record "") w =
  (if encrypted then sealed_write p password (insert_history entryID record) (Ok (Some t)) w
   else plain_write p (insert_history entryID record) w).
Proof.
  intros Hp Hpw Hh. destruct encrypted.
  - unfold AddHistoryRecord. rewrite decide_True by (by apply Hpw).
    by apply addHistoryRecordEncrypted_sealed.
  - by apply AddHistoryRecord_plain_write.
Qed.

(** C3, as the code has it. [addAttachment] writes the attachment
    row first and the history row after it.  When the attachment
    write fails, the error comes back, the [SaveRecord] appended in
    memory just before is taken off again and the file system is as
    it was, so neither row is stored.  When [addAttachment] returns
    no error, the store holds both new rows and the entry in memory
    has the new record and the new attachment.  With no fault, an
    attachment id that is new and, for an encrypted store, random
    bytes for two nonces, it returns no error. *)
Theorem addAttachment_outcomes (m : AttachmentModel) (path src : string)
    (data : list byte) (now : Time) (newID : string) (t : Tables) (w : World) :
  let entry := am_entry m in
  let record := mkSaveRecord (ent_Content entry) now (AttachmentFilenames entry) in
  let filename := filepath_Base src in
  let attachment :=
    mkAttachment newID (ent_ID entry) filename (DetectMimeType filename)
      (Z.of_nat (length data)) data now in
  let listed :=
    mkAttachment newID (ent_ID entry) filename (DetectMimeType filename)
      (Z.of_nat (length data)) [] now in
  let write :=
    if am_encrypted m then AddAttachmentEncrypted (am_dbPath m) (am_password m) attachment
    else AddAttachment (am_dbPath m) attachment in
  let res := addAttachment m path now newID w in
  strings_HasPrefix (am_dbPath m) "~/" = false ->
  ExpandPath path w = (Ok src, w) ->
  os_ReadFile src w = (Ok data, w) ->
  (am_encrypted m = true -> am_password m <> "") ->
  store_holds (am_encrypted m) (am_password m) (w_fs w !! am_dbPath m) t ->
  (forall e w1, write w = (Err e, w1) ->
     res.1.1 = Some e /\
     ent_History (am_entry res.1.2) = ent_History entry /\
     ent_Attachments (am_entry res.1.2) = ent_Attachments entry /\
     am_HistoryAdded res.1.2 = false /\
     w_fs res.2 = w_fs w) /\
  (res.1.1 = None ->
     ent_History (am_entry res.1.2) = ent_History entry ++ [record] /\
     ent_Attachments (am_entry res.1.2) = ent_Attachments entry ++ [listed] /\
     am_HistoryAdded res.1.2 = true /\
     store_holds (am_encrypted m) (am_password m) (w_fs res.2 !! am_dbPath m)
       (mkTables (entries t)
          (history t ++ [history_row (ent_ID entry) record])
          (attachments t ++ [attachment_row attachment]))) /\
  (w_faults w = [] ->
   (forall x, x ∈ attachments t -> ar_id x <> newID) ->
   (am_encrypted m = true -> (2 * NonceSize <= length (w_rand w))%nat) ->
   res.1.1 = None).
Proof.
  intros entry record filename attachment listed write res Hp Hexp Hread Hpw Hh.
  subst res. unfold addAttachment. rewrite Hexp, Hread.
  fold entry. fold filename. fold record. fold attachment. fold listed. fold write.
  assert (Hw : write w =
    (if am_encrypted m
     then sealed_write (am_dbPath m) (am_password m) (insert_attachment attachment)
            (Ok (Some t)) w
     else plain_write (am_dbPath m) (insert_attachment attachment) w))
    by (by apply attachment_write_eq).
  destruct (write w) as [[[]|e] w3] eqn:Hwrite.
  - (* the attachment row is written *)
    symmetry in Hw.
    pose proof (store_write_outcome _ _ _ _ t _ _ _ _ Hh
                  (insert_attachment_inv attachment t) Hw) as Hh3.
    cbn beta iota in Hh3.
    set (t3 := mkTables (entries t) (history t) (attachments t ++ [attachment_row attachment]))
      in Hh3.
    set (save := if am_encrypted m
                 then AddHistoryRecord (am_dbPath m) (ent_ID entry) record (am_password m)
                 else AddHistoryRecord (am_dbPath m) (ent_ID entry) record "").
    assert (Hs : save w3 =
      (if am_encrypted m
       then sealed_write (am_dbPath m) (am_password m)
              (insert_history (ent_ID entry) record) (Ok (Some t3)) w3
       else plain_write (am_dbPath m) (insert_history (ent_ID entry) record) w3))
      by (by apply history_write_eq).
    split; [intros e w1 [=]|]. split.
    + destruct (save w3) as [[[]|e] w4] eqn:Hsave; [|discriminate]. intros _. cbn.
      repeat split; try done. symmetry in Hs.
      refine (store_write_outcome _ _ _ _ t3 _ _ (Ok tt) _ Hh3 _ Hs).
      intros d'. cbn. by intros [= <-].
    + intros Hn Hfresh Hr.
      destruct (store_write_no_fault (am_encrypted m) (am_password m) (am_dbPath m)
                  (insert_attachment attachment) t _ w Hh
                  (insert_attachment_fresh attachment t Hfresh) Hn)
        as (w3' & Hw3 & Hn3 & _ & Hr3);
        [intros He; specialize (Hr He); unfold NonceSize in *; lia|].
      rewrite Hw3 in Hw. injection Hw as ->.
      destruct (store_write_no_fault (am_encrypted m) (am_password m) (am_dbPath m)
                  (insert_history (ent_ID entry) record) t3 _ w3 Hh3 eq_refl Hn3)
        as (w4 & Hw4 & _);
        [intros He; specialize (Hr He); unfold NonceSize in *; lia|].
      rewrite Hw4 in Hs. by rewrite Hs.
  - (* the attachment write fails *)
    symmetry in Hw.
    pose proof (store_write_outcome _ _ _ _ t _ _ _ _ Hh
                  (insert_attachment_inv attachment t) Hw) as Hfs.
    cbn beta iota in Hfs. split; [|split].
    + intros e' w1 [= <- <-]. cbn. repeat split; try done.
      rewrite length_app. cbn. replace (length (ent_History entry) + 1 - 1)%nat
        with (length (ent_History entry)) by lia.
      by rewrite take_app_length.
    + cbn. discriminate.
    + intros Hn Hfresh Hr. exfalso.
      destruct (store_write_no_fault (am_encrypted m) (am_password m) (am_dbPath m)
                  (insert_attachment attachment) t _ w Hh
                  (insert_attachment_fresh attachment t Hfresh) Hn)
        as (w3' & Hw3 & _);
        [intros He; specialize (Hr He); unfold NonceSize in *; lia|].
      rewrite Hw3 in Hw. discriminate.
Qed.

End AddAttachmentFacts.

(** ** Migration of an encrypted store *)

Section MigrateFacts.
Context {C : GoCrypto} {CS : GoCryptoSpec C} {F : SqliteFormat} {FS : SqliteFormatSpec F}.

Lemma saveJournalToDB_fresh journal w :
  w_faults w = [] ->
  exists t',
    saveJournalToDB (Ok (Some emptyTables)) journal w = (Ok (Some t'), w) /\
    attachments t' = [].
Proof.
  intros Hn. unfold saveJournalToDB, bind, lift, ret.
  destruct (saveEntries_no_fault (Entries journal) emptyTables w Hn) as [t' Hs].
  rewrite Hs, tick_no_fault by done. exists t'. split; [done|].
  by apply saveEntries_inv in Hs as (t'' & [= <-] & -> & _).
Qed.

Lemma loadJournalFromDB_no_attachments t journal :
  attachments t = [] ->
  loadJournalFromDB (Ok (Some t)) = Ok journal ->
  forall e, e ∈ Entries journal -> ent_Attachments e = [].
Proof.
  intros Ha [= <-] e (r & -> & _)%list_elem_of_fmap. cbn.
  unfold attachments_of. by rewrite Ha.
Qed.

Lemma loadJournalFromDB_has_attachment t journal a e :
  a ∈ attachments t -> e ∈ entries t -> ar_entry_id a = er_id e ->
  loadJournalFromDB (Ok (Some t)) = Ok journal ->
  exists e', e' ∈ Entries journal /\ ent_Attachments e' <> [].
Proof.
  intros Ha He Hid [= <-]. cbn. eexists. split.
  - apply list_elem_of_fmap. exists e. split; [reflexivity|].
    by rewrite sort_desc_perm.
  - cbn. unfold attachments_of. intros Hnil.
    apply fmap_nil_inv in Hnil.
    assert (Hin : a ∈ filter (fun x => ar_entry_id x = er_id e) (attachments t))
      by (by apply list_elem_of_filter).
    rewrite Hnil in Hin. by apply elem_of_nil in Hin.
Qed.

(** C2, against the code. [MigrateJournalEncrypted] succeeds on a
    store that [password] opens, and the store it writes at [B] holds
    no attachment row: every entry loaded from [B] has an empty
    attachment list, while the store at [A] still loads as before.
    So when the store at [A] has an attachment on one of its entries,
    the two loaded journals differ. *)
Theorem migrate_encrypted_drops_attachments (A B password : string) (t : Tables) (w : World) :
  strings_HasPrefix A "~/" = false ->
  strings_HasPrefix B "~/" = false ->
  A <> B ->
  store_holds true password (w_fs w !! A) t ->
  w_fs w !! B <> Some Directory ->
  w_faults w = [] ->
  (NonceSize <= length (w_rand w))%nat ->
  exists w' tB jA jB,
    MigrateJournalEncrypted A B password w = (Ok tt, w') /\
    store_holds true password (w_fs w' !! B) tB /\
    attachments tB = [] /\
    LoadJournalEncrypted A password w' = (Ok jA, w') /\
    loadJournalFromDB (Ok (Some t)) = Ok jA /\
    LoadJournalEncrypted B password w' = (Ok jB, w') /\
    (forall e, e ∈ Entries jB -> ent_Attachments e = []) /\
    (forall a e, a ∈ attachments t -> e ∈ entries t -> ar_entry_id a = er_id e ->
       jA <> jB).
Proof.
  intros HA HB Hne Hh Hdir Hn Hr.
  destruct (loadJournalFromDB_ordered (Ok (Some t))) as (jA & HjA & _).
  destruct (saveJournalToDB_fresh jA w Hn) as (tB & Hsave & Hatt).
  destruct (loadJournalFromDB_ordered (Ok (Some tB))) as (jB & HjB & _).
  set (nonce := take NonceSize (w_rand w)).
  set (blob := nonce ++ gcm_Seal (deriveKey password) nonce (sqlite_image (Some tB))).
  set (w' := with_file (mkWorld (w_fs w) (w_home w) (drop NonceSize (w_rand w)) (w_faults w))
               B (RawFile blob)).
  assert (HhB : store_holds true password (w_fs w' !! B) tB).
  { exists blob. unfold w', with_file. cbn [w_fs]. rewrite lookup_insert_eq.
    split; [done|]. split.
    - unfold blob, nonce. rewrite length_app, length_take. unfold NonceSize in *. lia.
    - apply decrypt_sealed. unfold nonce. rewrite length_take. lia. }
  assert (HhA : store_holds true password (w_fs w' !! A) t).
  { unfold w', with_file. cbn [w_fs]. by rewrite lookup_insert_ne. }
  exists w', tB, jA, jB.
  split; [|split; [done|split; [done|split; [|split; [done|split; [|split]]]]]].
  - unfold MigrateJournalEncrypted. unfold bind at 1.
    rewrite (LoadJournalEncrypted_holds A password t w HA Hh), HjA.
    unfold SaveJournalEncrypted. rewrite ExpandPath_plain by done.
    unfold bind at 1, ret at 1. unfold bind at 1.
    rewrite exec_no_fault by done. cbn [initSchema].
    unfold bind at 1. rewrite Hsave.
    unfold bind at 1. rewrite encrypt_ok by done.
    by rewrite os_WriteFile_no_fault.
  - by rewrite (LoadJournalEncrypted_holds A password t w' HA HhA), HjA.
  - by rewrite (LoadJournalEncrypted_holds B password tB w' HB HhB), HjB.
  - by apply (loadJournalFromDB_no_attachments tB).
  - intros a e Ha He Hid Heq.
    destruct (loadJournalFromDB_has_attachment t jA a e Ha He Hid HjA) as (e' & Hin & Hnon).
    apply Hnon. apply (loadJournalFromDB_no_attachments tB jB Hatt HjB). by rewrite <- Heq.
Qed.

End MigrateFacts.

Lemma migrate_encrypted_drops_attachments_witness :
  exists w' jA jB,
    @MigrateJournalEncrypted Toy.crypto Toy.format Sample.pathA Sample.pathB "pw" Sample.worldA
      = (Ok tt, w') /\
    @LoadJournalEncrypted Toy.crypto Toy.format Sample.pathA "pw" w' = (Ok jA, w') /\
    @LoadJournalEncrypted Toy.crypto Toy.format Sample.pathB "pw" w' = (Ok jB, w') /\
    jA <> jB.
Proof.
  destruct (@migrate_encrypted_drops_attachments Toy.crypto toy_crypto_spec Toy.format
              toy_format_spec Sample.pathA Sample.pathB "pw" Sample.tablesA Sample.worldA)
    as (w' & tB & jA & jB & Hm & _ & _ & HA & _ & HB & _ & Hne).
  - reflexivity.
  - reflexivity.
  - discriminate.
  - exists Sample.blobA. split; [apply lookup_singleton_eq|]. split.
    + unfold Sample.blobA, Sample.nonceA. rewrite length_app, length_replicate. lia.
    + apply (@decrypt_sealed Toy.crypto toy_crypto_spec). apply length_replicate.
  - unfold Sample.worldA. cbn [w_fs]. by rewrite lookup_singleton_ne.
  - reflexivity.
  - cbn. unfold NonceSize. lia.
  - exists w', jA, jB. repeat split; try done.
    eapply (Hne (mkAttachmentRow "att-0" "X" "note.txt" "text/plain" 2 [x68; x69] 3)
              (mkEntryRow "X" "2024-01-01" "first" 1 1)); [by left|by left|done].
Defined.

(** C3, as the spec has it, fails: when the history write fails after
    the attachment row has been written, [addAttachment] returns the
    error, the store has the new attachment row and no history row,
    and the entry in memory keeps the new record. *)
Lemma addAttachment_history_failure_keeps_attachment :
  exists m' w',
    @addAttachment Toy.crypto Toy.format Sample.attachmentModel Sample.photo 9 "att-1"
      Sample.worldHistoryFails = ((Some ErrIO, m'), w') /\
    w_fs w' !! Sample.path =
      Some (SqliteFile (Some (mkTables (entries Sample.tables) []
                                [attachment_row Sample.photoAttachment]))) /\
    ent_History (am_entry m') = [mkSaveRecord "first" 9 []].
Proof. eexists _, _. repeat split; vm_compute; reflexivity. Qed.

Lemma addAttachment_outcomes_witness :
  let res := @addAttachment Toy.crypto Toy.format Sample.attachmentModel Sample.photo 9 "att-1"
               (Sample.worldPhoto []) in
  res.1.1 = None /\
  @store_holds Toy.crypto Toy.format false "" (w_fs res.2 !! Sample.path)
    (mkTables (entries Sample.tables)
       [history_row "X" (mkSaveRecord "first" 9 [])]
       [attachment_row Sample.photoAttachment]).
Proof.
  intros res.
  destruct (@addAttachment_outcomes Toy.crypto toy_crypto_spec Toy.format toy_format_spec
              Sample.attachmentModel Sample.photo Sample.photo [x89; x50; x4e; x47] 9 "att-1"
              Sample.tables (Sample.worldPhoto [])) as (_ & Hok & Hnone).
  - reflexivity.
  - reflexivity.
  - reflexivity.
  - discriminate.
  - reflexivity.
  - assert (Hn : res.1.1 = None).
    { apply Hnone; [reflexivity| |].
      - intros x Hx. by apply elem_of_nil in Hx.
      - discriminate. }
    split; [exact Hn|]. by apply Hok in Hn as (_ & _ & _ & Hh).
Defined.

(** * More properties of the code *)

(** ** File names of a history record, joined and split *)

Lemma Split_cons (c : ascii) (r : string) (sep : ascii) :
  strings_Split (String c r) sep =
    if decide (c = sep) then "" :: strings_Split r sep
    else match strings_Split r sep with
         | x :: xs => String c x :: xs
         | [] => [String c ""]
         end.
Proof. reflexivity. Qed.

Lemma Split_no_bar (x : string) :
  "|"%char ∉ list_ascii_of_string x -> strings_Split x "|" = [x].
Proof.
  induction x as [|c x IH]; [done|]. cbn [list_ascii_of_string]. intros Hn.
  apply not_elem_of_cons in Hn as [Hc Hx].
  rewrite Split_cons, decide_False by congruence. by rewrite IH.
Qed.

Lemma Split_app_bar (x s : string) :
  "|"%char ∉ list_ascii_of_string x ->
  strings_Split (x ++ String "|" s)%string "|" = x :: strings_Split s "|".
Proof.
  induction x as [|c x IH].
  - intros _. change ("" ++ String "|" s)%string with (String "|" s).
    by rewrite Split_cons, decide_True.
  - cbn [list_ascii_of_string]. intros Hn.
    change (String c x ++ String "|" s)%string with (String c (x ++ String "|" s)).
    apply not_elem_of_cons in Hn as [Hc Hx].
    rewrite Split_cons, decide_False by congruence. by rewrite IH.
Qed.

Lemma Split_nonempty (s : string) : strings_Split s "|" <> [].
Proof.
  induction s as [|c s IH]; [done|]. rewrite Split_cons.
  case_decide; [done|]. by destruct (strings_Split s "|").
Qed.

Lemma Split_elems_no_bar (s : string) :
  forall y, y ∈ strings_Split s "|" -> "|"%char ∉ list_ascii_of_string y.
Proof.
  induction s as [|c s IH].
  - intros y ->%list_elem_of_singleton. apply not_elem_of_nil.
  - rewrite Split_cons. case_decide as Hc.
    + intros y [->|Hy]%elem_of_cons; [apply not_elem_of_nil|by apply IH].
    + destruct (strings_Split s "|") as [|x xs] eqn:Hs.
      * intros y ->%list_elem_of_singleton. cbn [list_ascii_of_string].
        apply not_elem_of_cons. split; [congruence|apply not_elem_of_nil].
      * intros y [->|Hy]%elem_of_cons.
        -- cbn [list_ascii_of_string].
           apply not_elem_of_cons. split; [congruence|]. apply IH. by left.
        -- apply IH. by right.
Qed.

Lemma Split_Join (names : list string) :
  (forall n, n ∈ names -> "|"%char ∉ list_ascii_of_string n) ->
  names <> [] ->
  strings_Split (strings_Join names "|") "|" = names.
Proof.
  induction names as [|x rest IH]; [done|]. intros Hn _.
  destruct rest as [|y rest].
  - cbn. apply Split_no_bar, Hn. by left.
  - change (strings_Join (x :: y :: rest) "|")
      with (x ++ String "|" (strings_Join (y :: rest) "|"))%string.
    rewrite Split_app_bar by (apply Hn; by left).
    f_equal. apply IH; [|done]. intros n Hin. apply Hn. by right.
Qed.

Lemma Join_empty (names : list string) :
  strings_Join names "|" = "" -> names = [] \/ names = [""].
Proof.
  destruct names as [|x [|y rest]]; [by left| |].
  - cbn. intros ->. by right.
  - change (strings_Join (x :: y :: rest) "|")
      with (x ++ String "|" (strings_Join (y :: rest) "|"))%string.
    by destruct x.
Qed.

(** X1. A history record written by [saveJournalToDB] or
    [AddHistoryRecord] and read back by [loadJournalFromDB] is the
    record that was written exactly when none of its attachment file
    names holds a bar and the list is not the one empty name. *)
Theorem history_record_roundtrip `{F : SqliteFormat} (entryID : string) (R : SaveRecord) :
  history_of (mkTables [] [history_row entryID R] []) entryID = [R]
  <-> names_ok (rec_Attachments R).
Proof.
  unfold history_of. cbn. rewrite decide_True by done. cbn.
  destruct R as [content saved names]. cbn. split.
  - intros [= Hd]. split.
    + intros n Hn. case_decide as He; [rewrite <- Hd in Hn; by apply elem_of_nil in Hn|].
      rewrite <- Hd in Hn. by apply Split_elems_no_bar in Hn.
    + intros ->. cbn in Hd. done.
  - intros [Hbar Hne]. do 2 f_equal. case_decide as He.
    + apply Join_empty in He as [->| ->]; done.
    + apply Split_Join; [done|]. intros ->. by apply He.
Qed.

(** ** Saving a journal and loading it again *)

Lemma insert_desc_map {A B} (f : A -> B) (before : A -> A -> bool) (before' : B -> B -> bool)
    (x : A) (l : list A) :
  (forall a b, before' (f a) (f b) = before a b) ->
  insert_desc before' (f x) (map f l) = map f (insert_desc before x l).
Proof.
  intros Hb. induction l as [|y l IH]; [done|]. cbn. rewrite Hb.
  destruct (before x y); [done|]. cbn. by rewrite IH.
Qed.

Lemma sort_desc_map {A B} (f : A -> B) (before : A -> A -> bool) (before' : B -> B -> bool)
    (l : list A) :
  (forall a b, before' (f a) (f b) = before a b) ->
  sort_desc before' (map f l) = map f (sort_desc before l).
Proof.
  intros Hb. induction l as [|x l IH]; [done|]. cbn.
  fold (sort_desc before' (map f l)). fold (sort_desc before l).
  rewrite IH. by apply insert_desc_map.
Qed.

(** Records with new keys are all written, in their order. *)
Lemma saveHistory_exact entryID records : forall t w,
  w_faults w = [] ->
  NoDup (map rec_SavedAt records) ->
  (forall r, r ∈ records -> (entryID, rec_SavedAt r) ∉ history_keys t) ->
  saveHistory entryID records (Some t) w =
    (Ok (Some (mkTables (entries t) (history t ++ map (history_row entryID) records)
                 (attachments t))), w).
Proof.
  induction records as [|r rest IH]; intros t w Hf Hnd Hnew; cbn [saveHistory map].
  - rewrite app_nil_r. by destruct t.
  - apply NoDup_cons in Hnd as [Hr Hnd].
    rewrite decide_True by (apply count_history_zero, Hnew; by left).
    unfold bind. rewrite exec_no_fault by done. cbn [insert_history onTables].
    rewrite IH; [|done|done|].
    + cbn [entries history attachments]. by rewrite <- app_assoc.
    + intros r' Hr'. unfold history_keys. cbn [history]. rewrite map_app.
      apply not_elem_of_app. split; [apply Hnew; by right|].
      cbn. intros [= Heq]%list_elem_of_singleton. apply Hr.
      rewrite <- Heq. by apply list_elem_of_fmap_2.
Qed.

(** Entries that clash with no row and with each other are all
    written, each followed by its history. *)
Lemma saveEntries_exact es : forall t w,
  w_faults w = [] ->
  NoDup (map ent_ID es) ->
  NoDup (map ent_Date es) ->
  (forall e r, e ∈ es -> r ∈ entries t -> er_id r <> ent_ID e /\ er_date r <> ent_Date e) ->
  (forall e h, e ∈ es -> h ∈ history t -> hr_entry_id h <> ent_ID e) ->
  (forall e, e ∈ es -> NoDup (map rec_SavedAt (ent_History e))) ->
  saveEntries es (Some t) w =
    (Ok (Some (mkTables (entries t ++ map entry_row es)
                 (history t ++
                  concat (map (fun e => map (history_row (ent_ID e)) (ent_History e)) es))
                 (attachments t))), w).
Proof.
  induction es as [|e rest IH]; intros t w Hf Hid Hdate Hrows Hhist Hrec;
    cbn [saveEntries map concat].
  - rewrite !app_nil_r. by destruct t.
  - apply NoDup_cons in Hid as [Hid1 Hid]. apply NoDup_cons in Hdate as [Hdate1 Hdate].
    unfold bind. rewrite exec_no_fault by done.
    cbn [insert_or_replace_entry onTables].
    rewrite filter_all by (intros r Hr; cbn; apply Hrows; [by left|done]).
    rewrite saveHistory_exact; [|done|apply Hrec; by left|].
    2: { intros r Hr. unfold history_keys. cbn [history].
         intros (h & [= Hh _] & Hin)%list_elem_of_fmap.
         by apply (Hhist e h); [left| |]. }
    cbn [entries history attachments].
    rewrite IH; [|done|done|done| | |].
    + cbn [entries history attachments]. by rewrite <- !app_assoc.
    + intros e' r He' [Hr| ->%list_elem_of_singleton]%elem_of_app.
      * apply Hrows; [by right|done].
      * cbn. split.
        -- intros Heq. apply Hid1. rewrite Heq. by apply list_elem_of_fmap_2.
        -- intros Heq. apply Hdate1. rewrite Heq. by apply list_elem_of_fmap_2.
    + intros e' h He' [Hh|Hh]%elem_of_app.
      * apply Hhist; [by right|done].
      * apply list_elem_of_fmap in Hh as (r & -> & _). cbn.
        intros Heq. apply Hid1. rewrite Heq. by apply list_elem_of_fmap_2.
    + intros e' He'. apply Hrec. by right.
Qed.

Lemma filter_none {A} (P : A -> Prop) `{forall x, Decision (P x)} (l : list A) :
  (forall x, x ∈ l -> ~ P x) -> filter P l = [].
Proof.
  induction l as [|x l IH]; intros Hl; [done|]. cbn.
  rewrite decide_False by (apply Hl; by left).
  apply IH. intros y Hy. apply Hl. by right.
Qed.

Lemma filter_history_rows es : forall e,
  NoDup (map ent_ID es) ->
  e ∈ es ->
  filter (fun h => hr_entry_id h = ent_ID e)
    (concat (map (fun e' => map (history_row (ent_ID e')) (ent_History e')) es))
  = map (history_row (ent_ID e)) (ent_History e).
Proof.
  induction es as [|e0 rest IH]; intros e Hnd He; [by apply elem_of_nil in He|].
  apply NoDup_cons in Hnd as [Hn0 Hnd]. cbn [map concat]. rewrite filter_app.
  assert (Hall : forall e1 : Entry,
            filter (fun h => hr_entry_id h = ent_ID e1)
              (map (history_row (ent_ID e1)) (ent_History e1))
            = map (history_row (ent_ID e1)) (ent_History e1)).
  { intros e1. apply filter_all. by intros h (r & -> & _)%list_elem_of_fmap. }
  assert (Hnone : forall (e1 : Entry) l,
            (forall e', e' ∈ l -> ent_ID e' <> ent_ID e1) ->
            filter (fun h => hr_entry_id h = ent_ID e1)
              (concat (map (fun e' => map (history_row (ent_ID e')) (ent_History e')) l))
            = []).
  { intros e1 l Hl. induction l as [|e' l IHl]; [done|]. cbn [map concat].
    rewrite filter_app, IHl by (intros e2 H2; apply Hl; by right).
    rewrite app_nil_r. apply filter_none. intros h (r & -> & _)%list_elem_of_fmap.
    cbn. apply Hl. by left. }
  apply elem_of_cons in He as [->|He].
  - rewrite Hall, Hnone; [by rewrite app_nil_r|].
    intros e' He' Heq. apply Hn0. rewrite <- Heq. by apply list_elem_of_fmap_2.
  - rewrite IH by done.
    replace (filter _ (map (history_row (ent_ID e0)) (ent_History e0))) with (@nil HistoryRow);
      [done|].
    symmetry. apply filter_none. intros h (r & -> & _)%list_elem_of_fmap. cbn.
    intros Heq. apply Hn0. rewrite Heq. by apply list_elem_of_fmap_2.
Qed.

Section RoundTrip.
Context {C : GoCrypto} {CS : GoCryptoSpec C} {F : SqliteFormat} {FS : SqliteFormatSpec F}.

Lemma decode_history_row entryID (r : SaveRecord) :
  names_ok (rec_Attachments r) ->
  mkSaveRecord (hr_content (history_row entryID r)) (hr_saved_at (history_row entryID r))
    (if decide (hr_attachment_names (history_row entryID r) = "") then []
     else strings_Split (hr_attachment_names (history_row entryID r)) "|") = r.
Proof.
  intros [Hbar Hne]. destruct r as [content saved names]. cbn in *. f_equal.
  case_decide as He.
  - apply Join_empty in He as [->| ->]; done.
  - apply Split_Join; [done|]. intros ->. by apply He.
Qed.

Lemma loadJournalFromDB_saved (journal : Journal) :
  journal_ok journal ->
  loadJournalFromDB (Ok (Some (saved_tables journal))) =
    Ok (mkJournal (map as_loaded (sort_desc entry_before (Entries journal)))).
Proof.
  intros (Hid & Hdate & Hrec). unfold loadJournalFromDB, saved_tables. cbn [entries].
  rewrite (sort_desc_map entry_row entry_before date_before) by done.
  do 2 f_equal. rewrite <- list_fmap_compose. apply list_fmap_ext.
  intros i e He. apply list_elem_of_lookup_2 in He. rewrite sort_desc_perm in He.
  unfold compose, entry_row, as_loaded.
  cbn [er_id er_date er_content er_created_at er_updated_at]. f_equal.
  unfold history_of. cbn [history].
  rewrite filter_history_rows by done.
  rewrite (sort_desc_map (history_row (ent_ID e)) record_before saved_before) by done.
  rewrite <- list_fmap_compose.
  rewrite <- (list_fmap_id (sort_desc record_before (ent_History e))) at 2.
  apply list_fmap_ext. intros k r Hr. apply list_elem_of_lookup_2 in Hr.
  rewrite sort_desc_perm in Hr. unfold compose, id. apply decode_history_row.
  by apply (Hrec e He).
Qed.

Lemma saveJournalToDB_empty (journal : Journal) (w : World) :
  w_faults w = [] ->
  journal_ok journal ->
  saveJournalToDB (Ok (Some emptyTables)) journal w = (Ok (Some (saved_tables journal)), w).
Proof.
  intros Hf (Hid & Hdate & Hrec). unfold saveJournalToDB, bind, lift, ret.
  rewrite saveEntries_exact; try done.
  - by rewrite tick_no_fault.
  - intros e r _ Hr. by apply elem_of_nil in Hr.
  - intros e h _ Hh. by apply elem_of_nil in Hh.
  - intros e He. by apply Hrec.
Qed.

Lemma db_Exec_new p stmt d' w :
  w_fs w !! p = None ->
  w_faults w = [] ->
  stmt None = Ok d' ->
  db_Exec p stmt w = (Ok tt, with_file w p (SqliteFile d')).
Proof.
  intros Hf Hn Hs. unfold db_Exec, db_conn. unfold bind at 1. unfold bind at 1, get_fs at 1.
  rewrite Hf. unfold bind at 1, put_file at 1, ret at 1. cbn [conn_of].
  unfold bind. rewrite exec_no_fault by done. rewrite Hs.
  unfold put_file, with_file. cbn [w_fs w_home w_rand w_faults].
  by rewrite insert_insert_eq.
Qed.

(** X2. Saving a journal to a path where there is no file, and
    loading that path, gives the journal back: the same entries with
    the same fields, newest date first, each with its records newest
    save first, and with no attachment list.  The journal has unique
    ids and dates, and per entry unique save times and file names
    without a bar. *)
Theorem SaveJournal_LoadJournal_roundtrip (journal : Journal) (path : string) (w : World) :
  strings_HasPrefix path "~/" = false ->
  w_fs w !! path = None ->
  w_faults w = [] ->
  journal_ok journal ->
  exists w',
    SaveJournal journal path w = (Ok tt, w') /\
    LoadJournal path w' =
      (Ok (mkJournal (map as_loaded (sort_desc entry_before (Entries journal)))), w').
Proof.
  intros Hp Hnone Hf Hok.
  exists (with_file w path (SqliteFile (Some (saved_tables journal)))). split.
  - unfold SaveJournal, openDB. rewrite ExpandPath_plain by done.
    unfold bind at 1, ret at 1. unfold bind at 1.
    rewrite (db_Exec_new path initSchema (Some emptyTables) w) by done.
    unfold bind at 1.
    rewrite (db_conn_present path (SqliteFile (Some emptyTables)))
      by (unfold with_file; cbn [w_fs]; apply lookup_insert_eq).
    unfold bind at 1. cbn [conn_of].
    rewrite saveJournalToDB_empty by done.
    unfold put_file, with_file. cbn [w_fs w_home w_rand w_faults].
    by rewrite insert_insert_eq.
  - unfold LoadJournal, openDB. rewrite ExpandPath_plain by done.
    unfold bind at 1, ret at 1. unfold bind at 1, get_fs at 1.
    unfold with_file at 1. cbn [w_fs]. rewrite lookup_insert_eq.
    unfold bind at 1, ret at 1. unfold db_Query, bind.
    rewrite (db_conn_present path (SqliteFile (Some (saved_tables journal))))
      by (unfold with_file; cbn [w_fs]; apply lookup_insert_eq).
    unfold lift. cbn [conn_of]. by rewrite loadJournalFromDB_saved.
Qed.

(** X3. The same round trip through the encryption envelope:
    [SaveJournalEncrypted] and then [LoadJournalEncrypted] with the
    same password give the journal back, whatever file was at the
    path before. *)
Theorem SaveJournalEncrypted_LoadJournalEncrypted_roundtrip (journal : Journal)
    (path password : string) (w : World) :
  strings_HasPrefix path "~/" = false ->
  w_fs w !! path <> Some Directory ->
  w_faults w = [] ->
  (NonceSize <= length (w_rand w))%nat ->
  journal_ok journal ->
  exists w',
    SaveJournalEncrypted journal path password w = (Ok tt, w') /\
    store_holds true password (w_fs w' !! path) (saved_tables journal) /\
    LoadJournalEncrypted path password w' =
      (Ok (mkJournal (map as_loaded (sort_desc entry_before (Entries journal)))), w').
Proof.
  intros Hp Hdir Hf Hr Hok.
  set (nonce := take NonceSize (w_rand w)).
  set (blob := nonce ++ gcm_Seal (deriveKey password) nonce
                          (sqlite_image (Some (saved_tables journal)))).
  set (w' := with_file (mkWorld (w_fs w) (w_home w) (drop NonceSize (w_rand w)) (w_faults w))
               path (RawFile blob)).
  assert (Hh : store_holds true password (w_fs w' !! path) (saved_tables journal)).
  { exists blob. unfold w', with_file. cbn [w_fs]. rewrite lookup_insert_eq.
    split; [done|]. split.
    - unfold blob, nonce. rewrite length_app, length_take. unfold NonceSize in *. lia.
    - apply decrypt_sealed. unfold nonce. rewrite length_take. lia. }
  exists w'. split; [|split; [done|]].
  - unfold SaveJournalEncrypted. rewrite ExpandPath_plain by done.
    unfold bind at 1, ret at 1. unfold bind at 1.
    rewrite exec_no_fault by done. cbn [initSchema].
    unfold bind at 1. rewrite saveJournalToDB_empty by done.
    unfold bind at 1. rewrite encrypt_ok by done.
    by rewrite os_WriteFile_no_fault.
  - rewrite (LoadJournalEncrypted_holds path password (saved_tables journal) w' Hp Hh).
    by rewrite loadJournalFromDB_saved.
Qed.

End RoundTrip.

(** ** Single operations on a database file *)

Section PlainStore.
Context {F : SqliteFormat}.

Lemma DeleteEntry_fs path entryID t w r w' :
  strings_HasPrefix path "~/" = false ->
  w_fs w !! path = Some (SqliteFile (Some t)) ->
  DeleteEntry path entryID w = (r, w') ->
  match r with
  | Ok _ =>
    w_fs w' =
      <[path := SqliteFile (Some (mkTables
           (filter (fun e => er_id e <> entryID) (entries t))
           (filter (fun h => hr_entry_id h <> entryID) (history t))
           (filter (fun a => ar_entry_id a <> entryID) (attachments t))))]> (w_fs w)
  | Err _ => w_fs w' = w_fs w
  end.
Proof.
  intros Hp Hf. unfold DeleteEntry, openDB. rewrite ExpandPath_plain by done.
  unfold bind at 1, ret at 1. unfold bind at 1.
  rewrite (db_conn_present path _ w Hf). cbn [conn_of].
  unfold bind at 1.
  destruct (exec _ _ w) as [[d1|e] w1] eqn:H1.
  2: { apply exec_fs in H1 as [? _]. by intros [= <- <-]. }
  pose proof (exec_fs _ _ _ _ _ H1) as [Hfs1 _].
  apply exec_inv in H1 as (d & [= <-] & [= <-] & _).
  unfold bind at 1.
  destruct (exec _ _ w1) as [[d2|e] w2] eqn:H2.
  2: { apply exec_fs in H2 as [? _]. intros [= <- <-]. congruence. }
  pose proof (exec_fs _ _ _ _ _ H2) as [Hfs2 _].
  apply exec_inv in H2 as (d & [= <-] & [= <-] & _).
  unfold bind at 1.
  destruct (exec _ _ w2) as [[d3|e] w3] eqn:H3.
  2: { apply exec_fs in H3 as [? _]. intros [= <- <-]. congruence. }
  pose proof (exec_fs _ _ _ _ _ H3) as [Hfs3 _].
  apply exec_inv in H3 as (d & [= <-] & [= <-] & _).
  unfold bind at 1.
  destruct (tick w3) as [[[]|e] w4] eqn:H4; apply tick_fs in H4 as [Hfs4 _].
  - unfold put_file. intros [= <- <-]. cbn [w_fs entries history attachments].
    congruence.
  - intros [= <- <-]. congruence.
Qed.

Lemma DeleteEntry_no_fault path entryID t w :
  strings_HasPrefix path "~/" = false ->
  w_fs w !! path = Some (SqliteFile (Some t)) ->
  w_faults w = [] ->
  exists w', DeleteEntry path entryID w = (Ok tt, w').
Proof.
  intros Hp Hf Hn. unfold DeleteEntry, openDB. rewrite ExpandPath_plain by done.
  unfold bind at 1, ret at 1. unfold bind at 1.
  rewrite (db_conn_present path _ w Hf). cbn [conn_of].
  unfold bind. repeat (rewrite exec_no_fault by done; cbn -[filter]).
  rewrite tick_no_fault by done. by eexists.
Qed.

(** X4. [DeleteEntry] is all or nothing.  When it succeeds, the rows
    of the entry are gone from all three tables and every other row
    is kept in place; when it fails at any statement or at the
    commit, the file system is as it was.  Without a fault it
    succeeds. *)
Theorem DeleteEntry_cascade (path entryID : string) (t : Tables) (w : World) :
  strings_HasPrefix path "~/" = false ->
  w_fs w !! path = Some (SqliteFile (Some t)) ->
  (forall r w', DeleteEntry path entryID w = (r, w') ->
     match r with
     | Ok _ =>
       w_fs w' =
         <[path := SqliteFile (Some (mkTables
              (filter (fun e => er_id e <> entryID) (entries t))
              (filter (fun h => hr_entry_id h <> entryID) (history t))
              (filter (fun a => ar_entry_id a <> entryID) (attachments t))))]> (w_fs w)
     | Err _ => w_fs w' = w_fs w
     end) /\
  (w_faults w = [] -> exists w', DeleteEntry path entryID w = (Ok tt, w')).
Proof.
  intros Hp Hf. split.
  - intros r w'. by apply (DeleteEntry_fs path entryID t).
  - by apply (DeleteEntry_no_fault path entryID t).
Qed.

Lemma saveHistory_fs entryID records : forall d w r w',
  saveHistory entryID records d w = (r, w') -> w_fs w' = w_fs w.
Proof.
  induction records as [|rec rest IH]; intros d w r w'; cbn [saveHistory].
  - unfold ret. by intros [= _ <-].
  - case_decide; [|apply IH]. unfold bind.
    destruct (exec _ _ w) as [[d1|e] w1] eqn:H1; apply exec_fs in H1 as [H1 _].
    + intros Hr. apply IH in Hr. congruence.
    + by intros [= _ <-].
Qed.

Lemma saveEntries_fs es : forall d w r w',
  saveEntries es d w = (r, w') -> w_fs w' = w_fs w.
Proof.
  induction es as [|e rest IH]; intros d w r w'; cbn [saveEntries].
  - unfold ret. by intros [= _ <-].
  - unfold bind at 1.
    destruct (exec _ _ w) as [[d1|err] w1] eqn:H1; apply exec_fs in H1 as [H1 _].
    2: { by intros [= _ <-]. }
    unfold bind at 1.
    destruct (saveHistory _ _ d1 w1) as [[d2|err] w2] eqn:H2; apply saveHistory_fs in H2.
    + intros Hr. apply IH in Hr. congruence.
    + intros [= _ <-]. congruence.
Qed.

Lemma saveJournalToDB_fs c journal w r w' :
  saveJournalToDB c journal w = (r, w') -> w_fs w' = w_fs w.
Proof.
  unfold saveJournalToDB, bind, lift, ret. destruct c as [d|e]; [|by intros [= _ <-]].
  destruct (saveEntries _ d w) as [[d1|err] w1] eqn:H1; apply saveEntries_fs in H1.
  - destruct (tick w1) as [[[]|err] w2] eqn:H2; apply tick_fs in H2 as [H2 _];
      intros [= _ <-]; congruence.
  - intros [= _ <-]. congruence.
Qed.

(** An entry row that clashes with no entry of the journal stays. *)
Lemma saveEntries_keeps_row es : forall t w t' w' row,
  saveEntries es (Some t) w = (Ok (Some t'), w') ->
  row ∈ entries t ->
  (forall e, e ∈ es -> er_id row <> ent_ID e /\ er_date row <> ent_Date e) ->
  row ∈ entries t'.
Proof.
  induction es as [|e rest IH]; intros t w t' w' row; cbn [saveEntries].
  - unfold ret. by intros [= <- <-].
  - unfold bind at 1. destruct (exec _ _ w) as [[d1|err] w1] eqn:H1; [|discriminate].
    apply exec_inv in H1 as (d0 & [= <-] & [= <-] & _).
    unfold bind at 1. destruct (saveHistory _ _ _ w1) as [[d2|err] w2] eqn:H2; [|discriminate].
    apply saveHistory_inv in H2 as (t2 & -> & He2 & _).
    intros Hrest Hrow Hno. eapply IH; [exact Hrest| |].
    + rewrite He2. cbn [entries]. apply elem_of_app. left.
      apply list_elem_of_filter. split; [|done]. apply Hno. by left.
    + intros e' He'. apply Hno. by right.
Qed.

(** X5. [SaveJournal] on a database file deletes no history row and
    touches no attachment row: after a save that succeeds the
    attachments are the ones the file had and its history rows come
    first in the history table, and an entry row whose id and date
    are those of no entry of the journal is still there.  After a
    save that fails the file system is as it was. *)
Theorem SaveJournal_keeps_rows (journal : Journal) (path : string) (t : Tables) (w : World) :
  strings_HasPrefix path "~/" = false ->
  w_fs w !! path = Some (SqliteFile (Some t)) ->
  forall r w', SaveJournal journal path w = (r, w') ->
    match r with
    | Ok _ =>
      exists t',
        w_fs w' = <[path := SqliteFile (Some t')]> (w_fs w) /\
        attachments t' = attachments t /\
        (exists added, history t' = history t ++ added) /\
        (forall row, row ∈ entries t ->
           (forall e, e ∈ Entries journal ->
              er_id row <> ent_ID e /\ er_date row <> ent_Date e) ->
           row ∈ entries t')
    | Err _ => w_fs w' = w_fs w
    end.
Proof.
  intros Hp Hf r w'. unfold SaveJournal, openDB. rewrite ExpandPath_plain by done.
  unfold bind at 1, ret at 1. unfold bind at 1.
  destruct (db_Exec path initSchema w) as [[[]|e] w1] eqn:H1.
  2: { apply (db_Exec_inv _ _ _ _ _ _ Hf) in H1. by intros [= <- <-]. }
  apply (db_Exec_inv _ _ _ _ _ _ Hf) in H1 as (d1 & [= <-] & Hfs1).
  assert (Hid : w_fs w1 = w_fs w) by (rewrite Hfs1; by apply insert_id).
  assert (Hf1 : w_fs w1 !! path = Some (SqliteFile (Some t))) by (by rewrite Hid).
  unfold bind at 1. rewrite (db_conn_present path _ w1 Hf1). cbn [conn_of].
  unfold bind at 1.
  destruct (saveJournalToDB _ journal w1) as [[d2|e] w2] eqn:H2.
  - pose proof (saveJournalToDB_fs _ _ _ _ _ H2) as Hfs2.
    unfold saveJournalToDB, bind, lift, ret in H2.
    destruct (saveEntries _ _ w1) as [[d3|e] w3] eqn:H3; [|discriminate].
    destruct (tick w3) as [[[]|e] w4]; [|discriminate]. injection H2 as -> ->.
    pose proof (saveEntries_inv _ _ _ _ _ H3) as (t2 & -> & Ha2 & Hh2 & _).
    unfold put_file. intros [= <- <-]. exists t2. cbn [w_fs].
    split; [congruence|]. split; [done|]. split; [done|].
    intros row Hr Hno. by eapply saveEntries_keeps_row.
  - apply saveJournalToDB_fs in H2. intros [= <- <-]. congruence.
Qed.

End PlainStore.

(** ** Attachments in a database file *)

Lemma find_app_none {A} (f : A -> bool) (l l' : list A) :
  find f l = None -> find f (l ++ l') = find f l'.
Proof.
  induction l as [|x l IH]; [done|]. cbn. destruct (f x); [discriminate|]. apply IH.
Qed.

Lemma find_app_some {A} (f : A -> bool) (l l' : list A) x :
  find f l = Some x -> find f (l ++ l') = Some x.
Proof.
  induction l as [|y l IH]; [done|]. cbn. destruct (f y); [done|]. apply IH.
Qed.

Lemma attachment_of_row_row (a : Attachment) : attachment_of_row (attachment_row a) = a.
Proof. by destruct a. Qed.

Section PlainAttachments.
Context {F : SqliteFormat}.

Lemma GetAttachment_plain path attachmentID t w :
  strings_HasPrefix path "~/" = false ->
  w_fs w !! path = Some (SqliteFile (Some t)) ->
  GetAttachment path attachmentID w = (select_attachment attachmentID (Ok (Some t)), w).
Proof.
  intros Hp Hf. unfold GetAttachment, openDB. rewrite ExpandPath_plain by done.
  unfold bind at 1, ret at 1. unfold db_Query, bind.
  by rewrite (db_conn_present path _ w Hf).
Qed.

Lemma AddAttachment_fresh path (a : Attachment) t w :
  strings_HasPrefix path "~/" = false ->
  w_fs w !! path = Some (SqliteFile (Some t)) ->
  w_faults w = [] ->
  (forall x, x ∈ attachments t -> ar_id x <> att_ID a) ->
  let w' := with_file w path
              (SqliteFile (Some (mkTables (entries t) (history t)
                                   (attachments t ++ [attachment_row a])))) in
  AddAttachment path a w = (Ok tt, w') /\
  GetAttachment path (att_ID a) w' = (Ok a, w').
Proof.
  intros Hp Hf Hn Hfresh w'.
  assert (Hf' : w_fs w' !! path
                = Some (SqliteFile (Some (mkTables (entries t) (history t)
                                            (attachments t ++ [attachment_row a])))))
    by (unfold w', with_file; cbn [w_fs]; apply lookup_insert_eq).
  split.
  - rewrite AddAttachment_plain by done.
    apply (plain_write_no_fault _ _ t); [done|done|]. by apply insert_attachment_fresh.
  - rewrite (GetAttachment_plain path _ _ w' Hp Hf'). f_equal.
    unfold select_attachment. cbn [attachments].
    rewrite find_app_none.
    + cbn. rewrite bool_decide_eq_true_2 by done. f_equal.
      apply attachment_of_row_row.
    + apply find_none. intros x Hx. apply bool_decide_eq_false. by apply Hfresh.
Qed.

(** X6. An attachment added under a new id is what [GetAttachment]
    returns for that id, payload included, and the other ids are
    answered as before.  An id that the table already has is refused
    with a constraint error and the world stays as it was. *)
Theorem AddAttachment_GetAttachment (path : string) (a : Attachment) (t : Tables) (w : World) :
  strings_HasPrefix path "~/" = false ->
  w_fs w !! path = Some (SqliteFile (Some t)) ->
  w_faults w = [] ->
  ((forall x, x ∈ attachments t -> ar_id x <> att_ID a) ->
   exists w',
     AddAttachment path a w = (Ok tt, w') /\
     GetAttachment path (att_ID a) w' = (Ok a, w') /\
     forall id, id <> att_ID a ->
       (GetAttachment path id w').1 = (GetAttachment path id w).1) /\
  ((exists x, x ∈ attachments t /\ ar_id x = att_ID a) ->
   AddAttachment path a w = (Err ErrConstraint, w)).
Proof.
  intros Hp Hf Hn. split.
  - intros Hfresh.
    set (t' := mkTables (entries t) (history t) (attachments t ++ [attachment_row a])).
    exists (with_file w path (SqliteFile (Some t'))).
    assert (Hf' : w_fs (with_file w path (SqliteFile (Some t'))) !! path
                  = Some (SqliteFile (Some t')))
      by (unfold with_file; cbn [w_fs]; apply lookup_insert_eq).
    destruct (AddAttachment_fresh path a t w Hp Hf Hn Hfresh) as [Ha Hg].
    split; [exact Ha|]. split; [exact Hg|].
    intros id Hid. rewrite (GetAttachment_plain path _ t'), (GetAttachment_plain path _ t)
        by done.
      cbn [fst]. unfold select_attachment, t'. cbn [attachments].
      destruct (find _ (attachments t)) as [x|] eqn:Hfind.
      * by rewrite (find_app_some _ _ _ x).
      * rewrite find_app_none by done. cbn.
        by rewrite bool_decide_eq_false_2 by (cbn; congruence).
  - intros (x & Hx & Hid). rewrite AddAttachment_plain by done.
    unfold plain_write, bind.
    rewrite (db_Exec_ok path initSchema (Some t) (Some t) w) by done.
    rewrite world_insert_id by done.
    unfold db_Exec, bind. rewrite (db_conn_present path _ w Hf). cbn [conn_of].
    rewrite exec_no_fault by done. cbn [insert_attachment onTables].
    replace (existsb _ (attachments t)) with true; [done|].
    symmetry. apply existsb_exists. exists x. split; [by apply list_elem_of_In|].
    by apply bool_decide_eq_true.
Qed.

Lemma DeleteAttachment_plain path attachmentID t w :
  strings_HasPrefix path "~/" = false ->
  w_fs w !! path = Some (SqliteFile (Some t)) ->
  w_faults w = [] ->
  DeleteAttachment path attachmentID w =
    (Ok tt, with_file w path (SqliteFile (Some (mkTables (entries t) (history t)
              (filter (fun a => ar_id a <> attachmentID) (attachments t)))))).
Proof.
  intros Hp Hf Hn. unfold DeleteAttachment, openDB. rewrite ExpandPath_plain by done.
  unfold bind at 1, ret at 1. by erewrite db_Exec_ok.
Qed.

Lemma find_filter_ne (id id' : string) (l : list AttachmentRow) :
  id' <> id ->
  find (fun a => bool_decide (ar_id a = id')) (filter (fun a => ar_id a <> id) l)
  = find (fun a => bool_decide (ar_id a = id')) l.
Proof.
  intros Hne. induction l as [|x l IH]; [done|]. rewrite filter_cons.
  case_decide as Hx.
  - cbn [find]. by rewrite IH.
  - rewrite IH. cbn [find]. rewrite bool_decide_eq_false_2; [done|].
    intros Heq. apply Hne. congruence.
Qed.

(** X7. After [DeleteAttachment] the id is gone: [GetAttachment]
    answers [sql.ErrNoRows] for it, and answers every other id as
    before. *)
Theorem DeleteAttachment_GetAttachment (path id : string) (t : Tables) (w : World) :
  strings_HasPrefix path "~/" = false ->
  w_fs w !! path = Some (SqliteFile (Some t)) ->
  w_faults w = [] ->
  exists w',
    DeleteAttachment path id w = (Ok tt, w') /\
    GetAttachment path id w' = (Err ErrNoRows, w') /\
    forall id', id' <> id ->
      (GetAttachment path id' w').1 = (GetAttachment path id' w).1.
Proof.
  intros Hp Hf Hn. eexists. split; [by apply DeleteAttachment_plain|].
  set (t' := mkTables _ _ _).
  assert (Hf' : w_fs (with_file w path (SqliteFile (Some t'))) !! path
                = Some (SqliteFile (Some t')))
    by (unfold with_file; cbn [w_fs]; apply lookup_insert_eq).
  split.
  - rewrite (GetAttachment_plain path _ t') by done. f_equal.
    unfold select_attachment, t'. cbn [attachments].
    rewrite find_none; [done|].
    intros x [Hx _]%list_elem_of_filter. by apply bool_decide_eq_false.
  - intros id' Hne.
    rewrite (GetAttachment_plain path _ t'), (GetAttachment_plain path _ t) by done.
    cbn [fst]. unfold select_attachment, t'. cbn [attachments].
    by rewrite find_filter_ne.
Qed.

(** X8. Adding an attachment under a new id and deleting that id
    again leaves the world exactly as it was. *)
Theorem AddAttachment_DeleteAttachment (path : string) (a : Attachment) (t : Tables)
    (w : World) :
  strings_HasPrefix path "~/" = false ->
  w_fs w !! path = Some (SqliteFile (Some t)) ->
  w_faults w = [] ->
  (forall x, x ∈ attachments t -> ar_id x <> att_ID a) ->
  exists w',
    AddAttachment path a w = (Ok tt, w') /\
    DeleteAttachment path (att_ID a) w' = (Ok tt, w).
Proof.
  intros Hp Hf Hn Hfresh.
  set (t' := mkTables (entries t) (history t) (attachments t ++ [attachment_row a])).
  exists (with_file w path (SqliteFile (Some t'))). split.
  - rewrite AddAttachment_plain by done.
    apply (plain_write_no_fault _ _ t); [done|done|]. by apply insert_attachment_fresh.
  - rewrite (DeleteAttachment_plain path _ t')
      by (try done; unfold with_file; cbn [w_fs]; apply lookup_insert_eq).
    f_equal. unfold t', with_file. cbn [w_fs w_home w_rand w_faults entries history attachments].
    rewrite insert_insert_eq, filter_app, filter_all by done.
    cbn. rewrite decide_False by (intros Hne; by apply Hne).
    rewrite app_nil_r.
    replace (mkTables (entries t) (history t) (attachments t)) with t by (by destruct t).
    rewrite insert_id by done. by destruct w.
Qed.

(** X9. [GetEntryAttachments] returns, with their payload, exactly
    the attachments that [LoadJournal] lists for the entry, in the
    same order; it changes nothing. *)
Theorem GetEntryAttachments_as_listed (path entryID : string) (t : Tables) (w : World) :
  strings_HasPrefix path "~/" = false ->
  w_fs w !! path = Some (SqliteFile (Some t)) ->
  exists l,
    GetEntryAttachments path entryID w = (Ok l, w) /\
    map metadata l = attachments_of t entryID /\
    map att_Data l = map ar_data (filter (fun a => ar_entry_id a = entryID) (attachments t)).
Proof.
  intros Hp Hf. eexists. split; [|split].
  - unfold GetEntryAttachments, openDB. rewrite ExpandPath_plain by done.
    unfold bind at 1, ret at 1. unfold db_Query, bind.
    rewrite (db_conn_present path _ w Hf). reflexivity.
  - unfold attachments_of. rewrite <- list_fmap_compose. apply list_fmap_ext.
    intros i a Ha. apply list_elem_of_lookup_2, list_elem_of_filter in Ha as [Ha _].
    unfold compose, metadata, attachment_of_row. cbn. by rewrite Ha.
  - rewrite <- list_fmap_compose. by apply list_fmap_ext.
Qed.

(** X10. [CreateEmptyJournal] is safe on a store that is there: it
    leaves the world as it was.  At a path with no file it makes a
    database that loads as the empty journal. *)
Theorem CreateEmptyJournal_idempotent (path : string) (w : World) :
  strings_HasPrefix path "~/" = false ->
  w_faults w = [] ->
  (forall t, w_fs w !! path = Some (SqliteFile (Some t)) ->
     CreateEmptyJournal path w = (Ok tt, w)) /\
  (w_fs w !! path = None ->
   exists w',
     CreateEmptyJournal path w = (Ok tt, w') /\
     w_fs w' !! path = Some (SqliteFile (Some emptyTables)) /\
     LoadJournal path w' = (Ok (mkJournal []), w')).
Proof.
  intros Hp Hn. split.
  - intros t Hf. unfold CreateEmptyJournal, openDB. rewrite ExpandPath_plain by done.
    unfold bind at 1, ret at 1.
    rewrite (db_Exec_ok path initSchema (Some t) (Some t) w) by done.
    by rewrite world_insert_id.
  - intros Hf. exists (with_file w path (SqliteFile (Some emptyTables))).
    assert (Hf' : w_fs (with_file w path (SqliteFile (Some emptyTables))) !! path
                  = Some (SqliteFile (Some emptyTables)))
      by (unfold with_file; cbn [w_fs]; apply lookup_insert_eq).
    split; [|split; [done|]].
    + unfold CreateEmptyJournal, openDB. rewrite ExpandPath_plain by done.
      unfold bind at 1, ret at 1. by apply db_Exec_new.
    + unfold LoadJournal, openDB. rewrite ExpandPath_plain by done.
      unfold bind at 1, ret at 1. unfold bind at 1, get_fs at 1. rewrite Hf'.
      unfold bind at 1, ret at 1. unfold db_Query, bind.
      by rewrite (db_conn_present path _ _ Hf').
Qed.

(** X11. What is attached is what is exported: after [AddAttachment]
    under a new id, [ExportAttachment] of that id writes the bytes of
    the attachment to the destination, or into it under the file name
    of the attachment when the destination is a directory, replacing
    whatever file was there. *)
Theorem AddAttachment_ExportAttachment (path dest : string) (a : Attachment) (t : Tables)
    (w : World) :
  let target := match w_fs w !! dest with
                | Some Directory => filepath_Join dest (att_Filename a)
                | _ => dest
                end in
  strings_HasPrefix path "~/" = false ->
  strings_HasPrefix dest "~/" = false ->
  w_fs w !! path = Some (SqliteFile (Some t)) ->
  w_faults w = [] ->
  (forall x, x ∈ attachments t -> ar_id x <> att_ID a) ->
  dest <> path ->
  w_fs w !! target <> Some Directory ->
  exists w' w'',
    AddAttachment path a w = (Ok tt, w') /\
    ExportAttachment path (att_ID a) dest w' = (Ok tt, w'') /\
    w_fs w'' !! target = Some (RawFile (att_Data a)).
Proof.
  intros target Hp Hd Hf Hn Hfresh Hne Hdir.
  destruct (AddAttachment_fresh path a t w Hp Hf Hn Hfresh) as [Ha Hg].
  set (w' := with_file w path
               (SqliteFile (Some (mkTables (entries t) (history t)
                                    (attachments t ++ [attachment_row a]))))) in *.
  assert (Hw' : w' = with_file w path
                  (SqliteFile (Some (mkTables (entries t) (history t)
                                       (attachments t ++ [attachment_row a]))))) by done.
  assert (Hdest : w_fs w' !! dest = w_fs w !! dest).
  { rewrite Hw'. unfold with_file. cbn [w_fs]. by rewrite lookup_insert_ne. }
  exists w', (with_file w' target (RawFile (att_Data a))). split; [done|]. split.
  - unfold ExportAttachment. unfold bind at 1. rewrite Hg.
    rewrite ExpandPath_plain by done. unfold bind at 1, ret at 1.
    unfold bind at 1, get_fs at 1. rewrite Hdest. fold target.
    apply os_WriteFile_no_fault.
    + rewrite Hw'. done.
    + rewrite Hw'. unfold with_file. cbn [w_fs].
      destruct (decide (target = path)) as [->|Htp].
      * by rewrite lookup_insert_eq.
      * by rewrite lookup_insert_ne.
  - unfold with_file. cbn [w_fs]. apply lookup_insert_eq.
Qed.

End PlainAttachments.

(** ** Through the encryption envelope *)

Section SealedStore.
Context {C : GoCrypto} {CS : GoCryptoSpec C} {F : SqliteFormat} {FS : SqliteFormatSpec F}.

Lemma GetAttachmentEncrypted_holds path password attachmentID t w :
  strings_HasPrefix path "~/" = false ->
  store_holds true password (w_fs w !! path) t ->
  GetAttachmentEncrypted path password attachmentID w =
    (select_attachment attachmentID (Ok (Some t)), w).
Proof.
  intros Hp (blob & Hf & Hlen & Hdec). unfold GetAttachmentEncrypted.
  rewrite ExpandPath_plain by done. unfold bind at 1, ret at 1.
  unfold bind at 1, os_ReadFile at 1. rewrite Hf.
  unfold bind, lift. rewrite Hdec. by rewrite conn_of_image.
Qed.

(** X12. The envelope is transparent for reading an attachment:
    [GetAttachmentEncrypted] on a blob that the password opens gives
    what [GetAttachment] gives on a database file with the same
    tables, and leaves the world as it was. *)
Theorem GetAttachmentEncrypted_as_plain (path password id : string) (t : Tables) (w : World)
    (path' : string) (w0 : World) :
  strings_HasPrefix path "~/" = false ->
  strings_HasPrefix path' "~/" = false ->
  store_holds true password (w_fs w !! path) t ->
  store_holds false "" (w_fs w0 !! path') t ->
  exists r,
    GetAttachmentEncrypted path password id w = (r, w) /\
    GetAttachment path' id w0 = (r, w0).
Proof.
  intros Hp Hp' Hh Hh0. exists (select_attachment id (Ok (Some t))). split.
  - by apply GetAttachmentEncrypted_holds.
  - by apply GetAttachment_plain.
Qed.

Lemma DeleteAttachmentEncrypted_holds path password id t w :
  strings_HasPrefix path "~/" = false ->
  store_holds true password (w_fs w !! path) t ->
  w_faults w = [] ->
  (NonceSize <= length (w_rand w))%nat ->
  exists w',
    DeleteAttachmentEncrypted path password id w = (Ok tt, w') /\
    store_holds true password (w_fs w' !! path)
      (mkTables (entries t) (history t)
         (filter (fun a => ar_id a <> id) (attachments t))).
Proof.
  intros Hp Hh Hn Hr. pose proof Hh as (blob & Hf & Hlen & Hdec).
  set (t' := mkTables (entries t) (history t)
               (filter (fun a => ar_id a <> id) (attachments t))).
  set (nonce := take NonceSize (w_rand w)).
  set (blob' := nonce ++ gcm_Seal (deriveKey password) nonce (sqlite_image (Some t'))).
  set (w' := with_file (mkWorld (w_fs w) (w_home w) (drop NonceSize (w_rand w)) (w_faults w))
               path (RawFile blob')).
  exists w'. split.
  - unfold DeleteAttachmentEncrypted. rewrite ExpandPath_plain by done.
    unfold bind at 1, ret at 1. unfold bind at 1, os_ReadFile at 1. rewrite Hf.
    unfold bind at 1, lift at 1. rewrite Hdec. rewrite conn_of_image.
    unfold bind at 1. rewrite exec_no_fault by done. cbn [delete_attachment onTables].
    fold t'. unfold bind at 1. rewrite encrypt_ok by done.
    apply os_WriteFile_no_fault; [done|]. cbn [w_fs]. by rewrite Hf.
  - exists blob'. unfold w', with_file. cbn [w_fs]. rewrite lookup_insert_eq.
    split; [done|]. split.
    + unfold blob', nonce. rewrite length_app, length_take. unfold NonceSize in *. lia.
    + apply decrypt_sealed. unfold nonce. rewrite length_take. lia.
Qed.

(** X13. [DeleteAttachmentEncrypted] on a store that the password
    opens writes a blob that the password opens to the same tables
    without the rows of that id, after which
    [GetAttachmentEncrypted] answers [sql.ErrNoRows] for the id. *)
Theorem DeleteAttachmentEncrypted_removes (path password id : string) (t : Tables)
    (w : World) :
  strings_HasPrefix path "~/" = false ->
  store_holds true password (w_fs w !! path) t ->
  w_faults w = [] ->
  (NonceSize <= length (w_rand w))%nat ->
  exists w',
    DeleteAttachmentEncrypted path password id w = (Ok tt, w') /\
    store_holds true password (w_fs w' !! path)
      (mkTables (entries t) (history t)
         (filter (fun a => ar_id a <> id) (attachments t))) /\
    GetAttachmentEncrypted path password id w' = (Err ErrNoRows, w').
Proof.
  intros Hp Hh Hn Hr.
  destruct (DeleteAttachmentEncrypted_holds path password id t w Hp Hh Hn Hr)
    as (w' & Hd & Hh').
  exists w'. split; [done|]. split; [done|].
  rewrite (GetAttachmentEncrypted_holds path password id _ w' Hp Hh'). f_equal.
  unfold select_attachment. cbn [attachments].
  rewrite find_none; [done|].
  intros x [Hx _]%list_elem_of_filter. by apply bool_decide_eq_false.
Qed.

Lemma LoadJournalEncrypted_missing path password w :
  strings_HasPrefix path "~/" = false ->
  w_fs w !! path = None ->
  LoadJournalEncrypted path password w = (Ok (mkJournal []), w).
Proof.
  intros Hp Hf. unfold LoadJournalEncrypted. rewrite ExpandPath_plain by done.
  unfold bind, ret, get_fs. by rewrite Hf.
Qed.

(** X14. What [LoadJournalEncrypted] does at the edges: with no file,
    or with an empty file, it returns the empty journal and no error;
    a blob shorter than a nonce, and a blob that GCM does not open
    under the password, give [ErrInvalidPassword].  In each case the
    world is as it was. *)
Theorem LoadJournalEncrypted_edges (path password : string) (w : World) :
  strings_HasPrefix path "~/" = false ->
  (w_fs w !! path = None ->
   LoadJournalEncrypted path password w = (Ok (mkJournal []), w)) /\
  (w_fs w !! path = Some (RawFile []) ->
   LoadJournalEncrypted path password w = (Ok (mkJournal []), w)) /\
  (forall blob,
     w_fs w !! path = Some (RawFile blob) ->
     (0 < length blob)%nat ->
     (length blob < NonceSize)%nat \/
     gcm_Open (deriveKey password) (take NonceSize blob) (drop NonceSize blob) = None ->
     LoadJournalEncrypted path password w = (Err ErrInvalidPassword, w)).
Proof.
  intros Hp. split; [by apply LoadJournalEncrypted_missing|].
  unfold LoadJournalEncrypted. rewrite ExpandPath_plain by done. split.
  - intros Hf. unfold bind, ret, get_fs, os_ReadFile. by rewrite !Hf.
  - intros blob Hf Hlen Hbad. unfold bind at 1, ret at 1.
    unfold bind at 1, get_fs at 1. rewrite Hf.
    unfold bind at 1, os_ReadFile at 1. rewrite Hf.
    rewrite decide_False by lia. unfold bind, lift.
    replace (decrypt blob password) with (@Err (list byte) ErrInvalidPassword); [done|].
    symmetry. unfold decrypt. rewrite NewCipher_deriveKey.
    destruct Hbad as [Hs|Ho].
    + by rewrite decide_True.
    + case_decide; [done|]. by rewrite Ho.
Qed.

(** X15. A path with no file: [addHistoryRecordEncrypted] fails with
    the error of [os.ReadFile] and changes nothing, while
    [AddAttachmentEncrypted] starts a new store that holds the
    attachment alone. *)
Theorem encrypted_writes_on_missing_file (path password entryID : string)
    (record : SaveRecord) (a : Attachment) (w : World) :
  strings_HasPrefix path "~/" = false ->
  w_fs w !! path = None ->
  addHistoryRecordEncrypted path entryID record password w = (Err ErrNotExist, w) /\
  (w_faults w = [] ->
   (NonceSize <= length (w_rand w))%nat ->
   exists w',
     AddAttachmentEncrypted path password a w = (Ok tt, w') /\
     store_holds true password (w_fs w' !! path) (mkTables [] [] [attachment_row a])).
Proof.
  intros Hp Hf. split.
  - unfold addHistoryRecordEncrypted. rewrite ExpandPath_plain by done.
    unfold bind at 1, ret at 1. unfold bind, os_ReadFile. by rewrite Hf.
  - intros Hn Hr.
    set (nonce := take NonceSize (w_rand w)).
    set (blob := nonce ++ gcm_Seal (deriveKey password) nonce
                   (sqlite_image (Some (mkTables [] [] [attachment_row a])))).
    exists (with_file (mkWorld (w_fs w) (w_home w) (drop NonceSize (w_rand w)) (w_faults w))
              path (RawFile blob)).
    split.
    + unfold AddAttachmentEncrypted. unfold bind at 1.
      rewrite (LoadJournalEncrypted_missing path password w Hp Hf).
      rewrite ExpandPath_plain by done.
      unfold bind at 1, ret at 1. unfold bind at 1, get_fs at 1. rewrite Hf.
      unfold bind at 1, ret at 1. unfold bind at 1.
      rewrite exec_no_fault by done. cbn [initSchema].
      unfold bind at 1. rewrite exec_no_fault by done.
      cbn [insert_attachment onTables emptyTables attachments existsb entries history app].
      unfold bind at 1. rewrite encrypt_ok by done.
      apply os_WriteFile_no_fault; [done|]. cbn [w_fs]. by rewrite Hf.
    + exists blob. unfold with_file. cbn [w_fs]. rewrite lookup_insert_eq.
      split; [done|]. split.
      * unfold blob, nonce. rewrite length_app, length_take. unfold NonceSize in *. lia.
      * apply decrypt_sealed. unfold nonce. rewrite length_take. lia.
Qed.

End SealedStore.

(** ** The journal registry *)

Lemma insert_perm_delete {A} (l : list A) j (a b : A) :
  l !! j = Some b -> <[j := a]> l ≡ₚ a :: delete j l.
Proof.
  revert j. induction l as [|x l IH]; intros [|j] Hj; try done; cbn in *.
  rewrite (IH j Hj). apply Permutation_swap.
Qed.

Lemma swap_perm {A} (l : list A) i j (a b : A) :
  (i < j)%nat -> l !! i = Some a -> l !! j = Some b ->
  <[i := b]> (<[j := a]> l) ≡ₚ l.
Proof.
  revert i j. induction l as [|x l IH]; intros i j Hij Hi Hj; [done|].
  destruct j as [|j]; [lia|]. destruct i as [|i]; cbn in *.
  - injection Hi as ->. rewrite (insert_perm_delete l j a b Hj).
    rewrite (delete_Permutation l j b Hj) at 2. apply Permutation_swap.
  - f_equal. apply Permutation_skip. apply IH; [lia|done|done].
Qed.

Lemma swapIfAfter_perm journals i j :
  (i < j)%nat -> swapIfAfter journals i j ≡ₚ journals.
Proof.
  intros Hij. unfold swapIfAfter.
  destruct (journals !! i) as [a|] eqn:Hi; [|done].
  destruct (journals !! j) as [b|] eqn:Hj; [|done].
  case_decide; [|done]. by apply swap_perm.
Qed.

Lemma swapIfAfter_cons x journals i j :
  swapIfAfter (x :: journals) (S i) (S j) = x :: swapIfAfter journals i j.
Proof.
  unfold swapIfAfter. cbn.
  destruct (journals !! i) as [a|]; [|done].
  destruct (journals !! j) as [b|]; [|done].
  by case_decide.
Qed.

Lemma sortInner_perm n : forall i j journals,
  (i < j)%nat -> sortInner n i j journals ≡ₚ journals.
Proof.
  induction n as [|n IH]; intros i j journals Hij; cbn; [done|].
  rewrite IH by lia. by apply swapIfAfter_perm.
Qed.

Lemma sortInner_cons n : forall x i j journals,
  sortInner n (S i) (S j) (x :: journals) = x :: sortInner n i j journals.
Proof.
  induction n as [|n IH]; intros x i j journals; cbn; [done|].
  by rewrite swapIfAfter_cons, IH.
Qed.

Lemma sortInner_length n i j journals :
  (i < j)%nat -> length (sortInner n i j journals) = length journals.
Proof. intros Hij. apply Permutation_length. by apply sortInner_perm. Qed.

Lemma sortOuter_cons n : forall x i journals,
  sortOuter n (S i) (x :: journals) = x :: sortOuter n i journals.
Proof.
  induction n as [|n IH]; intros x i journals; cbn; [done|].
  by rewrite sortInner_cons, IH.
Qed.

Lemma sortOuter_nil n : forall i, sortOuter n i [] = [].
Proof. induction n as [|n IH]; intros i; cbn; [done|]. apply IH. Qed.

Lemma swapIfAfter_head_latest journals j :
  (0 < j)%nat -> head_latest j journals -> head_latest (S j) (swapIfAfter journals 0 j).
Proof.
  intros Hj Hinv k x y Hk. unfold swapIfAfter.
  destruct (journals !! 0%nat) as [a|] eqn:H0.
  2:{ destruct journals; [|done]. done. }
  destruct (journals !! j) as [b|] eqn:Hjj.
  2:{ intros Hx Hy. apply (Hinv k x y); [|done|done].
      destruct (decide (k = j)) as [->|]; [congruence|lia]. }
  case_decide as Hlt.
  - assert (Hlen : (j < length journals)%nat) by (by eapply lookup_lt_Some).
    rewrite list_lookup_insert_eq by (rewrite length_insert; lia).
    intros [= <-]. rewrite list_lookup_insert_ne by lia.
    destruct (decide (k = j)) as [->|Hne].
    + rewrite list_lookup_insert_eq by done. intros [= <-]. lia.
    + rewrite list_lookup_insert_ne by done. intros Hy.
      pose proof (Hinv k a y ltac:(lia) H0 Hy). lia.
  - intros Hx Hy. destruct (decide (k = j)) as [->|Hne].
    + assert (x = a) as -> by congruence. assert (y = b) as -> by congruence. lia.
    + apply (Hinv k x y); [lia|done|done].
Qed.

Lemma sortInner_head_latest n : forall j journals,
  (0 < j)%nat -> head_latest j journals ->
  head_latest (j + n) (sortInner n 0 j journals).
Proof.
  induction n as [|n IH]; intros j journals Hj Hinv; cbn.
  - by rewrite Nat.add_0_r.
  - replace (j + S n)%nat with (S j + n)%nat by lia.
    apply IH; [lia|]. by apply swapIfAfter_head_latest.
Qed.

Lemma sortOuter_sorted n : forall journals,
  (length journals <= S n)%nat ->
  sortOuter n 0 journals ≡ₚ journals /\ StronglySorted opened_before (sortOuter n 0 journals).
Proof.
  induction n as [|n IH]; intros journals Hlen; cbn.
  - split; [done|]. destruct journals as [|x [|y l]]; cbn in Hlen; [| |lia].
    + constructor.
    + repeat constructor.
  - pose proof (sortInner_perm (length journals - 1) 0 1 journals ltac:(lia)) as Hp.
    pose proof (sortInner_head_latest (length journals - 1) 1 journals ltac:(lia)) as Hh.
    destruct (sortInner (length journals - 1) 0 1 journals) as [|m rest] eqn:Hs.
    + apply Permutation_nil_l in Hp. subst journals.
      rewrite sortOuter_nil. split; [done|constructor].
    + rewrite sortOuter_cons.
      assert (Hlr : (length rest <= S n)%nat).
      { apply Permutation_length in Hp. cbn in Hp. lia. }
      destruct (IH rest Hlr) as [Hp' Hs'].
      split; [by rewrite Hp', Hp|].
      constructor; [done|].
      assert (Hall : Forall (opened_before m) rest).
      { apply Forall_lookup. intros k y Hy.
        assert (Hinv : head_latest (1 + (length journals - 1)) (m :: rest)).
        { apply Hh. intros k' x' y' Hk'. lia. }
        apply (Hinv (S k) m y); [|done|done].
        apply lookup_lt_Some in Hy. apply Permutation_length in Hp. cbn in Hp. lia. }
      by rewrite Hp'.
Qed.

(** X16. [GetSortedJournals] returns the journals of the config, each
    as often as it is registered, with no journal after one that was
    opened earlier. *)
Theorem GetSortedJournals_sorted (config : Config) :
  GetSortedJournals config ≡ₚ cfg_Journals config /\
  StronglySorted (fun a b => jdb_LastOpened b <= jdb_LastOpened a) (GetSortedJournals config).
Proof.
  unfold GetSortedJournals. apply sortOuter_sorted. lia.
Qed.

Lemma findFrom_shift journals path : forall i,
  findFrom (S i) journals path = S <$> findFrom i journals path.
Proof.
  induction journals as [|j rest IH]; intros i; cbn; [done|].
  case_decide; [done|]. apply IH.
Qed.

Lemma findFrom_app journals more path : forall i,
  findFrom i (journals ++ more) path =
    match findFrom i journals path with
    | Some k => Some k
    | None => findFrom (i + length journals) more path
    end.
Proof.
  induction journals as [|j rest IH]; intros i; cbn.
  - by rewrite Nat.add_0_r.
  - case_decide; [done|]. rewrite IH. by replace (S i + length rest)%nat
      with (i + S (length rest))%nat by lia.
Qed.

Lemma findFrom_updateFirst journals path t q : forall i,
  findFrom i (updateFirst journals path t) q = findFrom i journals q.
Proof.
  induction journals as [|j rest IH]; intros i; cbn; [done|].
  case_decide; cbn; [done|]. case_decide; [done|]. apply IH.
Qed.

(** X17. What [FindJournal] answers after the registry has changed:
    [UpdateJournalLastOpened] changes no answer; after [AddJournal] a
    path that was found is found where it was, the added path is found
    in the new last place if it was not registered, and every other
    path is still not found. *)
Theorem FindJournal_after_changes (config : Config) (name path q : string)
    (encrypted : bool) (t : Time) :
  FindJournal (UpdateJournalLastOpened config path t) q = FindJournal config q /\
  FindJournal (AddJournal config name path encrypted) q =
    match FindJournal config q with
    | Some i => Some i
    | None => if decide (path = q) then Some (length (cfg_Journals config)) else None
    end.
Proof.
  unfold FindJournal. cbn [cfg_Journals UpdateJournalLastOpened AddJournal]. split.
  - apply findFrom_updateFirst.
  - rewrite findFrom_app. destruct (findFrom 0 (cfg_Journals config) q); [done|].
    cbn. by case_decide.
Qed.

(** X18. Opening a journal puts it first: when the path is registered
    and [t] is later than every [LastOpened] of the config, the list
    of [GetSortedJournals] after [UpdateJournalLastOpened] starts with
    the first journal of that path, stamped [t]. *)
Theorem GetSortedJournals_after_open (config : Config) (path : string) (t : Time)
    (i : nat) (j : JournalDB) :
  FindJournal config path = Some i ->
  cfg_Journals config !! i = Some j ->
  (forall j', j' ∈ cfg_Journals config -> jdb_LastOpened j' < t) ->
  head (GetSortedJournals (UpdateJournalLastOpened config path t)) =
    Some (setLastOpened t j).
Proof.
  intros Hfind Hi Hlt.
  assert (Hs : GetSortedJournals (UpdateJournalLastOpened config path t)
                 ≡ₚ cfg_Journals (UpdateJournalLastOpened config path t) /\
               StronglySorted opened_before
                 (GetSortedJournals (UpdateJournalLastOpened config path t)))
    by (unfold GetSortedJournals; apply sortOuter_sorted; lia).
  destruct Hs as [Hperm Hsorted].
  cbn [cfg_Journals UpdateJournalLastOpened] in Hperm.
  rewrite (updateFirst_spec path t (cfg_Journals config) 0%nat) in Hperm.
  unfold FindJournal in Hfind. rewrite Hfind, Nat.sub_0_r in Hperm.
  assert (Hin : setLastOpened t j ∈
                GetSortedJournals (UpdateJournalLastOpened config path t)).
  { rewrite Hperm. apply list_elem_of_lookup. exists i.
    by rewrite list_lookup_alter_eq, Hi. }
  assert (Hold : forall x, x ∈ GetSortedJournals (UpdateJournalLastOpened config path t) ->
                   x = setLastOpened t j \/ jdb_LastOpened x < t).
  { intros x Hx. rewrite Hperm in Hx. apply list_elem_of_lookup in Hx as [k Hk].
    destruct (decide (k = i)) as [->|Hne].
    - rewrite list_lookup_alter_eq, Hi in Hk. left. by injection Hk.
    - rewrite list_lookup_alter_ne in Hk by done. right. apply Hlt.
      apply list_elem_of_lookup. by exists k. }
  destruct (GetSortedJournals (UpdateJournalLastOpened config path t)) as [|x rest];
    [by apply elem_of_nil in Hin|].
  cbn. f_equal. destruct (Hold x ltac:(left)) as [->|Hx]; [done|].
  apply elem_of_cons in Hin as [->|Hin]; [done|].
  apply StronglySorted_cons in Hsorted as [Hall _].
  rewrite Forall_forall in Hall. specialize (Hall _ Hin).
  unfold opened_before in Hall. cbn in Hall. lia.
Qed.

(** X19. [MigrateConfigToNewFormat] moves the database of the old
    format into the registry once: when it reports a change, the old
    path is the active journal and is found first in the registry with
    the old encryption flag, and the old fields are cleared; a second
    call reports no change and changes nothing, and so does a call
    that reports no change. *)
Theorem MigrateConfigToNewFormat_once (config : Config) :
  let config' := (MigrateConfigToNewFormat config).1 in
  (if (MigrateConfigToNewFormat config).2
   then cfg_ActiveJournal config' = cfg_DatabasePath config /\
        FindJournal config' (cfg_DatabasePath config) = Some 0%nat /\
        (jdb_Encrypted <$> cfg_Journals config' !! 0%nat) = Some (cfg_Encrypted config) /\
        cfg_DatabasePath config' = "" /\ cfg_Encrypted config' = false
   else config' = config) /\
  MigrateConfigToNewFormat config' = (config', false).
Proof.
  unfold MigrateConfigToNewFormat. case_decide as Hc; cbn.
  - split.
    + split; [done|]. split; [|done]. unfold FindJournal. cbn. by rewrite decide_True.
    + rewrite decide_False; [done|]. cbn. intros [_ ?]. lia.
  - split; [done|]. by rewrite decide_False.
Qed.

(** ** The package model *)

Lemma length_substring_0 n s :
  (n <= String.length s)%nat -> String.length (substring 0 n s) = n.
Proof.
  revert n. induction s as [|c s IH]; intros [|n] Hn; cbn in *; try done; [lia|].
  f_equal. apply IH. lia.
Qed.

Lemma string_length_app (s1 s2 : string) :
  String.length (s1 ++ s2)%string = (String.length s1 + String.length s2)%nat.
Proof.
  induction s1 as [|c s1 IH]; [done|].
  change (String c s1 ++ s2)%string with (String c (s1 ++ s2)%string).
  cbn [String.length]. by rewrite IH.
Qed.

Lemma substring_0_app n (s1 s2 : string) :
  n = String.length s1 -> substring 0 n (s1 ++ s2)%string = s1.
Proof.
  intros ->. induction s1 as [|c s1 IH].
  - by destruct s2.
  - change (String c s1 ++ s2)%string with (String c (s1 ++ s2)%string).
    cbn [String.length substring]. by rewrite IH.
Qed.

(** X20. [Preview] with a length that is not negative gives a text of
    at most [maxLen + 3] bytes: the content itself when it has at most
    [maxLen] bytes, else its first [maxLen] bytes and three dots.  With
    a negative length it panics, whatever the content. *)
Theorem Preview_bounded (e : Entry) (maxLen : Z) :
  (0 <= maxLen ->
   exists s, Preview e maxLen = Some s /\
     Z.of_nat (String.length s) <= maxLen + 3 /\
     (Z.of_nat (String.length (ent_Content e)) <= maxLen -> s = ent_Content e) /\
     (maxLen < Z.of_nat (String.length (ent_Content e)) ->
      substring 0 (Z.to_nat maxLen) s = substring 0 (Z.to_nat maxLen) (ent_Content e) /\
      substring (Z.to_nat maxLen) 3 s = "...")) /\
  (maxLen < 0 -> Preview e maxLen = None).
Proof.
  unfold Preview. split.
  - intros Hm. case_decide as Hlen.
    + rewrite decide_False by lia. eexists. split; [done|].
      assert (Hl : String.length (substring 0 (Z.to_nat maxLen) (ent_Content e))
                   = Z.to_nat maxLen) by (apply length_substring_0; lia).
      split; [rewrite string_length_app, Hl; cbn; lia|].
      split; [lia|]. intros _. split.
      * by apply substring_0_app.
      * clear Hlen. revert Hl.
        generalize (substring 0 (Z.to_nat maxLen) (ent_Content e)).
        generalize (Z.to_nat maxLen). intros n s <-.
        induction s as [|c s IH]; [done|].
        change (String c s ++ "...")%string with (String c (s ++ "...")%string).
        cbn [String.length substring]. apply IH.
    + eexists. split; [done|]. split; [lia|]. split; [done|]. lia.
  - intros Hm. rewrite decide_True by lia. by rewrite decide_True.
Qed.

Lemma lower_ascii_idemp c : lower_ascii (lower_ascii c) = lower_ascii c.
Proof. by destruct c as [[] [] [] [] [] [] [] []]; vm_compute. Qed.

Lemma lower_ascii_dot c : lower_ascii c = "."%char <-> c = "."%char.
Proof. destruct c as [[] [] [] [] [] [] [] []]; vm_compute; split; congruence. Qed.

Lemma lower_ascii_slash c : lower_ascii c = "/"%char <-> c = "/"%char.
Proof. destruct c as [[] [] [] [] [] [] [] []]; vm_compute; split; congruence. Qed.

Lemma ToLower_idemp s : strings_ToLower (strings_ToLower s) = strings_ToLower s.
Proof. induction s as [|c s IH]; cbn; [done|]. by rewrite lower_ascii_idemp, IH. Qed.

Lemma ToLower_empty s : strings_ToLower s = "" <-> s = "".
Proof. by destruct s. Qed.

Lemma ToLower_has_slash s :
  existsb (fun x => bool_decide (x = "/"%char)) (list_ascii_of_string (strings_ToLower s)) =
  existsb (fun x => bool_decide (x = "/"%char)) (list_ascii_of_string s).
Proof.
  induction s as [|c s IH]; cbn; [done|]. rewrite IH. f_equal.
  apply bool_decide_ext, lower_ascii_slash.
Qed.

Lemma Ext_ToLower s : filepath_Ext (strings_ToLower s) = strings_ToLower (filepath_Ext s).
Proof.
  induction s as [|c s IH]; cbn; [done|]. rewrite IH.
  destruct (decide (c = "/"%char)) as [Hs|Hs].
  - rewrite decide_True by (by apply lower_ascii_slash). done.
  - rewrite decide_False by (by rewrite lower_ascii_slash).
    destruct (decide (filepath_Ext s = "")) as [He|He].
    + rewrite decide_True by (by apply ToLower_empty).
      destruct (decide (c = "."%char)) as [Hd|Hd].
      * rewrite decide_True by (by apply lower_ascii_dot).
        rewrite ToLower_has_slash. by destruct (existsb _ _).
      * by rewrite decide_False by (by rewrite lower_ascii_dot).
    + by rewrite decide_False by (by rewrite ToLower_empty).
Qed.

Lemma Ext_no_dot s : "."%char ∉ list_ascii_of_string s -> filepath_Ext s = "".
Proof.
  induction s as [|c s IH]; cbn; [done|]. intros Hn.
  rewrite IH by (intros H; apply Hn; by right).
  case_decide; [done|]. rewrite decide_True by done.
  rewrite decide_False; [done|]. intros ->. apply Hn. by left.
Qed.

(** X21. [DetectMimeType] does not look at the case of the letters:
    a file name and the same name in lower case get the same type.  A
    name without a dot gets [application/octet-stream]. *)
Theorem DetectMimeType_ignores_case (filename : string) :
  DetectMimeType (strings_ToLower filename) = DetectMimeType filename /\
  ("."%char ∉ list_ascii_of_string filename ->
   DetectMimeType filename = "application/octet-stream").
Proof.
  unfold DetectMimeType. split.
  - by rewrite Ext_ToLower, ToLower_idemp.
  - intros Hn. by rewrite Ext_no_dot.
Qed.

(** ** The front end *)





Section EditorInvariant.
Context {C : GoCrypto} {F : SqliteFormat}.


End EditorInvariant.

Section AttachmentScreen.
Context {C : GoCrypto} {CS : GoCryptoSpec C} {F : SqliteFormat} {FS : SqliteFormatSpec F}.

(** X23. [deleteAttachment] of the attachment screen.  With the
    cursor past the list it does nothing and reports no error.  When
    the store refuses, the entry in memory keeps its list.  On a
    store that holds the tables [t], without faults, the selected
    attachment leaves the list in memory, the others keep their
    order, and the store holds [t] without the rows of its id. *)
Theorem deleteAttachment_outcomes (m : AttachmentModel) (selectedIndex : nat) (w : World) :
  (ent_Attachments (am_entry m) !! selectedIndex = None ->
   deleteAttachment m selectedIndex w = ((None, m), w)) /\
  (forall e m' w', deleteAttachment m selectedIndex w = ((Some e, m'), w') -> m' = m) /\
  (forall att t,
     ent_Attachments (am_entry m) !! selectedIndex = Some att ->
     strings_HasPrefix (am_dbPath m) "~/" = false ->
     store_holds (am_encrypted m) (am_password m) (w_fs w !! am_dbPath m) t ->
     w_faults w = [] ->
     (am_encrypted m = true -> (NonceSize <= length (w_rand w))%nat) ->
     exists w',
       deleteAttachment m selectedIndex w =
         ((None,
           setEntry m (withAttachments (am_entry m)
                         (delete selectedIndex (ent_Attachments (am_entry m))))
             (am_HistoryAdded m)), w') /\
       store_holds (am_encrypted m) (am_password m) (w_fs w' !! am_dbPath m)
         (mkTables (entries t) (history t)
            (filter (fun a => ar_id a <> att_ID att) (attachments t)))).
Proof.
  split; [|split].
  - intros Hnone. unfold deleteAttachment. by rewrite Hnone.
  - intros e m' w'. unfold deleteAttachment.
    destruct (ent_Attachments (am_entry m) !! selectedIndex) as [att|]; [|done].
    destruct (if am_encrypted m then _ else _) as [[[]|e'] w1]; [done|].
    by intros [= _ <- _].
  - intros att t Hatt Hp Hh Hn Hr. unfold deleteAttachment. rewrite Hatt.
    rewrite delete_take_drop.
    destruct (am_encrypted m) eqn:Henc.
    + destruct (DeleteAttachmentEncrypted_holds (am_dbPath m) (am_password m) (att_ID att)
                  t w Hp Hh Hn (Hr eq_refl)) as (w' & Hd & Hh').
      exists w'. by rewrite Hd.
    + cbn in Hh. rewrite (DeleteAttachment_plain _ _ t) by done.
      eexists. split; [done|]. unfold with_file. cbn [w_fs store_holds].
      apply lookup_insert_eq.
Qed.

End AttachmentScreen.

Lemma visibleLines_pos m : 1 <= visibleLines m.
Proof. unfold visibleLines. case_decide; lia. Qed.

Lemma adjustScroll_cursor_ok m :
  0 <= lm_SelectedIndex m ->
  lm_SelectedIndex m <= Z.max 0 (Z.of_nat (length (Entries (lm_journal m))) - 1) ->
  cursor_ok (adjustScroll m).
Proof.
  intros H0 Hn. pose proof (visibleLines_pos m) as Hv.
  unfold cursor_ok, adjustScroll. cbn [lm_SelectedIndex lm_journal lm_offset].
  change (visibleLines (mkListModel _ _ _ _ (lm_height m) _)) with (visibleLines m).
  split; [done|]. split; [done|]. repeat case_decide; lia.
Qed.

(** X24. Whatever key [ListModel.Update] gets, a cursor that was on
    an entry and inside the window of visible lines is so afterwards,
    and the journal behind the list is the same. *)
Theorem ListModel_Update_cursor (m : ListModel) (key today : string) :
  cursor_ok m ->
  cursor_ok (ListModel_Update m key today) /\
  lm_journal (ListModel_Update m key today) = lm_journal m.
Proof.
  intros Hok. pose proof Hok as (H0 & Hn & Hwin). unfold ListModel_Update.
  repeat case_decide; try destruct (hasTodayEntry m today);
    try (split; [exact Hok|reflexivity]);
    try (split; [|reflexivity]; apply adjustScroll_cursor_ok; cbn; lia).
Qed.

(** X25. [ListModel.Update] asks for an action on the selected entry
    (edit, delete, history, attachments) only when the cursor is on an
    entry of the journal, and for a new entry only when no entry has
    today's date. *)
Theorem ListModel_Update_action (m : ListModel) (key today : string) :
  cursor_ok m ->
  lm_Action m = ActionNone ->
  match lm_Action (ListModel_Update m key today) with
  | ActionEditEntry | ActionDeleteEntry | ActionViewHistory | ActionViewAttachments =>
    exists e, Entries (lm_journal m)
                !! Z.to_nat (lm_SelectedIndex (ListModel_Update m key today)) = Some e
  | ActionNewEntry => forall e, e ∈ Entries (lm_journal m) -> ent_Date e <> today
  | _ => True
  end.
Proof.
  intros (H0 & Hn & _) Hact.
  assert (Hsel : 0 < Z.of_nat (length (Entries (lm_journal m))) ->
                 exists e, Entries (lm_journal m) !! Z.to_nat (lm_SelectedIndex m) = Some e).
  { intros Hpos. apply lookup_lt_is_Some_2. lia. }
  unfold ListModel_Update.
  repeat case_decide; cbn; rewrite ?Hact; try done; try (by apply Hsel).
  destruct (hasTodayEntry m today) eqn:Htoday; cbn; rewrite ?Hact; [done|].
  intros e He Hd. unfold hasTodayEntry in Htoday.
  assert (existsb (fun e => bool_decide (ent_Date e = today)) (Entries (lm_journal m)) = true);
    [|congruence].
  apply existsb_exists. exists e. split; [by apply list_elem_of_In|].
  by apply bool_decide_eq_true.
Qed.

Lemma journal_ok_delete (es : list Entry) (i : nat) :
  journal_ok (mkJournal es) -> journal_ok (mkJournal (delete i es)).
Proof.
  intros (Hid & Hdate & Hrec). unfold journal_ok. cbn [Entries] in *.
  pose proof (sublist_delete es i) as Hsub.
  split; [|split].
  - eapply sublist_NoDup; [exact Hid|]. by apply fmap_sublist.
  - eapply sublist_NoDup; [exact Hdate|]. by apply fmap_sublist.
  - intros e He. apply Hrec. by eapply elem_of_sublist.
Qed.

Section DeleteConfirmFacts.
Context {C : GoCrypto} {CS : GoCryptoSpec C} {F : SqliteFormat} {FS : SqliteFormatSpec F}.

Lemma SaveJournalEncrypted_holds journal path password w :
  strings_HasPrefix path "~/" = false ->
  w_fs w !! path <> Some Directory ->
  w_faults w = [] ->
  (NonceSize <= length (w_rand w))%nat ->
  journal_ok journal ->
  exists w',
    SaveJournalEncrypted journal path password w = (Ok tt, w') /\
    store_holds true password (w_fs w' !! path) (saved_tables journal).
Proof.
  intros Hp Hdir Hf Hr Hok.
  set (nonce := take NonceSize (w_rand w)).
  set (blob := nonce ++ gcm_Seal (deriveKey password) nonce
                          (sqlite_image (Some (saved_tables journal)))).
  exists (with_file (mkWorld (w_fs w) (w_home w) (drop NonceSize (w_rand w)) (w_faults w))
            path (RawFile blob)).
  split.
  - unfold SaveJournalEncrypted. rewrite ExpandPath_plain by done.
    unfold bind at 1, ret at 1. unfold bind at 1.
    rewrite exec_no_fault by done. cbn [initSchema].
    unfold bind at 1. rewrite saveJournalToDB_empty by done.
    unfold bind at 1. rewrite encrypt_ok by done.
    by rewrite os_WriteFile_no_fault.
  - exists blob. unfold with_file. cbn [w_fs]. rewrite lookup_insert_eq.
    split; [done|]. split.
    + unfold blob, nonce. rewrite length_app, length_take. unfold NonceSize in *. lia.
    + apply decrypt_sealed. unfold nonce. rewrite length_take. lia.
Qed.

(** X26. Confirming the deletion of the selected entry, journal not
    encrypted: the entry leaves the journal in memory and the list
    view comes back, with no error recorded whatever [DeleteEntry]
    answered.  The database file then either holds the tables without
    the rows of the entry, or is as it was; without faults it is the
    former. *)
Theorem updateDeleteConfirm_plain (a : App) (selectedIndex : Z) (w : World)
    (j : JournalDB) (t : Tables) (e : Entry) :
  app_activeJournal a = Some j ->
  jdb_Encrypted j = false ->
  strings_HasPrefix (jdb_Path j) "~/" = false ->
  w_fs w !! jdb_Path j = Some (SqliteFile (Some t)) ->
  0 <= selectedIndex ->
  Entries (app_journal a) !! Z.to_nat selectedIndex = Some e ->
  let deleted :=
    <[jdb_Path j := SqliteFile (Some (mkTables
         (filter (fun r => er_id r <> ent_ID e) (entries t))
         (filter (fun h => hr_entry_id h <> ent_ID e) (history t))
         (filter (fun x => ar_entry_id x <> ent_ID e) (attachments t))))]> (w_fs w) in
  exists w',
    updateDeleteConfirm a "y" selectedIndex w =
      Some (setView (setJournal a (mkJournal (delete (Z.to_nat selectedIndex)
                                                (Entries (app_journal a))))) ViewList, w') /\
    (w_fs w' = deleted \/ w_fs w' = w_fs w) /\
    (w_faults w = [] -> w_fs w' = deleted).
Proof.
  intros Hj Henc Hp Hf H0 He deleted.
  exists (DeleteEntry (jdb_Path j) (ent_ID e) w).2.
  split; [|split].
  - unfold updateDeleteConfirm. rewrite decide_True by (by left).
    rewrite decide_True by (apply lookup_lt_Some in He; lia).
    rewrite He. cbn [app_activeJournal setJournal]. rewrite Hj, Henc.
    by rewrite delete_take_drop.
  - destruct (DeleteEntry (jdb_Path j) (ent_ID e) w) as [r w'] eqn:Hd.
    pose proof (DeleteEntry_fs _ _ t _ _ _ Hp Hf Hd) as Hfs.
    destruct r; [by left|by right].
  - intros Hn.
    destruct (DeleteEntry_no_fault (jdb_Path j) (ent_ID e) t w Hp Hf Hn) as (w' & Hd).
    rewrite Hd. cbn [snd]. apply (DeleteEntry_fs _ _ t _ _ _ Hp Hf Hd).
Qed.

(** X27. Confirming the deletion of the selected entry, journal
    encrypted: the journal left in memory is saved anew, so the blob
    holds its entries and their histories and an empty attachment
    table; after it no attachment of any entry can be read from the
    store. *)
Theorem updateDeleteConfirm_encrypted (a : App) (selectedIndex : Z) (w : World)
    (j : JournalDB) (e : Entry) :
  app_activeJournal a = Some j ->
  jdb_Encrypted j = true ->
  strings_HasPrefix (jdb_Path j) "~/" = false ->
  w_fs w !! jdb_Path j <> Some Directory ->
  w_faults w = [] ->
  (NonceSize <= length (w_rand w))%nat ->
  journal_ok (app_journal a) ->
  0 <= selectedIndex ->
  Entries (app_journal a) !! Z.to_nat selectedIndex = Some e ->
  let remaining := mkJournal (delete (Z.to_nat selectedIndex) (Entries (app_journal a))) in
  exists w',
    updateDeleteConfirm a "y" selectedIndex w =
      Some (setView (setJournal a remaining) ViewList, w') /\
    store_holds true (app_password a) (w_fs w' !! jdb_Path j) (saved_tables remaining) /\
    forall id,
      GetAttachmentEncrypted (jdb_Path j) (app_password a) id w' = (Err ErrNoRows, w').
Proof.
  intros Hj Henc Hp Hdir Hn Hr Hok H0 He remaining.
  assert (Hok' : journal_ok remaining).
  { apply journal_ok_delete. by destruct (app_journal a). }
  destruct (SaveJournalEncrypted_holds remaining (jdb_Path j) (app_password a) w
              Hp Hdir Hn Hr Hok') as (w' & Hs & Hh).
  exists w'. split; [|split; [done|]].
  - unfold updateDeleteConfirm. rewrite decide_True by (by left).
    rewrite decide_True by (apply lookup_lt_Some in He; lia).
    rewrite He. cbn [app_activeJournal setJournal]. rewrite Hj, Henc.
    rewrite <- delete_take_drop. fold remaining.
    unfold saveJournal. cbn [app_activeJournal app_journal app_password setJournal].
    rewrite Hj, Henc. by rewrite Hs.
  - intros id. by rewrite (GetAttachmentEncrypted_holds _ _ id _ w' Hp Hh).
Qed.

End DeleteConfirmFacts.

(** ** The properties above on sample data *)

Lemma fixture_journal_ok : journal_ok Fixture.journal.
Proof.
  unfold journal_ok, Fixture.journal. cbn [Entries map ent_ID ent_Date Fixture.entryY].
  split; [|split].
  - apply NoDup_cons. split; [|apply NoDup_singleton].
    intros H%list_elem_of_singleton. discriminate H.
  - apply NoDup_cons. split; [|apply NoDup_singleton].
    intros H%list_elem_of_singleton. discriminate H.
  - intros e [->|[->|H]%elem_of_cons]%elem_of_cons; [| |by apply elem_of_nil in H]; cbn.
    + split; [apply NoDup_singleton|].
      intros r ->%list_elem_of_singleton. cbn. split; [|discriminate].
      intros n ->%list_elem_of_singleton. cbn.
      intros H. repeat (apply elem_of_cons in H as [H|H]; [discriminate H|]).
      by apply elem_of_nil in H.
    + split; [constructor|]. intros r H. by apply elem_of_nil in H.
Qed.

Lemma sample_journal_ok : journal_ok (mkJournal [Fixture.entryY; Sample.entryX]).
Proof.
  unfold journal_ok. cbn [Entries map ent_ID ent_Date Fixture.entryY Sample.entryX].
  split; [|split].
  - apply NoDup_cons. split; [|apply NoDup_singleton].
    intros H%list_elem_of_singleton. discriminate H.
  - apply NoDup_cons. split; [|apply NoDup_singleton].
    intros H%list_elem_of_singleton. discriminate H.
  - intros e [->|[->|H]%elem_of_cons]%elem_of_cons; [| |by apply elem_of_nil in H]; cbn;
      (split; [constructor|]; intros r H; by apply elem_of_nil in H).
Qed.

Lemma sampleA_holds :
  @store_holds Toy.crypto Toy.format true "pw" (w_fs Sample.worldA !! Sample.pathA)
    Sample.tablesA.
Proof.
  exists Sample.blobA. split; [apply lookup_singleton_eq|]. split.
  - unfold Sample.blobA, Sample.nonceA. rewrite length_app, length_replicate. lia.
  - apply (@decrypt_sealed Toy.crypto toy_crypto_spec). apply length_replicate.
Qed.

Lemma SaveJournal_LoadJournal_roundtrip_witness :
  exists w',
    @SaveJournal Toy.format Fixture.journal "/new.db" Fixture.empty = (Ok tt, w') /\
    @LoadJournal Toy.format "/new.db" w' =
      (Ok (mkJournal (map as_loaded (sort_desc entry_before (Entries Fixture.journal)))), w').
Proof.
  apply (@SaveJournal_LoadJournal_roundtrip Toy.format Fixture.journal "/new.db" Fixture.empty).
  - reflexivity.
  - reflexivity.
  - reflexivity.
  - exact fixture_journal_ok.
Defined.

Lemma SaveJournalEncrypted_LoadJournalEncrypted_roundtrip_witness :
  exists w',
    @SaveJournalEncrypted Toy.crypto Toy.format Fixture.journal "/new.enc" "pw" Fixture.emptyR
      = (Ok tt, w') /\
    @LoadJournalEncrypted Toy.crypto Toy.format "/new.enc" "pw" w' =
      (Ok (mkJournal (map as_loaded (sort_desc entry_before (Entries Fixture.journal)))), w').
Proof.
  destruct (@SaveJournalEncrypted_LoadJournalEncrypted_roundtrip Toy.crypto toy_crypto_spec
              Toy.format toy_format_spec Fixture.journal "/new.enc" "pw" Fixture.emptyR)
    as (w' & Hs & _ & Hl).
  - reflexivity.
  - discriminate.
  - reflexivity.
  - cbn. unfold NonceSize. lia.
  - exact fixture_journal_ok.
  - exists w'. split; [exact Hs|exact Hl].
Defined.

Lemma DeleteEntry_cascade_witness :
  exists w', @DeleteEntry Toy.format Sample.path "X" Sample.world = (Ok tt, w').
Proof.
  destruct (@DeleteEntry_cascade Toy.format Sample.path "X" Sample.tables Sample.world)
    as [_ H].
  - reflexivity.
  - reflexivity.
  - apply H. reflexivity.
Defined.

Lemma SaveJournal_keeps_rows_witness :
  match (@SaveJournal Toy.format Fixture.journal Fixture.pathP Fixture.worldP).1 with
  | Ok _ =>
    exists t',
      w_fs (@SaveJournal Toy.format Fixture.journal Fixture.pathP Fixture.worldP).2 =
        <[Fixture.pathP := SqliteFile (Some t')]> (w_fs Fixture.worldP) /\
      attachments t' = attachments Sample.tablesA
  | Err _ => True
  end.
Proof.
  pose proof (@SaveJournal_keeps_rows Toy.format Fixture.journal Fixture.pathP Sample.tablesA
                Fixture.worldP eq_refl eq_refl _ _ (surjective_pairing _)) as H.
  destruct ((@SaveJournal Toy.format Fixture.journal Fixture.pathP Fixture.worldP).1);
    [|exact I].
  destruct H as (t' & Hfs & Hatt & _). exists t'. split; [exact Hfs|exact Hatt].
Defined.

Lemma AddAttachment_GetAttachment_witness :
  exists w',
    @AddAttachment Toy.format Sample.path Sample.photoAttachment Sample.world = (Ok tt, w') /\
    @GetAttachment Toy.format Sample.path "att-1" w' = (Ok Sample.photoAttachment, w').
Proof.
  destruct (@AddAttachment_GetAttachment Toy.format Sample.path Sample.photoAttachment
              Sample.tables Sample.world) as [H _].
  - reflexivity.
  - reflexivity.
  - reflexivity.
  - destruct H as (w' & Ha & Hg & _).
    + intros x Hx. by apply elem_of_nil in Hx.
    + exists w'. split; [exact Ha|exact Hg].
Defined.

Lemma DeleteAttachment_GetAttachment_witness :
  exists w',
    @DeleteAttachment Toy.format Fixture.pathP "att-0" Fixture.worldP = (Ok tt, w') /\
    @GetAttachment Toy.format Fixture.pathP "att-0" w' = (Err ErrNoRows, w').
Proof.
  destruct (@DeleteAttachment_GetAttachment Toy.format Fixture.pathP "att-0" Sample.tablesA
              Fixture.worldP) as (w' & Hd & Hg & _).
  - reflexivity.
  - reflexivity.
  - reflexivity.
  - exists w'. split; [exact Hd|exact Hg].
Defined.

Lemma AddAttachment_DeleteAttachment_witness :
  exists w',
    @AddAttachment Toy.format Sample.path Sample.photoAttachment Sample.world = (Ok tt, w') /\
    @DeleteAttachment Toy.format Sample.path "att-1" w' = (Ok tt, Sample.world).
Proof.
  apply (@AddAttachment_DeleteAttachment Toy.format Sample.path Sample.photoAttachment
           Sample.tables Sample.world).
  - reflexivity.
  - reflexivity.
  - reflexivity.
  - intros x Hx. by apply elem_of_nil in Hx.
Defined.

Lemma GetEntryAttachments_as_listed_witness :
  exists l,
    @GetEntryAttachments Toy.format Fixture.pathP "X" Fixture.worldP = (Ok l, Fixture.worldP) /\
    map metadata l = attachments_of Sample.tablesA "X".
Proof.
  destruct (@GetEntryAttachments_as_listed Toy.format Fixture.pathP "X" Sample.tablesA
              Fixture.worldP) as (l & Hg & Hm & _).
  - reflexivity.
  - reflexivity.
  - exists l. split; [exact Hg|exact Hm].
Defined.

Lemma CreateEmptyJournal_idempotent_witness :
  @CreateEmptyJournal Toy.format Sample.path Sample.world = (Ok tt, Sample.world).
Proof.
  destruct (@CreateEmptyJournal_idempotent Toy.format Sample.path Sample.world) as [H _].
  - reflexivity.
  - reflexivity.
  - apply (H Sample.tables). reflexivity.
Defined.

Lemma AddAttachment_ExportAttachment_witness :
  exists w' w'',
    @AddAttachment Toy.format Sample.path Sample.photoAttachment Sample.world = (Ok tt, w') /\
    @ExportAttachment Toy.format Sample.path "att-1" "/out.png" w' = (Ok tt, w'') /\
    w_fs w'' !! "/out.png" = Some (RawFile [x89; x50; x4e; x47]).
Proof.
  apply (@AddAttachment_ExportAttachment Toy.format Sample.path "/out.png"
           Sample.photoAttachment Sample.tables Sample.world).
  - reflexivity.
  - reflexivity.
  - reflexivity.
  - reflexivity.
  - intros x Hx. by apply elem_of_nil in Hx.
  - discriminate.
  - discriminate.
Defined.

Lemma GetAttachmentEncrypted_as_plain_witness :
  exists r,
    @GetAttachmentEncrypted Toy.crypto Toy.format Sample.pathA "pw" "att-0" Sample.worldA
      = (r, Sample.worldA) /\
    @GetAttachment Toy.format Fixture.pathP "att-0" Fixture.worldP = (r, Fixture.worldP).
Proof.
  apply (@GetAttachmentEncrypted_as_plain Toy.crypto Toy.format toy_format_spec
           Sample.pathA "pw" "att-0" Sample.tablesA Sample.worldA Fixture.pathP Fixture.worldP).
  - reflexivity.
  - reflexivity.
  - exact sampleA_holds.
  - reflexivity.
Defined.

Lemma DeleteAttachmentEncrypted_removes_witness :
  exists w',
    @DeleteAttachmentEncrypted Toy.crypto Toy.format Sample.pathA "pw" "att-0" Sample.worldA
      = (Ok tt, w') /\
    @GetAttachmentEncrypted Toy.crypto Toy.format Sample.pathA "pw" "att-0" w'
      = (Err ErrNoRows, w').
Proof.
  destruct (@DeleteAttachmentEncrypted_removes Toy.crypto toy_crypto_spec Toy.format
              toy_format_spec Sample.pathA "pw" "att-0" Sample.tablesA Sample.worldA)
    as (w' & Hd & _ & Hg).
  - reflexivity.
  - exact sampleA_holds.
  - reflexivity.
  - cbn. unfold NonceSize. lia.
  - exists w'. split; [exact Hd|exact Hg].
Defined.

Lemma LoadJournalEncrypted_edges_witness :
  @LoadJournalEncrypted Toy.crypto Toy.format Fixture.pathS "pw" Fixture.worldS
    = (Err ErrInvalidPassword, Fixture.worldS).
Proof.
  destruct (@LoadJournalEncrypted_edges Toy.crypto toy_crypto_spec Toy.format
              Fixture.pathS "pw" Fixture.worldS) as (_ & _ & H).
  - reflexivity.
  - apply (H [x01; x02]).
    + reflexivity.
    + cbn. lia.
    + left. cbn. unfold NonceSize. lia.
Defined.

Lemma encrypted_writes_on_missing_file_witness :
  @addHistoryRecordEncrypted Toy.crypto Toy.format "/none.enc" "X" Sample.record "pw"
    Fixture.emptyR = (Err ErrNotExist, Fixture.emptyR) /\
  exists w',
    @AddAttachmentEncrypted Toy.crypto Toy.format "/none.enc" "pw" Sample.photoAttachment
      Fixture.emptyR = (Ok tt, w').
Proof.
  destruct (@encrypted_writes_on_missing_file Toy.crypto toy_crypto_spec Toy.format
              "/none.enc" "pw" "X" Sample.record Sample.photoAttachment Fixture.emptyR)
    as [Hh Ha].
  - reflexivity.
  - reflexivity.
  - split; [exact Hh|]. destruct Ha as (w' & Ha & _).
    + reflexivity.
    + cbn. unfold NonceSize. lia.
    + by exists w'.
Defined.

Lemma GetSortedJournals_after_open_witness :
  head (GetSortedJournals (UpdateJournalLastOpened Fixture.config "/b.db" 9)) =
    Some (mkJournalDB "b" "/b.db" false 9).
Proof.
  apply (GetSortedJournals_after_open Fixture.config "/b.db" 9 1%nat
           (mkJournalDB "b" "/b.db" false 3)).
  - reflexivity.
  - reflexivity.
  - intros j' [->|[->|H]%elem_of_cons]%elem_of_cons; [| |by apply elem_of_nil in H];
      reflexivity.
Defined.


Lemma deleteAttachment_outcomes_witness :
  exists w',
    @deleteAttachment Toy.crypto Toy.format Fixture.screen 0 Fixture.worldP =
      ((None, setEntry Fixture.screen (withAttachments (am_entry Fixture.screen) []) false),
       w').
Proof.
  destruct (@deleteAttachment_outcomes Toy.crypto toy_crypto_spec Toy.format toy_format_spec
              Fixture.screen 0%nat Fixture.worldP) as (_ & _ & H).
  destruct (H Fixture.note Sample.tablesA) as (w' & Hd & _).
  - reflexivity.
  - reflexivity.
  - reflexivity.
  - reflexivity.
  - discriminate.
  - exists w'. exact Hd.
Defined.

Lemma fixture_list_ok : cursor_ok Fixture.list.
Proof.
  unfold cursor_ok, visibleLines, Fixture.list, NewListModel.
  cbn [lm_SelectedIndex lm_offset lm_height lm_journal Entries length].
  rewrite decide_True by lia. lia.
Qed.

Lemma ListModel_Update_cursor_witness :
  cursor_ok (ListModel_Update Fixture.list "down" "2024-03-01") /\
  lm_journal (ListModel_Update Fixture.list "down" "2024-03-01") = lm_journal Fixture.list.
Proof. apply ListModel_Update_cursor. exact fixture_list_ok. Defined.

Lemma ListModel_Update_action_witness :
  exists e,
    Entries (lm_journal Fixture.list)
      !! Z.to_nat (lm_SelectedIndex (ListModel_Update Fixture.list "enter" "2024-03-01"))
    = Some e.
Proof.
  apply (ListModel_Update_action Fixture.list "enter" "2024-03-01").
  - exact fixture_list_ok.
  - reflexivity.
Defined.

Lemma updateDeleteConfirm_plain_witness :
  exists w',
    @updateDeleteConfirm Toy.crypto Toy.format (Sample.app Sample.editX) "y" 0 Sample.world =
      Some (setView (setJournal (Sample.app Sample.editX) (mkJournal [])) ViewList, w') /\
    w_fs w' = <[Sample.path := SqliteFile (Some (mkTables [] [] []))]> (w_fs Sample.world).
Proof.
  destruct (@updateDeleteConfirm_plain Toy.crypto Toy.format (Sample.app Sample.editX) 0
              Sample.world (mkJournalDB "journal" Sample.path false 0) Sample.tables
              Sample.entryX) as (w' & Hu & _ & Hfs).
  - reflexivity.
  - reflexivity.
  - reflexivity.
  - reflexivity.
  - lia.
  - reflexivity.
  - exists w'. split; [exact Hu|]. apply Hfs. reflexivity.
Defined.

Lemma updateDeleteConfirm_encrypted_witness :
  exists w',
    @updateDeleteConfirm Toy.crypto Toy.format Fixture.appA "y" 0 Sample.worldA =
      Some (setView (setJournal Fixture.appA (mkJournal [Sample.entryX])) ViewList, w') /\
    @GetAttachmentEncrypted Toy.crypto Toy.format Sample.pathA "pw" "att-0" w'
      = (Err ErrNoRows, w').
Proof.
  destruct (@updateDeleteConfirm_encrypted Toy.crypto toy_crypto_spec Toy.format
              toy_format_spec Fixture.appA 0 Sample.worldA
              (mkJournalDB "a" Sample.pathA true 0) Fixture.entryY)
    as (w' & Hu & _ & Hg).
  - reflexivity.
  - reflexivity.
  - reflexivity.
  - unfold Sample.worldA. cbn [w_fs]. rewrite lookup_singleton_eq. discriminate.
  - reflexivity.
  - cbn. unfold NonceSize. lia.
  - exact sample_journal_ok.
  - lia.
  - reflexivity.
  - exists w'. split; [exact Hu|]. apply Hg.
Defined.
